(** * godot-mcp: the live control protocol

    A shallow embedding of the two halves of the live control channel:

    - the agent, [mcp_interaction_server.gd] (GDScript, runs inside the game):
      the frame reader of [_process], the reentrancy guard of
      [_handle_command], [_send_response] / [_send_response_raw], and the
      value codec [_variant_to_json] / [_json_to_variant];
    - the controller, [src/index.ts] (TypeScript): [connectToGame] with its
      socket handlers, [disconnectFromGame] and [sendGameCommand].

    Around the channel, further parts of both programs are embedded:

    - of the agent: the scene listings ([_build_tree_node],
      [_find_by_class_recursive], [_collect_ui_elements]), the property
      commands with [_json_to_variant_for_property], [_string_to_keycode],
      [_indent_code], and [_cmd_wait] over the frames of the game;
    - of the controller: [validatePath], [isGodot44OrLater], the parameter
      renamings, [injectInteractionServer] / [removeInteractionServer],
      [handleRunProject] / [handleStopProject] with the handlers of the game
      process, [handleGameWait], and [findGodotProjects].

    Text is a sequence of code points (Godot [String]) or UTF-16 code units
    (JavaScript [string]); both are lists of [N]. *)

From Stdlib Require Import ZArith NArith List String Ascii Bool Lia.
From Stdlib Require Import Strings.Byte.
From Corelib Require PrimFloat.
From Stdlib Require Uint63 Floats DecimalString.
From stdpp Require Import base option list gmap.
Import ListNotations.
Local Open Scope string_scope.
Local Open Scope list_scope.
Local Open Scope stdpp_scope.
Local Open Scope Z_scope.
#[local] Set Warnings "-register-all".

(** ** Text *)

Module Text.

Definition text := list N.

Fixpoint lit (s : string) : text :=
  match s with
  | EmptyString => []
  | String a r => N_of_ascii a :: lit r
  end.

Coercion lit : string >-> text.

Fixpoint eqb (a b : text) : bool :=
  match a, b with
  | [], [] => true
  | x :: a', y :: b' => N.eqb x y && eqb a' b'
  | _, _ => false
  end.

(** The line feed, ["\n"]. *)
Definition LF : N := 10%N.

(** Index of the first occurrence of the character [c], or [-1]
    (JavaScript [indexOf], Godot [find], with a one-character needle). *)
Fixpoint index_of (c : N) (s : text) : Z :=
  match s with
  | [] => -1
  | x :: r =>
      if N.eqb x c then 0
      else let i := index_of c r in if i <? 0 then -1 else i + 1
  end.

(** The characters at positions [from, from + len). *)
Definition sub (s : text) (from len : Z) : text :=
  firstn (Z.to_nat len) (skipn (Z.to_nat from) s).

(** The characters from position [from] to the end. *)
Definition from_pos (s : text) (from : Z) : text :=
  skipn (Z.to_nat from) s.

(** Removes from both ends the characters that [ws] accepts. *)
Fixpoint strip_left (ws : N -> bool) (s : text) : text :=
  match s with
  | [] => []
  | x :: r => if ws x then strip_left ws r else s
  end.

Definition strip (ws : N -> bool) (s : text) : text :=
  rev (strip_left ws (rev (strip_left ws s))).

(** The frame reader's contract: the complete lines of a buffer (each up
    to its line feed, the line feed left out) and what follows the last
    line feed. *)
Fixpoint lines (s : text) : list text * text :=
  match s with
  | [] => ([], [])
  | c :: r =>
      let (ls, rest) := lines r in
      if N.eqb c LF then ([] :: ls, rest)
      else match ls with
           | [] => ([], c :: rest)
           | l :: ls' => ((c :: l) :: ls', rest)
           end
  end.

(** Writes JSON text in a string literal, with ['] standing for the
    double quote. *)
Definition json_lit (s : string) : text :=
  map (fun c => if N.eqb c 39 then 34%N else c) (lit s).

End Text.

Import Text.

(** ** The agent's values (GDScript) *)

Module Godot.

(** The numeric types of the engine. A [Variant] float is an IEEE double;
    the components of [Vector2], [Color], [Basis] and the like are [real_t]
    (single precision unless the engine is built with [precision=double]).
    Reading a component widens it, a constructor narrows its arguments. *)
Class Num := {
  float : Type;
  real_t : Type;
  widen : real_t -> float;
  narrow : float -> real_t;
  int_to_float : Z -> float;      (* float(i) *)
  float_to_int : float -> Z;      (* int(f), truncation *)
  text_to_float : text -> float;  (* String.to_float() *)
  text_to_int : text -> Z;        (* String.to_int() *)
}.

(** Widening a component and narrowing it again gives the component back. *)
Class NumLaws `{Num} := {
  narrow_widen : forall r : real_t, narrow (widen r) = r;
}.

(** A 64-bit [int] stored in a 32-bit component of [Vector2i] / [Vector3i]. *)
Definition wrap32 (z : Z) : Z := (z + 2 ^ 31) mod 2 ^ 32 - 2 ^ 31.

Definition int32 (z : Z) : Prop := - 2 ^ 31 <= z < 2 ^ 31.

Module Vector2.
Record t `{Num} := mk { x : real_t; y : real_t }.
Arguments mk {_}.
End Vector2.

Module Vector2i.
Record t := mk { x : Z; y : Z }.
End Vector2i.

Module Vector3.
Record t `{Num} := mk { x : real_t; y : real_t; z : real_t }.
Arguments mk {_}.
End Vector3.

Module Vector3i.
Record t := mk { x : Z; y : Z; z : Z }.
End Vector3i.

Module Color.
Record t `{Num} := mk { r : real_t; g : real_t; b : real_t; a : real_t }.
Arguments mk {_}.
End Color.

Module Quaternion.
Record t `{Num} := mk { x : real_t; y : real_t; z : real_t; w : real_t }.
Arguments mk {_}.
End Quaternion.

(** [x], [y], [z] are the three axes (columns), as the script reads them
    and as the three-vector constructor takes them. *)
Module Basis.
Record t `{Num} := mk { x : Vector3.t; y : Vector3.t; z : Vector3.t }.
Arguments mk {_}.
End Basis.

Module Transform3D.
Record t `{Num} := mk { basis : Basis.t; origin : Vector3.t }.
Arguments mk {_}.
End Transform3D.

Module Transform2D.
Record t `{Num} := mk { x : Vector2.t; y : Vector2.t; origin : Vector2.t }.
Arguments mk {_}.
End Transform2D.

Module Rect2.
Record t `{Num} := mk { position : Vector2.t; size : Vector2.t }.
Arguments mk {_}.
End Rect2.

Module AABB.
Record t `{Num} := mk { position : Vector3.t; size : Vector3.t }.
Arguments mk {_}.
End AABB.

(** What the codec reads of a live object. *)
Inductive object_ref :=
| NodeRef (class name path : text)
| ResourceRef (class resource_path : text)
| ObjectRef (class : text) (instance_id : Z).

(** A GDScript [Variant]. JSON data is a [Variant] too: [JSON.parse] yields
    [VNil], [VBool], [VFloat], [VString], [VArray] and [VDictionary] with
    [VString] keys. [VOther] stands for every type the codec does not name
    ([Rect2i], [Plane], [Callable], ...). *)
Inductive variant `{Num} :=
| VNil
| VBool (b : bool)
| VInt (i : Z)
| VFloat (f : float)
| VString (s : text)
| VVector2 (v : Vector2.t)
| VVector2i (v : Vector2i.t)
| VVector3 (v : Vector3.t)
| VVector3i (v : Vector3i.t)
| VColor (c : Color.t)
| VQuaternion (q : Quaternion.t)
| VBasis (m : Basis.t)
| VTransform3D (t : Transform3D.t)
| VTransform2D (t : Transform2D.t)
| VRect2 (r : Rect2.t)
| VAABB (r : AABB.t)
| VNodePath (p : text)
| VStringName (s : text)
| VPackedByteArray (l : list Z)
| VPackedInt32Array (l : list Z)
| VPackedInt64Array (l : list Z)
| VPackedFloat32Array (l : list float)
| VPackedFloat64Array (l : list float)
| VPackedStringArray (l : list text)
| VPackedVector2Array (l : list Vector2.t)
| VPackedVector3Array (l : list Vector3.t)
| VPackedColorArray (l : list Color.t)
| VArray (l : list variant)
| VDictionary (d : list (variant * variant))
| VObject (o : object_ref)
| VOther (tag : text).

(** [str(value)], the engine's rendering of a value as text. *)
Class Str `{Num} := str : variant -> text.

Section Values.
Context `{Num}.

(** *** Dictionaries: insertion-ordered, keys unique *)

Definition Dictionary := list (variant * variant).

(** A key is the string [s] ([String] and [StringName] keys are the same
    key). *)
Definition key_is (s : text) (k : variant) : bool :=
  match k with
  | VString t | VStringName t => Text.eqb t s
  | _ => false
  end.

Fixpoint dict_find (d : Dictionary) (s : text) : option variant :=
  match d with
  | [] => None
  | (k, v) :: d' => if key_is s k then Some v else dict_find d' s
  end.

(** [dict.has(s)] *)
Definition dict_has (d : Dictionary) (s : text) : bool :=
  match dict_find d s with Some _ => true | None => false end.

(** [dict.get(s, default)] *)
Definition dict_get (d : Dictionary) (s : text) (default : variant) : variant :=
  match dict_find d s with Some v => v | None => default end.

(** [dict.size()] *)
Definition dict_size (d : Dictionary) : Z := Z.of_nat (length d).

(** [dict[s] = v] *)
Fixpoint dict_set (d : Dictionary) (s : text) (v : variant) : Dictionary :=
  match d with
  | [] => [(VString s, v)]
  | (k, w) :: d' => if key_is s k then (k, v) :: d' else (k, w) :: dict_set d' s v
  end.

(** A dictionary literal [{"k1": v1, ...}] with distinct keys. *)
Definition dict_lit (l : list (string * variant)) : variant :=
  VDictionary (map (fun kv => (VString (lit kv.1), kv.2)) l).

(** *** Conversions and constructors *)

(** [float(v)]; [None] is the runtime error of a value with no conversion. *)
Definition to_float (v : variant) : option float :=
  match v with
  | VBool b => Some (int_to_float (if b then 1 else 0))
  | VInt i => Some (int_to_float i)
  | VFloat f => Some f
  | VString s => Some (text_to_float s)
  | _ => None
  end.

(** [int(v)] *)
Definition to_int (v : variant) : option Z :=
  match v with
  | VBool b => Some (if b then 1 else 0)
  | VInt i => Some i
  | VFloat f => Some (float_to_int f)
  | VString s => Some (text_to_int s)
  | _ => None
  end.

(** [var d: Dictionary = v]: the assignment fails on any other type. *)
Definition as_dict (v : variant) : option Dictionary :=
  match v with VDictionary d => Some d | _ => None end.

(** [var b: Basis = v] *)
Definition as_basis (v : variant) : option Basis.t :=
  match v with VBasis b => Some b | _ => None end.

Definition Vector2_ (x y : float) : Vector2.t :=
  Vector2.mk (narrow x) (narrow y).

Definition Vector2i_ (x y : Z) : Vector2i.t :=
  Vector2i.mk (wrap32 x) (wrap32 y).

Definition Vector3_ (x y z : float) : Vector3.t :=
  Vector3.mk (narrow x) (narrow y) (narrow z).

Definition Vector3i_ (x y z : Z) : Vector3i.t :=
  Vector3i.mk (wrap32 x) (wrap32 y) (wrap32 z).

Definition Color_ (r g b a : float) : Color.t :=
  Color.mk (narrow r) (narrow g) (narrow b) (narrow a).

Definition Quaternion_ (x y z w : float) : Quaternion.t :=
  Quaternion.mk (narrow x) (narrow y) (narrow z) (narrow w).

(** [Rect2(x, y, width, height)] *)
Definition Rect2_ (x y w h : float) : Rect2.t :=
  Rect2.mk (Vector2_ x y) (Vector2_ w h).

Definition real_of_int (i : Z) : real_t := narrow (int_to_float i).

(** [Basis.IDENTITY] *)
Definition Basis_IDENTITY : Basis.t :=
  Basis.mk
    (Vector3.mk (real_of_int 1) (real_of_int 0) (real_of_int 0))
    (Vector3.mk (real_of_int 0) (real_of_int 1) (real_of_int 0))
    (Vector3.mk (real_of_int 0) (real_of_int 0) (real_of_int 1)).

End Values.

(** *** The value codec *)

Section Codec.
Context `{Num} `{!Str}.

(** The branches of [_variant_to_json] for the aggregates. The script
    reaches them by calling itself on a component ([value.x], [value.basis],
    ...); here the nested call is the branch it selects. *)
Definition json_of_Vector2 (v : Vector2.t) : variant :=
  dict_lit [("x", VFloat (widen (Vector2.x v))); ("y", VFloat (widen (Vector2.y v)))].

Definition json_of_Vector3 (v : Vector3.t) : variant :=
  dict_lit [("x", VFloat (widen (Vector3.x v))); ("y", VFloat (widen (Vector3.y v)));
            ("z", VFloat (widen (Vector3.z v)))].

Definition json_of_Color (c : Color.t) : variant :=
  dict_lit [("r", VFloat (widen (Color.r c))); ("g", VFloat (widen (Color.g c)));
            ("b", VFloat (widen (Color.b c))); ("a", VFloat (widen (Color.a c)))].

Definition json_of_Basis (m : Basis.t) : variant :=
  dict_lit [("x", json_of_Vector3 (Basis.x m));
            ("y", json_of_Vector3 (Basis.y m));
            ("z", json_of_Vector3 (Basis.z m))].

(** [_variant_to_json(value)]: native value to JSON-safe value. *)
Fixpoint _variant_to_json (value : variant) : variant :=
  match value with
  | VNil => VNil
  | VBool _ | VInt _ | VFloat _ | VString _ => value
  | VVector2 v => json_of_Vector2 v
  | VVector3 v => json_of_Vector3 v
  | VVector2i v =>
      dict_lit [("x", VInt (Vector2i.x v)); ("y", VInt (Vector2i.y v))]
  | VVector3i v =>
      dict_lit [("x", VInt (Vector3i.x v)); ("y", VInt (Vector3i.y v)); ("z", VInt (Vector3i.z v))]
  | VColor c => json_of_Color c
  | VQuaternion q =>
      dict_lit [("x", VFloat (widen (Quaternion.x q))); ("y", VFloat (widen (Quaternion.y q)));
                ("z", VFloat (widen (Quaternion.z q))); ("w", VFloat (widen (Quaternion.w q)))]
  | VBasis m => json_of_Basis m
  | VTransform3D t =>
      dict_lit [("basis", json_of_Basis (Transform3D.basis t));
                ("origin", json_of_Vector3 (Transform3D.origin t))]
  | VTransform2D t =>
      dict_lit [("x", json_of_Vector2 (Transform2D.x t));
                ("y", json_of_Vector2 (Transform2D.y t));
                ("origin", json_of_Vector2 (Transform2D.origin t))]
  | VRect2 r =>
      dict_lit [("position", json_of_Vector2 (Rect2.position r));
                ("size", json_of_Vector2 (Rect2.size r))]
  | VAABB r =>
      dict_lit [("position", json_of_Vector3 (AABB.position r));
                ("size", json_of_Vector3 (AABB.size r))]
  | VNodePath _ | VStringName _ => VString (str value)
  | VPackedByteArray l | VPackedInt32Array l | VPackedInt64Array l => VArray (map VInt l)
  | VPackedFloat32Array l | VPackedFloat64Array l => VArray (map VFloat l)
  | VPackedStringArray l => VArray (map VString l)
  | VPackedVector2Array l => VArray (map json_of_Vector2 l)
  | VPackedVector3Array l => VArray (map json_of_Vector3 l)
  | VPackedColorArray l => VArray (map json_of_Color l)
  | VArray l => VArray (map _variant_to_json l)
  | VDictionary d =>
      VDictionary
        (fold_left (fun dict kv => dict_set dict (str kv.1) kv.2)
           (map (fun kv => (kv.1, _variant_to_json kv.2)) d) [])
  | VObject (NodeRef class name path) =>
      dict_lit [("_type", VString "Node"); ("class", VString class);
                ("name", VString name); ("path", VString path)]
  | VObject (ResourceRef class resource_path) =>
      dict_lit [("_type", VString "Resource"); ("class", VString class);
                ("path", VString resource_path)]
  | VObject (ObjectRef class instance_id) =>
      dict_lit [("_type", VString "Object"); ("class", VString class);
                ("id", VInt instance_id)]
  | VOther _ => VString (str value)
  end.

(** The constructor expressions of [_json_to_variant], each with the
    defaults the script passes to [dict.get]. *)
Definition vector2_of (dict : Dictionary) : option Vector2.t :=
  x ← to_float (dict_get dict "x" (VInt 0));
  y ← to_float (dict_get dict "y" (VInt 0));
  Some (Vector2_ x y).

Definition vector2i_of (dict : Dictionary) : option Vector2i.t :=
  x ← to_int (dict_get dict "x" (VInt 0));
  y ← to_int (dict_get dict "y" (VInt 0));
  Some (Vector2i_ x y).

Definition vector3_of (dict : Dictionary) : option Vector3.t :=
  x ← to_float (dict_get dict "x" (VInt 0));
  y ← to_float (dict_get dict "y" (VInt 0));
  z ← to_float (dict_get dict "z" (VInt 0));
  Some (Vector3_ x y z).

Definition vector3i_of (dict : Dictionary) : option Vector3i.t :=
  x ← to_int (dict_get dict "x" (VInt 0));
  y ← to_int (dict_get dict "y" (VInt 0));
  z ← to_int (dict_get dict "z" (VInt 0));
  Some (Vector3i_ x y z).

Definition color_of (dict : Dictionary) : option Color.t :=
  r ← to_float (dict_get dict "r" (VInt 0));
  g ← to_float (dict_get dict "g" (VInt 0));
  b ← to_float (dict_get dict "b" (VInt 0));
  a ← to_float (dict_get dict "a" (VInt 1));
  Some (Color_ r g b a).

Definition quaternion_of (dict : Dictionary) : option Quaternion.t :=
  x ← to_float (dict_get dict "x" (VInt 0));
  y ← to_float (dict_get dict "y" (VInt 0));
  z ← to_float (dict_get dict "z" (VInt 0));
  w ← to_float (dict_get dict "w" (VInt 1));
  Some (Quaternion_ x y z w).

(** [{"x": a, "y": b}] and [{"x": a, "y": b, "z": c}] with integer entries,
    the default sub-objects. *)
Definition xy (a b : Z) : variant := dict_lit [("x", VInt a); ("y", VInt b)].

Definition xyz (a b c : Z) : variant :=
  dict_lit [("x", VInt a); ("y", VInt b); ("z", VInt c)].

(** [_json_to_variant(value, type_hint)]: JSON value back to a native value.
    The script calls itself (auto-detection re-enters with a hint, the
    [Transform3D] branch re-enters for its basis); [self] is that call.
    [None] is a runtime error of the script. *)
Definition _json_to_variant_body (self : variant -> text -> option variant)
  (value : variant) (type_hint : text) : option variant :=
  match value with
  | VNil => Some VNil
  | VDictionary dict =>
    (* Explicit type hints take priority *)
    if Text.eqb type_hint "Vector2" then VVector2 <$> vector2_of dict
    else if Text.eqb type_hint "Vector2i" then VVector2i <$> vector2i_of dict
    else if Text.eqb type_hint "Vector3" then VVector3 <$> vector3_of dict
    else if Text.eqb type_hint "Vector3i" then VVector3i <$> vector3i_of dict
    else if Text.eqb type_hint "Color" then VColor <$> color_of dict
    else if Text.eqb type_hint "Quaternion" then VQuaternion <$> quaternion_of dict
    else if Text.eqb type_hint "Rect2" then
      pos ← as_dict (dict_get dict "position" (xy 0 0));
      sz ← as_dict (dict_get dict "size" (xy 0 0));
      px ← to_float (dict_get pos "x" (VInt 0));
      py ← to_float (dict_get pos "y" (VInt 0));
      sx ← to_float (dict_get sz "x" (VInt 0));
      sy ← to_float (dict_get sz "y" (VInt 0));
      Some (VRect2 (Rect2_ px py sx sy))
    else if Text.eqb type_hint "AABB" then
      aabb_pos ← as_dict (dict_get dict "position" (xyz 0 0 0));
      aabb_sz ← as_dict (dict_get dict "size" (xyz 0 0 0));
      p ← vector3_of aabb_pos;
      s ← vector3_of aabb_sz;
      Some (VAABB (AABB.mk p s))
    else if Text.eqb type_hint "Basis" then
      bx ← as_dict (dict_get dict "x" (xyz 1 0 0));
      by_ ← as_dict (dict_get dict "y" (xyz 0 1 0));
      bz ← as_dict (dict_get dict "z" (xyz 0 0 1));
      vx ← vector3_of bx;
      vy ← vector3_of by_;
      vz ← vector3_of bz;
      Some (VBasis (Basis.mk vx vy vz))
    else if Text.eqb type_hint "Transform3D" then
      basis_dict ← as_dict (dict_get dict "basis" (dict_lit []));
      origin_dict ← as_dict (dict_get dict "origin" (xyz 0 0 0));
      basis ← (if dict_size basis_dict >? 0
               then self (VDictionary basis_dict) "Basis" ≫= as_basis
               else Some Basis_IDENTITY);
      origin ← vector3_of origin_dict;
      Some (VTransform3D (Transform3D.mk basis origin))
    else if Text.eqb type_hint "Transform2D" then
      tx ← as_dict (dict_get dict "x" (xy 1 0));
      ty ← as_dict (dict_get dict "y" (xy 0 1));
      t_origin ← as_dict (dict_get dict "origin" (xy 0 0));
      vx ← vector2_of tx;
      vy ← vector2_of ty;
      vo ← vector2_of t_origin;
      Some (VTransform2D (Transform2D.mk vx vy vo))
    (* Auto-detect from dict keys *)
    else if dict_has dict "basis" && dict_has dict "origin" then
      self value "Transform3D"
    else if dict_has dict "r" && dict_has dict "g" && dict_has dict "b" then
      VColor <$> color_of dict
    else if dict_has dict "x" && dict_has dict "y" && dict_has dict "z" && dict_has dict "w" then
      VQuaternion <$> quaternion_of dict
    else if dict_has dict "position" && dict_has dict "size" then
      pos_dict ← dict_find dict "position" ≫= as_dict;
      size_dict ← dict_find dict "size" ≫= as_dict;
      if dict_has pos_dict "z" || dict_has size_dict "z"
      then self value "AABB"
      else self value "Rect2"
    else if dict_has dict "x" && dict_has dict "y" && dict_has dict "z" then
      VVector3 <$> vector3_of dict
    else if dict_has dict "x" && dict_has dict "y" && (dict_size dict =? 2) then
      VVector2 <$> vector2_of dict
    else Some value
  | _ => Some value
  end.

(** The function, with its calls of itself nested at most [depth] deep. *)
Fixpoint _json_to_variant_at (depth : nat) (value : variant) (type_hint : text)
  : option variant :=
  match depth with
  | O => None
  | S depth => _json_to_variant_body (_json_to_variant_at depth) value type_hint
  end.

(** The script's calls nest at most three deep: auto-detection, the hinted
    branch it selects, and the basis of a [Transform3D]. *)
Definition _json_to_variant (value : variant) (type_hint : text) : option variant :=
  _json_to_variant_at 3 value type_hint.

(** *** The documented precedence of auto-detection

    Follows the specification's words: the shapes in their stated order,
    each a predicate on the field names of a plain object. *)
Inductive shape :=
| TransformShaped | ColorShaped | QuaternionShaped | BoxShaped3D | RectShaped2D
| Vector3Shaped | Vector2Shaped | PassThrough.

(** "has a z field": in the position or in the size of the object. *)
Definition has_z_field (dict : Dictionary) : bool :=
  match dict_find dict "position" ≫= as_dict, dict_find dict "size" ≫= as_dict with
  | Some p, Some s => dict_has p "z" || dict_has s "z"
  | _, _ => false
  end.

Definition documented_shape (dict : Dictionary) : shape :=
  if dict_has dict "basis" && dict_has dict "origin" then TransformShaped
  else if dict_has dict "r" && dict_has dict "g" && dict_has dict "b" then ColorShaped
  else if dict_has dict "x" && dict_has dict "y" && dict_has dict "z" && dict_has dict "w"
  then QuaternionShaped
  else if dict_has dict "position" && dict_has dict "size"
  then (if has_z_field dict then BoxShaped3D else RectShaped2D)
  else if dict_has dict "x" && dict_has dict "y" && dict_has dict "z" then Vector3Shaped
  else if dict_has dict "x" && dict_has dict "y" && (dict_size dict =? 2) then Vector2Shaped
  else PassThrough.

(** The type hint that decodes a shape, [None] for pass-through. *)
Definition hint_of_shape (s : shape) : option text :=
  match s with
  | TransformShaped => Some (lit "Transform3D")
  | ColorShaped => Some (lit "Color")
  | QuaternionShaped => Some (lit "Quaternion")
  | BoxShaped3D => Some (lit "AABB")
  | RectShaped2D => Some (lit "Rect2")
  | Vector3Shaped => Some (lit "Vector3")
  | Vector2Shaped => Some (lit "Vector2")
  | PassThrough => None
  end.

(** The type hints with a branch of their own in [_json_to_variant]. *)
Definition known_hints : list text :=
  [lit "Vector2"; lit "Vector2i"; lit "Vector3"; lit "Vector3i"; lit "Color";
   lit "Quaternion"; lit "Rect2"; lit "AABB"; lit "Basis"; lit "Transform3D";
   lit "Transform2D"].

Definition is_known_hint (h : text) : bool := existsb (Text.eqb h) known_hints.

(** *** The supported structured types *)

(** The name of a supported structured type, the hint that decodes it. *)
Definition type_name (v : variant) : option text :=
  match v with
  | VVector2 _ => Some (lit "Vector2")
  | VVector2i _ => Some (lit "Vector2i")
  | VVector3 _ => Some (lit "Vector3")
  | VVector3i _ => Some (lit "Vector3i")
  | VColor _ => Some (lit "Color")
  | VQuaternion _ => Some (lit "Quaternion")
  | VRect2 _ => Some (lit "Rect2")
  | VAABB _ => Some (lit "AABB")
  | VBasis _ => Some (lit "Basis")
  | VTransform2D _ => Some (lit "Transform2D")
  | VTransform3D _ => Some (lit "Transform3D")
  | _ => None
  end.

(** The integer components of a value are 32-bit, as the engine stores
    them. *)
Definition components_int32 (v : variant) : Prop :=
  match v with
  | VVector2i v => int32 (Vector2i.x v) /\ int32 (Vector2i.y v)
  | VVector3i v => int32 (Vector3i.x v) /\ int32 (Vector3i.y v) /\ int32 (Vector3i.z v)
  | _ => True
  end.




End Codec.

(** Evaluates the codec on a value whose components stay symbolic. *)
Ltac run_codec :=
  cbv -[narrow widen int_to_float float_to_int text_to_float text_to_int
        wrap32 Z.add Z.mul Z.modulo Z.sub Z.pow].

End Godot.

(** ** The agent (mcp_interaction_server.gd) *)

Module Agent.
Import Godot.

(** What a command handler does, up to the response it sends. Every path of
    every [_cmd_*] function ends in [_send_response(data)], unless a runtime
    error aborts it first (GDScript has no exceptions: the call is dropped
    and nothing is sent), and it may [await] a signal on the way. [W] is the
    state of the game the handler runs in. *)
Inductive handler (W : Type) `{Num} :=
| Respond (w : W) (data : variant)
| Fault (w : W)
| Await (w : W) (k : W -> handler W).
Arguments Respond {W _} w data.
Arguments Fault {W _} w.
Arguments Await {W _} w k.

(** [JSON.parse(text)]: the data, or the parser's error message. *)
Inductive parse_result `{Num} :=
| ParseOk (data : variant)
| ParseError (message : text).

(** [InputEventMouseButton] *)
Record InputEventMouseButton `{Num} := {
  position : Vector2.t;
  button_index : Z;
  pressed : bool;
}.

(** The engine the script runs in. *)
Class Engine `{Num} := {
  World : Type;
  JSON_parse : text -> parse_result;
  JSON_stringify : variant -> text;
  get_string_from_utf8 : list byte -> text;
  to_utf8_buffer : text -> list byte;
  (* Input.parse_input_event(event) *)
  parse_input_event : InputEventMouseButton -> World -> World;
  (* get_viewport().get_texture().get_image(), as base64 PNG with its size *)
  get_image : World -> option (text * Z * Z);
  (* the handlers whose bodies only talk to the engine *)
  engine_command : text -> Godot.Dictionary -> World -> handler World;
}.

Section Agent.
Context `{Num} `{!Engine}.

(** [StreamPeerTCP], by what has been written to it with [put_data]. *)
Record StreamPeerTCP := { sent : list (list byte) }.

Inductive Status := STATUS_NONE | STATUS_CONNECTING | STATUS_CONNECTED | STATUS_ERROR.

(** The script's variables, the state of the game, and the coroutines of
    [_handle_command] that are suspended in an [await] (the engine keeps
    them; they resume when the awaited signal is emitted). *)
Record Server := {
  _server : bool;                     (* the listener exists *)
  _client : option StreamPeerTCP;
  _buffer : text;
  _busy : bool;
  world : World;
  suspended : list (World -> handler World);
}.

Definition set_client (c : option StreamPeerTCP) (s : Server) : Server :=
  {| _server := _server s; _client := c; _buffer := _buffer s; _busy := _busy s;
     world := world s; suspended := suspended s |}.

Definition set_buffer (b : text) (s : Server) : Server :=
  {| _server := _server s; _client := _client s; _buffer := b; _busy := _busy s;
     world := world s; suspended := suspended s |}.

Definition set_busy (b : bool) (s : Server) : Server :=
  {| _server := _server s; _client := _client s; _buffer := _buffer s; _busy := b;
     world := world s; suspended := suspended s |}.

Definition set_world (w : World) (s : Server) : Server :=
  {| _server := _server s; _client := _client s; _buffer := _buffer s; _busy := _busy s;
     world := w; suspended := suspended s |}.

Definition set_suspended (l : list (World -> handler World)) (s : Server) : Server :=
  {| _server := _server s; _client := _client s; _buffer := _buffer s; _busy := _busy s;
     world := world s; suspended := l |}.

(** One framed response: [(JSON.stringify(data) + "\n").to_utf8_buffer()]. *)
Definition framed (data : variant) : list byte :=
  to_utf8_buffer (JSON_stringify data ++ [LF]).

(** Send response without clearing busy flag (used when rejecting during
    busy state). *)
Definition _send_response_raw (data : variant) (s : Server) : Server :=
  match _client s with
  | None => s
  | Some c => set_client (Some {| sent := sent c ++ [framed data] |}) s
  end.

(** Send response and clear busy flag. *)
Definition _send_response (data : variant) (s : Server) : Server :=
  _send_response_raw data (set_busy false s).

Definition error_response (message : text) : variant :=
  dict_lit [("error", VString message)].

Definition busy_response : variant :=
  error_response "Server busy processing another command. Try again.".

(** Runs a handler from where it stands: it responds, aborts, or suspends. *)
Definition complete (h : handler World) (s : Server) : Server :=
  match h with
  | Respond w data => _send_response data (set_world w s)
  | Fault w => set_world w s
  | Await w k => set_suspended (suspended s ++ [k]) (set_world w s)
  end.

(** [var s: String = v] *)
Definition as_string (v : variant) : option text :=
  match v with VString s => Some s | _ => None end.

Definition MOUSE_BUTTON_LEFT : Z := 1.

(** [_cmd_screenshot()] *)
Definition _cmd_screenshot (w : World) : handler World :=
  (* Wait one frame so the viewport is fully rendered *)
  Await w (fun w =>
    match get_image w with
    | None => Respond w (error_response "Failed to capture screenshot")
    | Some (base64_str, width, height) =>
        Respond w (dict_lit [("success", VBool true); ("data", VString base64_str);
                             ("width", VInt width); ("height", VInt height)])
    end).

(** [_cmd_click(params)] *)
Definition _cmd_click (params : Godot.Dictionary) (w : World) : handler World :=
  match to_float (dict_get params "x" (VInt 0)),
        to_float (dict_get params "y" (VInt 0)),
        to_int (dict_get params "button" (VInt MOUSE_BUTTON_LEFT)) with
  | Some x, Some y, Some button =>
      let pos := Vector2_ x y in
      let w := parse_input_event
                 {| position := pos; button_index := button; pressed := true |} w in
      (* Wait a frame then release *)
      Await w (fun w =>
        let w := parse_input_event
                   {| position := pos; button_index := button; pressed := false |} w in
        Respond w (dict_lit [("success", VBool true);
                             ("clicked", dict_lit [("x", VFloat x); ("y", VFloat y);
                                                   ("button", VInt button)])]))
  | _, _, _ => Fault w
  end.

(** [for i in frames: await get_tree().process_frame], then the response. *)
Fixpoint await_frames (n : nat) (data : variant) (w : World) : handler World :=
  match n with
  | O => Respond w data
  | S n => Await w (await_frames n data)
  end.

(** [_cmd_wait(params)] *)
Definition _cmd_wait (params : Godot.Dictionary) (w : World) : handler World :=
  match to_int (dict_get params "frames" (VInt 1)) with
  | Some frames =>
      await_frames (Z.to_nat frames)
        (dict_lit [("success", VBool true); ("waited_frames", VInt frames)]) w
  | None => Fault w
  end.

(** The commands of [_handle_command]'s [match] that are left to the
    engine. *)
Definition engine_commands : list text :=
  [lit "key_press"; lit "eval"; lit "mouse_move"; lit "get_ui_elements";
   lit "get_scene_tree"; lit "get_property"; lit "set_property"; lit "call_method";
   lit "get_node_info"; lit "instantiate_scene"; lit "remove_node"; lit "change_scene";
   lit "pause"; lit "get_performance"; lit "connect_signal"; lit "disconnect_signal";
   lit "emit_signal"; lit "play_animation"; lit "tween_property";
   lit "get_nodes_in_group"; lit "find_nodes_by_class"; lit "reparent_node"].

(** The [match command:] of [_handle_command]. *)
Definition dispatch (command : text) (params : Godot.Dictionary) (w : World)
  : handler World :=
  if Text.eqb command "screenshot" then _cmd_screenshot w
  else if Text.eqb command "click" then _cmd_click params w
  else if Text.eqb command "wait" then _cmd_wait params w
  else if existsb (Text.eqb command) engine_commands then engine_command command params w
  else Respond w (error_response (lit "Unknown command: " ++ command)).

(** [_handle_command(json_str)] *)
Definition _handle_command (json_str : text) (s : Server) : Server :=
  if _busy s then _send_response_raw busy_response s
  else
    let s := set_busy true s in
    match JSON_parse json_str with
    | ParseError message =>
        _send_response (error_response (lit "Invalid JSON: " ++ message)) s
    | ParseOk (VDictionary data) =>
        match as_string (dict_get data "command" (VString "")),
              as_dict (dict_get data "params" (dict_lit [])) with
        | Some command, Some params => complete (dispatch command params (world s)) s
        | _, _ => s (* a typed assignment failed: the call is dropped *)
        end
    | ParseOk _ => _send_response (error_response "Expected JSON object") s
    end.

(** [strip_edges()] removes the characters up to the space (code 32). *)
Definition strip_edges (s : text) : text := Text.strip (fun c => (c <=? 32)%N) s.

(** The [while _buffer.find("\n") >= 0] loop of [_process]. Each turn
    removes at least the line feed it found, so [fuel] = the length of the
    buffer is never exhausted. *)
Fixpoint process_lines (fuel : nat) (s : Server) : Server :=
  if Text.index_of LF (_buffer s) >=? 0 then
    match fuel with
    | O => s
    | S fuel =>
        let newline_pos := Text.index_of LF (_buffer s) in
        let line := strip_edges (Text.sub (_buffer s) 0 newline_pos) in
        let s := set_buffer (Text.from_pos (_buffer s) (newline_pos + 1)) s in
        process_lines fuel
          (if Z.of_nat (length line) >? 0 then _handle_command line s else s)
    end
  else s.

(** What the engine offers to one call of [_process]. *)
Record frame_input := {
  new_client : option StreamPeerTCP;   (* _server.take_connection() *)
  status : Status;                     (* _client.get_status() after poll() *)
  available : list byte;               (* the bytes get_data(available) returns *)
  get_data_ok : bool;                  (* data[0] == OK *)
}.

(** [_process(_delta)] *)
Definition _process (i : frame_input) (s : Server) : Server :=
  if negb (_server s) then s
  else
    (* Accept new connections *)
    let s := match new_client i with
             | Some c => set_buffer [] (set_client (Some c) s)
             | None => s
             end in
    (* Read data from client *)
    match _client s with
    | None => s
    | Some _ =>
        match status i with
        | STATUS_ERROR | STATUS_NONE => set_buffer [] (set_client None s)
        | STATUS_CONNECTING => s
        | STATUS_CONNECTED =>
            if (Z.of_nat (length (available i)) >? 0) && get_data_ok i then
              let s := set_buffer (_buffer s ++ get_string_from_utf8 (available i)) s in
              process_lines (length (_buffer s)) s
            else s
        end
    end.

(** The engine emits the awaited signal: every suspended coroutine resumes,
    in the order they suspended. *)
Definition emit_signal (s : Server) : Server :=
  fold_left (fun s k => complete (k (world s)) s) (suspended s) (set_suspended [] s).

(** [_process] on a chunk already decoded to text, from a connected
    client. *)
Definition receive (t : text) (s : Server) : Server :=
  let s := set_buffer (_buffer s ++ t) s in
  process_lines (length (_buffer s)) s.

(** The body of the loop on one line of the stream. *)
Definition handle_line (l : text) (s : Server) : Server :=
  let line := strip_edges l in
  if Z.of_nat (length line) >? 0 then _handle_command line s else s.

Definition handle_all (ls : list text) (s : Server) : Server :=
  fold_left (fun s l => handle_line l s) ls s.

(** The frames a handler writes when it is run from where it stands. *)
Definition responses (h : handler World) : list (list byte) :=
  match h with
  | Respond _ data => [framed data]
  | Fault _ | Await _ _ => []
  end.

(** A framed message that is not valid JSON, or valid JSON that is not an
    object, and the error it is answered with. *)
Definition malformed (json_str : text) : bool :=
  match JSON_parse json_str with
  | ParseError _ => true
  | ParseOk (VDictionary _) => false
  | ParseOk _ => true
  end.

Definition malformed_reply (json_str : text) : variant :=
  match JSON_parse json_str with
  | ParseError message => error_response (lit "Invalid JSON: " ++ message)
  | ParseOk _ => error_response "Expected JSON object"
  end.

(** The text of a stream of lines, each ended by a line feed. *)
Definition unlines (lines : list text) : text :=
  concat (map (fun l => l ++ [LF]) lines).

(** A line of the stream that [_process] hands to [_handle_command] and
    that is malformed: no line feed inside, something left after
    [strip_edges], and not a JSON object. *)
Definition answerable (l : text) : Prop :=
  ~ In LF l /\ strip_edges l <> [] /\ malformed (strip_edges l) = true.

End Agent.
End Agent.

(** ** UTF-8 decoding of a chunk of bytes

    [Buffer.prototype.toString()] decodes the bytes of one chunk on their
    own: an ill-formed or truncated sequence decodes to U+FFFD, and nothing
    is carried over to the next chunk. The decoder is the one of the
    Encoding Standard; the result is in UTF-16 code units. *)

Module Utf8.

Record state := {
  code_point : N;
  bytes_needed : nat;
  lower_boundary : N;
  upper_boundary : N;
}.

Definition initial : state :=
  {| code_point := 0; bytes_needed := 0; lower_boundary := 128; upper_boundary := 191 |}.

Definition REPLACEMENT : N := 65533%N.

(** A code point as UTF-16 code units. *)
Definition code_units (cp : N) : text :=
  if (cp <? 65536)%N then [cp]
  else [(55296 + (cp - 65536) / 1024)%N; (56320 + (cp - 65536) mod 1024)%N].

(** A byte read with no sequence in progress. *)
Definition lead (b : N) : state * text :=
  if (b <=? 127)%N then (initial, [b])
  else if (194 <=? b)%N && (b <=? 223)%N then
    ({| code_point := N.land b 31; bytes_needed := 1;
        lower_boundary := 128; upper_boundary := 191 |}, [])
  else if (224 <=? b)%N && (b <=? 239)%N then
    ({| code_point := N.land b 15; bytes_needed := 2;
        lower_boundary := if (b =? 224)%N then 160%N else 128%N;
        upper_boundary := if (b =? 237)%N then 159%N else 191%N |}, [])
  else if (240 <=? b)%N && (b <=? 244)%N then
    ({| code_point := N.land b 7; bytes_needed := 3;
        lower_boundary := if (b =? 240)%N then 144%N else 128%N;
        upper_boundary := if (b =? 244)%N then 143%N else 191%N |}, [])
  else (initial, [REPLACEMENT]).

Definition step (st : state) (b : N) : state * text :=
  match bytes_needed st with
  | O => lead b
  | S needed =>
      if (b <? lower_boundary st)%N || (upper_boundary st <? b)%N then
        (* the sequence ends here, ill-formed; the byte is read again *)
        let (st', out) := lead b in (st', REPLACEMENT :: out)
      else
        let cp := (N.shiftl (code_point st) 6 + N.land b 63)%N in
        match needed with
        | O => (initial, code_units cp)
        | S _ => ({| code_point := cp; bytes_needed := needed;
                     lower_boundary := 128; upper_boundary := 191 |}, [])
        end
  end.

Fixpoint run (st : state) (bytes : list byte) : text :=
  match bytes with
  | [] => match bytes_needed st with O => [] | S _ => [REPLACEMENT] end
  | b :: rest => let (st', out) := step st (Byte.to_N b) in out ++ run st' rest
  end.

Definition decode (bytes : list byte) : text := run initial bytes.

(** The decoder's state after some bytes; the bytes end at a character
    boundary when no sequence is left in progress. *)
Fixpoint final (st : state) (bytes : list byte) : state :=
  match bytes with
  | [] => st
  | b :: rest => final (step st (Byte.to_N b)).1 rest
  end.

Definition at_character_boundary (bytes : list byte) : Prop :=
  bytes_needed (final initial bytes) = O.

End Utf8.

(** ** The controller (src/index.ts) *)

Module Controller.

(** A JavaScript value as JSON has it. *)
Inductive any :=
| Null
| Bool (b : bool)
| Number (n : PrimFloat.float)
| Str (s : text)
| Arr (items : list any)
| Obj (fields : list (text * any)).

(** The JavaScript runtime's JSON functions; [JSON_parse] is [None] where
    [JSON.parse] throws a [SyntaxError]. *)
Class Runtime := {
  JSON_parse : text -> option any;
  JSON_stringify : any -> text;
}.

(** [new Error(...)], by the site that makes it. *)
Inductive error :=
| NotConnected
| TimedOut (command : text) (timeoutMs : Z).

(** A call of a promise's [resolve] or [reject]. *)
Inductive settlement :=
| Resolved (value : any)
| Rejected (reason : error).

(** Sockets and the promises of [sendGameCommand] are named by numbers. The
    resolver stored in [pendingResolve] is a closure over the promise and
    the timer of one call, so it is named by that call. *)
Definition socket_id := nat.
Definition call_id := nat.

Record GameConnection := {
  socket : option socket_id;
  connected : bool;
  responseBuffer : text;
  pendingResolve : option call_id;
  projectPath : option text;
}.

Inductive diagnostic :=
| ConnectedOnAttempt (attempt : Z)
| AttemptFailed (attempt maxAttempts retryDelay : Z)
| ProcessNotRunning
| FailedToConnect (maxAttempts : Z)
| ConnectionClosed
| FailedToParse (line : text).

(** The server object: the connection, the running timers of
    [sendGameCommand] (each with the command and timeout its message
    prints), and what the code has done so far: every call of a promise's
    [resolve] or [reject] in order, every [socket.write], every
    diagnostic. *)
Record GodotServer := {
  gameConnection : GameConnection;
  timers : gmap call_id (text * Z);
  settled : list (call_id * settlement);
  calls : nat;
  written : list (socket_id * text);
  diagnostics : list diagnostic;
}.

Definition set_gameConnection (g : GameConnection) (s : GodotServer) : GodotServer :=
  {| gameConnection := g; timers := timers s; settled := settled s; calls := calls s;
     written := written s; diagnostics := diagnostics s |}.

Definition set_timers (t : gmap call_id (text * Z)) (s : GodotServer) : GodotServer :=
  {| gameConnection := gameConnection s; timers := t; settled := settled s;
     calls := calls s; written := written s; diagnostics := diagnostics s |}.

Definition settle (c : call_id) (o : settlement) (s : GodotServer) : GodotServer :=
  {| gameConnection := gameConnection s; timers := timers s;
     settled := settled s ++ [(c, o)]; calls := calls s; written := written s;
     diagnostics := diagnostics s |}.

Definition logDebug (d : diagnostic) (s : GodotServer) : GodotServer :=
  {| gameConnection := gameConnection s; timers := timers s; settled := settled s;
     calls := calls s; written := written s; diagnostics := diagnostics s ++ [d] |}.

Definition set_socket (x : option socket_id) (s : GodotServer) : GodotServer :=
  let g := gameConnection s in
  set_gameConnection
    {| socket := x; connected := connected g; responseBuffer := responseBuffer g;
       pendingResolve := pendingResolve g; projectPath := projectPath g |} s.

Definition set_connected (b : bool) (s : GodotServer) : GodotServer :=
  let g := gameConnection s in
  set_gameConnection
    {| socket := socket g; connected := b; responseBuffer := responseBuffer g;
       pendingResolve := pendingResolve g; projectPath := projectPath g |} s.

Definition set_responseBuffer (b : text) (s : GodotServer) : GodotServer :=
  let g := gameConnection s in
  set_gameConnection
    {| socket := socket g; connected := connected g; responseBuffer := b;
       pendingResolve := pendingResolve g; projectPath := projectPath g |} s.

Definition set_pendingResolve (p : option call_id) (s : GodotServer) : GodotServer :=
  let g := gameConnection s in
  set_gameConnection
    {| socket := socket g; connected := connected g; responseBuffer := responseBuffer g;
       pendingResolve := p; projectPath := projectPath g |} s.

Definition set_projectPath (p : option text) (s : GodotServer) : GodotServer :=
  let g := gameConnection s in
  set_gameConnection
    {| socket := socket g; connected := connected g; responseBuffer := responseBuffer g;
       pendingResolve := pendingResolve g; projectPath := p |} s.

(** The server as constructed. *)
Definition initial : GodotServer :=
  {| gameConnection := {| socket := None; connected := false; responseBuffer := [];
                          pendingResolve := None; projectPath := None |};
     timers := ∅; settled := []; calls := 0%nat; written := []; diagnostics := [] |}.

(** [{ error: message }] *)
Definition error_object (message : string) : any := Obj [(lit "error", Str message)].

(** The resolver [sendGameCommand] installs for call [c]:
    [(response) => { clearTimeout(timeout); resolve(response); }]. *)
Definition resolver (c : call_id) (response : any) (s : GodotServer) : GodotServer :=
  settle c (Resolved response) (set_timers (delete c (timers s)) s).

(** [String.prototype.trim] removes white space and line terminators. *)
Definition is_white_space (c : N) : bool :=
  ((9 <=? c) && (c <=? 13) || (c =? 32) || (c =? 160) || (c =? 5760)
   || (8192 <=? c) && (c <=? 8202) || (c =? 8232) || (c =? 8233) || (c =? 8239)
   || (c =? 8287) || (c =? 12288) || (c =? 65279))%N.

Definition trim (s : text) : text := Text.strip is_white_space s.

Section Controller.
Context `{Runtime}.

(** The [if (line.length > 0 && pendingResolve) { try ... catch ... }] of the
    data handler. *)
Definition deliver (line : text) (s : GodotServer) : GodotServer :=
  match pendingResolve (gameConnection s) with
  | Some r =>
      if Z.of_nat (length line) >? 0 then
        match JSON_parse line with
        | Some parsed => resolver r parsed (set_pendingResolve None s)
        | None => logDebug (FailedToParse line) s
        end
      else s
  | None => s
  end.

(** The [while (responseBuffer.includes('\n'))] loop of the data handler.
    Each turn removes at least the line feed it found, so [fuel] = the
    length of the buffer is never exhausted. *)
Fixpoint process_lines (fuel : nat) (s : GodotServer) : GodotServer :=
  if Text.index_of LF (responseBuffer (gameConnection s)) >=? 0 then
    match fuel with
    | O => s
    | S fuel =>
        let buffer := responseBuffer (gameConnection s) in
        let newlinePos := Text.index_of LF buffer in
        let line := trim (Text.sub buffer 0 newlinePos) in
        let s := set_responseBuffer (Text.from_pos buffer (newlinePos + 1)) s in
        process_lines fuel (deliver line s)
    end
  else s.

(** [socket.on('data', ...)] *)
Definition on_data (data : list byte) (s : GodotServer) : GodotServer :=
  let s := set_responseBuffer (responseBuffer (gameConnection s) ++ Utf8.decode data) s in
  process_lines (length (responseBuffer (gameConnection s))) s.

(** [socket.on('close', ...)] *)
Definition on_close (s : GodotServer) : GodotServer :=
  let s := logDebug ConnectionClosed s in
  let s := set_connected false s in
  let s := set_socket None s in
  match pendingResolve (gameConnection s) with
  | Some r => set_pendingResolve None (resolver r (error_object "Connection closed") s)
  | None => s
  end.

(** The callback of [createConnection]: the connection is established. *)
Definition on_connect (sock : socket_id) (attempt : Z) (s : GodotServer) : GodotServer :=
  let s := set_socket (Some sock) s in
  let s := set_connected true s in
  let s := set_responseBuffer [] s in
  logDebug (ConnectedOnAttempt attempt) s.

(** [disconnectFromGame()] *)
Definition disconnectFromGame (s : GodotServer) : GodotServer :=
  let s := match socket (gameConnection s) with
           | Some _ => set_socket None s   (* socket.destroy() *)
           | None => s
           end in
  let s := set_connected false s in
  let s := set_responseBuffer [] s in
  match pendingResolve (gameConnection s) with
  | Some r => set_pendingResolve None (resolver r (error_object "Disconnected") s)
  | None => s
  end.

(** [sendGameCommand(command, params, timeoutMs)]: throws, or returns the
    promise of a new call. *)
Definition sendGameCommand (command : text) (params : any) (timeoutMs : Z)
  (s : GodotServer) : (error + call_id) * GodotServer :=
  match connected (gameConnection s), socket (gameConnection s) with
  | true, Some sock =>
      let payload :=
        JSON_stringify (Obj [(lit "command", Str command); (lit "params", params)]) ++ [LF] in
      let c := calls s in
      let s := {| gameConnection := gameConnection s;
                  timers := <[c := (command, timeoutMs)]> (timers s); (* setTimeout *)
                  settled := settled s; calls := S c; written := written s;
                  diagnostics := diagnostics s |} in
      let s := set_pendingResolve (Some c) s in
      let s := {| gameConnection := gameConnection s; timers := timers s;
                  settled := settled s; calls := calls s;
                  written := written s ++ [(sock, payload)];
                  diagnostics := diagnostics s |} in
      (inr c, s)
  | _, _ => (inl NotConnected, s)
  end.

(** The timer of call [c] fires, if it is still running:
    [pendingResolve = null; reject(new Error(...timed out...))]. *)
Definition timer_fired (c : call_id) (s : GodotServer) : GodotServer :=
  match timers s !! c with
  | Some (command, timeoutMs) =>
      let s := set_timers (delete c (timers s)) s in
      let s := set_pendingResolve None s in
      settle c (Rejected (TimedOut command timeoutMs)) s
  | None => s
  end.

(** What can happen to the server once connected. *)
Inductive event :=
| Send (command : text) (params : any) (timeoutMs : Z)
| Data (bytes : list byte)
| Close
| TimerFired (c : call_id)
| Connect (sock : socket_id)
| Disconnect.

Definition step (e : event) (s : GodotServer) : GodotServer :=
  match e with
  | Send command params timeoutMs => (sendGameCommand command params timeoutMs s).2
  | Data bytes => on_data bytes s
  | Close => on_close s
  | TimerFired c => timer_fired c s
  | Connect sock => on_connect sock 1 s
  | Disconnect => disconnectFromGame s
  end.

Definition run (es : list event) (s : GodotServer) : GodotServer :=
  fold_left (fun s e => step e s) es s.

(** The calls of [resolve] / [reject] made so far for call [c]. *)
Definition settlements (c : call_id) (s : GodotServer) : list settlement :=
  map snd (filter (fun p => p.1 = c) (settled s)).

(** *** [connectToGame] *)

(** What one turn of the retry loop finds: whether [activeProcess] is still
    set when the turn starts, and whether [createConnection] connects (and
    to which socket) or fails. *)
Record attempt_env := {
  process_running : bool;
  connects : option socket_id;
}.

(** What [connectToGame] does besides changing the server. *)
Inductive action :=
| Sleep (ms : Z)
| CreateConnection (host : text) (port : Z).

Definition INTERACTION_PORT : Z := 9090.
Definition settleDelay : Z := 2000.
Definition maxAttempts : Z := 10.
Definition retryDelay : Z := 500.

(** The [for (let attempt = 1; attempt <= maxAttempts; attempt++)] loop, with
    [remaining] turns to go, and the [console.error] after it. *)
Fixpoint connect_attempts (remaining : nat) (attempt : Z) (env : Z -> attempt_env)
  (s : GodotServer) : GodotServer * list action :=
  match remaining with
  | O => (logDebug (FailedToConnect maxAttempts) s, [])
  | S remaining =>
      if negb (process_running (env attempt)) then (logDebug ProcessNotRunning s, [])
      else
        match connects (env attempt) with
        | Some sock =>
            (on_connect sock attempt s, [CreateConnection "127.0.0.1" INTERACTION_PORT])
        | None =>
            let s := logDebug (AttemptFailed attempt maxAttempts retryDelay) s in
            let (s', acts) := connect_attempts remaining (attempt + 1) env s in
            (s', CreateConnection "127.0.0.1" INTERACTION_PORT :: Sleep retryDelay :: acts)
        end
  end.

(** [connectToGame(projectPath)]; the promise it returns is always
    fulfilled (a failed attempt is caught inside the loop). *)
Definition connectToGame (path : text) (env : Z -> attempt_env) (s : GodotServer)
  : GodotServer * list action :=
  let s := set_projectPath (Some path) s in
  (* Initial delay to let the game start up *)
  let (s', acts) := connect_attempts (Z.to_nat maxAttempts) 1 env s in
  (s', Sleep settleDelay :: acts).

Definition is_attempt (a : action) : bool :=
  match a with CreateConnection _ _ => true | Sleep _ => false end.


Definition attempts_made (acts : list action) : nat := length (filter is_attempt acts).

(** The data handler on a chunk already decoded to text. *)
Definition on_text (t : text) (s : GodotServer) : GodotServer :=
  let s := set_responseBuffer (responseBuffer (gameConnection s) ++ t) s in
  process_lines (length (responseBuffer (gameConnection s))) s.

(** The lines of a stream handed to [deliver], in order. *)
Definition deliver_all (ls : list text) (s : GodotServer) : GodotServer :=
  fold_left (fun s l => deliver (trim l) s) ls s.

(** The first [n] turns find the process running and fail to connect. *)
Definition turns_fail (env : Z -> attempt_env) (n : nat) : Prop :=
  forall i : nat, (i < n)%nat ->
    process_running (env (1 + Z.of_nat i)) = true /\ connects (env (1 + Z.of_nat i)) = None.

(** What [k] failed turns leave behind, from turn [attempt] on: their
    diagnostics, and an attempt and a delay each. *)
Fixpoint failed_attempts (k : nat) (attempt : Z) : list diagnostic :=
  match k with
  | O => []
  | S k => AttemptFailed attempt maxAttempts retryDelay :: failed_attempts k (attempt + 1)
  end.

Fixpoint failed_turns (k : nat) : list action :=
  match k with
  | O => []
  | S k => CreateConnection "127.0.0.1" INTERACTION_PORT :: Sleep retryDelay :: failed_turns k
  end.

Definition logDebugs (ds : list diagnostic) (s : GodotServer) : GodotServer :=
  fold_left (fun s d => logDebug d s) ds s.

(** Every call the server knows of has been made: the timers, the pending
    resolver and the settlements name calls below [calls]. *)
Definition known_calls (s : GodotServer) : Prop :=
  (forall c, timers s !! c <> None -> (c < calls s)%nat)
  /\ (forall c, pendingResolve (gameConnection s) = Some c -> (c < calls s)%nat)
  /\ Forall (fun p => (p.1 < calls s)%nat) (settled s).

(** A call that nothing refers to any more: its timer is gone and its
    resolver is not the pending one. *)
Definition retired (c : call_id) (s : GodotServer) : Prop :=
  timers s !! c = None
  /\ pendingResolve (gameConnection s) <> Some c
  /\ (c < calls s)%nat.

End Controller.
End Controller.

(** ** Instances to run the models on

    The theorems below hold for every engine and every JavaScript runtime.
    To evaluate the models on concrete inputs they are instantiated with a
    reader for a fragment of JSON ([null], booleans, integers without sign,
    strings without escapes, arrays and objects) on which both runtimes'
    parsers agree, and with the numbers of a double-precision build of the
    engine. *)

Module Fragment.

Inductive json :=
| JNull
| JBool (b : bool)
| JNum (n : Z)
| JStr (s : text)
| JArr (items : list json)
| JObj (members : list (text * json)).

Definition is_space (c : N) : bool := ((c =? 32) || (c =? 9) || (c =? 10) || (c =? 13))%N.

Definition is_digit (c : N) : bool := ((48 <=? c) && (c <=? 57))%N.

Definition skip_ws (s : text) : text := Text.strip_left is_space s.

(** The characters of a string up to its closing quote. *)
Fixpoint read_string (s : text) : option (text * text) :=
  match s with
  | [] => None
  | c :: r =>
      if (c =? 34)%N then Some ([], r)
      else if (c =? 92)%N || (c <? 32)%N then None
      else '(str, r') ← read_string r; Some (c :: str, r')
  end.

Fixpoint read_digits (acc : Z) (s : text) : Z * text :=
  match s with
  | c :: r => if is_digit c then read_digits (10 * acc + (Z.of_N c - 48)) r else (acc, s)
  | [] => (acc, [])
  end.

Fixpoint read_value (fuel : nat) (s : text) : option (json * text) :=
  match fuel with
  | O => None
  | S fuel =>
      match skip_ws s with
      | 110%N :: 117%N :: 108%N :: 108%N :: r => Some (JNull, r)
      | 116%N :: 114%N :: 117%N :: 101%N :: r => Some (JBool true, r)
      | 102%N :: 97%N :: 108%N :: 115%N :: 101%N :: r => Some (JBool false, r)
      | 34%N :: r => '(str, r') ← read_string r; Some (JStr str, r')
      | 91%N :: r =>
          match skip_ws r with
          | 93%N :: r' => Some (JArr [], r')
          | _ => '(items, r') ← read_items fuel r; Some (JArr items, r')
          end
      | 123%N :: r =>
          match skip_ws r with
          | 125%N :: r' => Some (JObj [], r')
          | _ => '(members, r') ← read_members fuel r; Some (JObj members, r')
          end
      | c :: r =>
          if (c =? 48)%N then Some (JNum 0, r)
          else if is_digit c then let (n, r') := read_digits 0 (c :: r) in Some (JNum n, r')
          else None
      | [] => None
      end
  end
with read_items (fuel : nat) (s : text) : option (list json * text) :=
  match fuel with
  | O => None
  | S fuel =>
      '(v, r) ← read_value fuel s;
      match skip_ws r with
      | 44%N :: r' => '(vs, r'') ← read_items fuel r'; Some (v :: vs, r'')
      | 93%N :: r' => Some ([v], r')
      | _ => None
      end
  end
with read_members (fuel : nat) (s : text) : option (list (text * json) * text) :=
  match fuel with
  | O => None
  | S fuel =>
      match skip_ws s with
      | 34%N :: r =>
          '(key, r) ← read_string r;
          match skip_ws r with
          | 58%N :: r =>
              '(v, r) ← read_value fuel r;
              match skip_ws r with
              | 44%N :: r' => '(ms, r'') ← read_members fuel r'; Some ((key, v) :: ms, r'')
              | 125%N :: r' => Some ([(key, v)], r')
              | _ => None
              end
          | _ => None
          end
      | _ => None
      end
  end.

Definition read (s : text) : option json :=
  match read_value (S (length s)) s with
  | Some (v, r) => match skip_ws r with [] => Some v | _ => None end
  | None => None
  end.

Definition float_of_Z (z : Z) : PrimFloat.float :=
  if z <? 0 then PrimFloat.opp (PrimFloat.of_uint63 (Uint63.of_Z (- z)))
  else PrimFloat.of_uint63 (Uint63.of_Z z).

(** Truncation towards zero of a finite double (0 otherwise). *)
Definition Z_of_float (f : PrimFloat.float) : Z :=
  match FloatOps.Prim2SF f with
  | SpecFloat.S754_finite sign m e =>
      let magnitude := if 0 <=? e then Z.pos m * 2 ^ e else Z.pos m / 2 ^ (- e) in
      if sign then - magnitude else magnitude
  | _ => 0
  end.

(** [String.to_int()]: the digits of the text, negated by a leading [-]. *)
Definition to_int (s : text) : Z :=
  let step (st : Z * Z) (c : N) : Z * Z :=
    let (sign, integer) := st in
    if is_digit c then (sign, integer * 10 + (Z.of_N c - 48))
    else if (integer =? 0) && (c =? 45)%N then (- sign, integer)
    else (sign, integer) in
  let (sign, integer) := fold_left step s (1, 0) in sign * integer.

(** The numbers of a double-precision build: components are doubles too.
    [text_to_float] reads integer literals only. *)
#[export] Instance double_precision : Godot.Num := {|
  Godot.float := PrimFloat.float;
  Godot.real_t := PrimFloat.float;
  Godot.widen := fun r => r;
  Godot.narrow := fun f => f;
  Godot.int_to_float := float_of_Z;
  Godot.float_to_int := Z_of_float;
  Godot.text_to_float := fun s => float_of_Z (to_int s);
  Godot.text_to_int := to_int;
|}.

#[export] Instance double_precision_laws : Godot.NumLaws := {|
  Godot.narrow_widen := fun r => eq_refl;
|}.

Fixpoint to_variant (j : json) : Godot.variant :=
  match j with
  | JNull => Godot.VNil
  | JBool b => Godot.VBool b
  | JNum n => Godot.VFloat (float_of_Z n)
  | JStr s => Godot.VString s
  | JArr items => Godot.VArray (map to_variant items)
  | JObj members =>
      Godot.VDictionary (map (fun m => (Godot.VString m.1, to_variant m.2)) members)
  end.

Fixpoint to_any (j : json) : Controller.any :=
  match j with
  | JNull => Controller.Null
  | JBool b => Controller.Bool b
  | JNum n => Controller.Number (float_of_Z n)
  | JStr s => Controller.Str s
  | JArr items => Controller.Arr (map to_any items)
  | JObj members => Controller.Obj (map (fun m => (m.1, to_any m.2)) members)
  end.

(** Compact JSON text of a value of the fragment. *)
Definition digits (z : Z) : text :=
  lit (DecimalString.NilZero.string_of_int (Z.to_int z)).

Definition quoted (s : text) : text := 34%N :: s ++ [34%N].

Fixpoint join (sep : text) (l : list text) : text :=
  match l with
  | [] => []
  | [x] => x
  | x :: r => x ++ sep ++ join sep r
  end.

Fixpoint print (j : json) : text :=
  match j with
  | JNull => lit "null"
  | JBool true => lit "true"
  | JBool false => lit "false"
  | JNum n => digits n
  | JStr s => quoted s
  | JArr items => lit "[" ++ join (lit ",") (map print items) ++ lit "]"
  | JObj members =>
      lit "{" ++ join (lit ",") (map (fun m => quoted m.1 ++ lit ":" ++ print m.2) members)
      ++ lit "}"
  end.

Fixpoint of_any (v : Controller.any) : json :=
  match v with
  | Controller.Null => JNull
  | Controller.Bool b => JBool b
  | Controller.Number n => JNum (Z_of_float n)
  | Controller.Str s => JStr s
  | Controller.Arr items => JArr (map of_any items)
  | Controller.Obj fields => JObj (map (fun m => (m.1, of_any m.2)) fields)
  end.

(** Values outside JSON print as [null]. *)
Fixpoint of_variant (v : Godot.variant) : json :=
  match v with
  | Godot.VBool b => JBool b
  | Godot.VInt i => JNum i
  | Godot.VFloat f => JNum (Z_of_float f)
  | Godot.VString s => JStr s
  | Godot.VArray l => JArr (map of_variant l)
  | Godot.VDictionary d =>
      JObj (map (fun kv => (match kv.1 with Godot.VString k => k | _ => [] end,
                            of_variant kv.2)) d)
  | _ => JNull
  end.

(** UTF-8 bytes of a text. *)
Definition byte_of (n : N) : byte := default x00 (Byte.of_N n).

Definition encode_char (c : N) : list byte :=
  (if c <? 128 then [byte_of c]
   else if c <? 2048 then [byte_of (192 + c / 64); byte_of (128 + c mod 64)]
   else if c <? 65536 then
     [byte_of (224 + c / 4096); byte_of (128 + (c / 64) mod 64); byte_of (128 + c mod 64)]
   else
     [byte_of (240 + c / 262144); byte_of (128 + (c / 4096) mod 64);
      byte_of (128 + (c / 64) mod 64); byte_of (128 + c mod 64)])%N.

Definition encode (s : text) : list byte := concat (map encode_char s).

#[export] Instance runtime : Controller.Runtime := {|
  Controller.JSON_parse := fun s => to_any <$> read s;
  Controller.JSON_stringify := fun v => print (of_any v);
|}.

#[export] Instance godot_str : Godot.Str := fun _ => [].

(** The game is not modelled here: its state is a frame counter, no image
    can be captured, and the commands left to the engine answer
    [{"success": true}] at once. *)
#[export] Instance engine : Agent.Engine := {|
  Agent.World := nat;
  Agent.JSON_parse := fun s =>
    match read s with
    | Some j => Agent.ParseOk (to_variant j)
    | None => Agent.ParseError (lit "Parse error")
    end;
  Agent.JSON_stringify := fun v => print (of_variant v);
  Agent.get_string_from_utf8 := Utf8.decode;
  Agent.to_utf8_buffer := encode;
  Agent.parse_input_event := fun _ w => w;
  Agent.get_image := fun _ => None;
  Agent.engine_command := fun _ _ w =>
    Agent.Respond w (Godot.dict_lit [("success", Godot.VBool true)]);
|}.

End Fragment.

(** ** Inputs to run the models on *)

Module Inputs.
Import Godot Fragment.

(** An agent with a connected client and nothing in progress. *)
Definition idle_agent : Agent.Server :=
  {| Agent._server := true; Agent._client := Some {| Agent.sent := [] |};
     Agent._buffer := []; Agent._busy := false; Agent.world := 0%nat;
     Agent.suspended := [] |}.

(** An agent whose [wait] handler is suspended with one frame to go. *)
Definition busy_agent : Agent.Server :=
  {| Agent._server := true; Agent._client := Some {| Agent.sent := [] |};
     Agent._buffer := []; Agent._busy := true; Agent.world := 0%nat;
     Agent.suspended :=
       [Agent.await_frames 0 (dict_lit [("success", VBool true); ("waited_frames", VInt 1)])] |}.

(** A frame in which the connected client delivers [bytes]. *)
Definition delivers (bytes : list byte) : Agent.frame_input :=
  {| Agent.new_client := None; Agent.status := Agent.STATUS_CONNECTED;
     Agent.available := bytes; Agent.get_data_ok := true |}.

(** [wait] for 600 frames, with a timeout of one second. *)
Definition wait600 : Controller.event :=
  Controller.Send (lit "wait")
    (Controller.Obj [(lit "frames", Controller.Number (float_of_Z 600))]) 1000.

Definition get_performance : Controller.event :=
  Controller.Send (lit "get_performance") (Controller.Obj []) 10000.

(** A controller that is connected and waits for the answer to call 0. *)
Definition awaiting : Controller.GodotServer :=
  Controller.run [Controller.Connect 7%nat; wait600] Controller.initial.

(** The message [{"name":"é"}] and its line on the wire. *)
Definition named : text := json_lit "{'name':'" ++ [233%N] ++ json_lit "'}".

Definition named_line : list byte := encode (named ++ [LF]).


End Inputs.

(** ** The controller's checks and parameter tables (src/index.ts) *)

From Stdlib Require DecimalNat.

Module Tools.
Import Controller.

(** *** JavaScript values and strings *)

(** [!!v], the truth value a condition gives [v]. *)
Definition truthy (v : any) : bool :=
  match v with
  | Null => false
  | Bool b => b
  | Number n => negb (PrimFloat.eqb n PrimFloat.zero) && PrimFloat.eqb n n
  | Str s => match s with [] => false | _ :: _ => true end
  | Arr _ | Obj _ => true
  end.

Fixpoint starts_with (prefix s : text) : bool :=
  match prefix, s with
  | [], _ => true
  | p :: prefix', c :: s' => N.eqb p c && starts_with prefix' s'
  | _ :: _, [] => false
  end.

(** [s.includes(needle)] *)
Fixpoint includes (needle s : text) : bool :=
  starts_with needle s
  || match s with
     | [] => false
     | _ :: s' => includes needle s'
     end.

(** An object is the list of its own properties in the order [for ... in]
    and [JSON.stringify] visit them. [o[k] = v] overwrites the property
    where it stands or adds it at the end. (Array indices are visited first
    whenever they were created; the loops below create the keys in the
    order in which they visit the keys of another object, and rename no
    array index, so creation order is visiting order.) *)
Fixpoint obj_get {A} (o : list (text * A)) (k : text) : option A :=
  match o with
  | [] => None
  | (k', v) :: o' => if Text.eqb k' k then Some v else obj_get o' k
  end.

Fixpoint obj_set {A} (o : list (text * A)) (k : text) (v : A) : list (text * A) :=
  match o with
  | [] => [(k, v)]
  | (k', v') :: o' => if Text.eqb k' k then (k', v) :: o' else (k', v') :: obj_set o' k v
  end.

(** [result[k] = v] on an object made by [{}]: the key [__proto__] is the
    accessor inherited from [Object.prototype], and assigning to it creates
    no property. *)
Definition obj_assign (result : list (text * any)) (k : text) (v : any)
  : list (text * any) :=
  if Text.eqb k "__proto__" then result else obj_set result k v.

(** The index keys of an array or a string: ["0"], ["1"], ... *)
Definition index_key (i : nat) : text := Fragment.digits (Z.of_nat i).

Definition indexed {A} (l : list A) : list (text * A) :=
  imap (fun i x => (index_key i, x)) l.

(** The own properties of a value that is an object. *)
Definition properties (v : any) : list (text * any) :=
  match v with
  | Obj fields => fields
  | _ => []
  end.

(** *** [validatePath] *)

(** [validatePath(path)]. The parameter is declared a string, and holds
    whatever the tool's arguments hold; [None] is the [TypeError] of calling
    [includes] on a value that has no such method. On an array [includes]
    looks for an element. *)
Definition validatePath (path : any) : option bool :=
  if negb (truthy path) then Some false
  else
    match path with
    | Str s => Some (negb (includes ".." s))
    | Arr items =>
        Some (negb (existsb (fun v => match v with
                                      | Str s => Text.eqb s ".."
                                      | _ => false
                                      end) items))
    | _ => None
    end.

(** *** [isGodot44OrLater] *)

(** [\d] *)
Definition is_decimal_digit (c : N) : bool := ((48 <=? c) && (c <=? 57))%N.

(** The longest run of decimal digits at the start of a text, and what
    follows it: what a greedy [\d+] takes when the match succeeds. *)
Fixpoint digit_run (s : text) : text * text :=
  match s with
  | c :: r =>
      if is_decimal_digit c then let (ds, rest) := digit_run r in (c :: ds, rest)
      else ([], s)
  | [] => ([], [])
  end.

(** [parseInt(digits, 10)] on a run of decimal digits: the integer the
    digits denote. (The Number returned is that integer rounded to a
    double; rounding is monotone and leaves 4 and 5 alone, so the
    comparisons with 4 made below come out the same.) *)
Definition parseInt (digits : text) : Z :=
  fold_left (fun acc c => 10 * acc + (Z.of_N c - 48)) digits 0.

(** [isGodot44OrLater(version)], with [version.match(/^(\d+)\.(\d+)/)]: the
    first group takes the longest run of digits (a shorter one would be
    followed by a digit, not by the dot), the second group the longest run
    after the dot, and each needs one digit at least. *)
Definition isGodot44OrLater (version : text) : bool :=
  match digit_run version with
  | ((_ :: _) as major_digits, 46%N :: rest) =>
      match digit_run rest with
      | ((_ :: _) as minor_digits, _) =>
          let major := parseInt major_digits in
          let minor := parseInt minor_digits in
          (major >? 4) || ((major =? 4) && (minor >=? 4))
      | ([], _) => false
      end
  | _ => false
  end.

(** *** The parameter name tables *)

(** [parameterMappings] *)
Definition parameterMappings : list (string * string) :=
  [("project_path", "projectPath");
   ("scene_path", "scenePath");
   ("root_node_type", "rootNodeType");
   ("parent_node_path", "parentNodePath");
   ("node_type", "nodeType");
   ("node_name", "nodeName");
   ("texture_path", "texturePath");
   ("node_path", "nodePath");
   ("output_path", "outputPath");
   ("mesh_item_names", "meshItemNames");
   ("new_path", "newPath");
   ("file_path", "filePath");
   ("directory", "directory");
   ("recursive", "recursive");
   ("scene", "scene");
   ("type_hint", "typeHint");
   ("parent_path", "parentPath");
   ("signal_name", "signalName");
   ("target_path", "targetPath");
   ("class_name", "className");
   ("root_path", "rootPath");
   ("new_parent_path", "newParentPath");
   ("keep_global_transform", "keepGlobalTransform");
   ("script_path", "scriptPath");
   ("resource_type", "resourceType");
   ("resource_path", "resourcePath");
   ("final_value", "finalValue");
   ("trans_type", "transType");
   ("ease_type", "easeType")].

Definition entries (table : list (string * string)) : list (text * text) :=
  map (fun kv => (lit kv.1, lit kv.2)) table.

(** [reverseParameterMappings], as the constructor fills it:
    [for (const [snakeCase, camelCase] of Object.entries(this.parameterMappings))
       this.reverseParameterMappings[camelCase] = snakeCase]. *)
Definition reverseParameterMappings : list (text * text) :=
  fold_left (fun reverse kv => obj_set reverse kv.2 kv.1) (entries parameterMappings) [].

(** Both tables are plain objects, so [table[key]] also finds what
    [Object.prototype] has under [key] ([constructor], [toString],
    [__proto__], ...). Each such member is an object or a function, hence
    truthy; used as a property key it is converted to a string, which is
    what [inherited] gives. *)
Class ObjectPrototype := inherited : text -> option text.

Section Tables.
Context `{ObjectPrototype}.

(** [table[key]], when the value is truthy (the tables hold non-empty
    strings). *)
Definition member (table : list (text * text)) (key : text) : option text :=
  match obj_get table key with
  | Some v => Some v
  | None => inherited key
  end.

(** The key [normalizeParameters] stores a property under:
    [key.includes('_') && this.parameterMappings[key]] selects the mapped
    name. *)
Definition normalizedKey (key : text) : text :=
  if includes "_" key then
    match member (entries parameterMappings) key with
    | Some camel => camel
    | None => key
    end
  else key.

Definition is_upper (c : N) : bool := ((65 <=? c) && (c <=? 90))%N.

(** [key.replace(/[A-Z]/g, letter => `_${letter.toLowerCase()}`)] *)
Definition camel_to_snake (key : text) : text :=
  flat_map (fun c => if is_upper c then [95%N; (c + 32)%N] else [c]) key.

(** The key [convertCamelToSnakeCase] stores a property under:
    [this.reverseParameterMappings[key] || key.replace(...)]. *)
Definition snakeKey (key : text) : text :=
  match member reverseParameterMappings key with
  | Some snake => snake
  | None => camel_to_snake key
  end.

(** [normalizeParameters(params)] *)
Fixpoint normalizeParameters (params : any) : any :=
  let nested (v : any) : any :=
    (* typeof v === 'object' && v !== null && !Array.isArray(v) *)
    match v with
    | Obj _ => normalizeParameters v
    | _ => v
    end in
  match params with
  | Obj fields =>
      Obj (fold_left (fun result kv => obj_assign result (normalizedKey kv.1) kv.2)
             (map (fun kv => (kv.1, nested kv.2)) fields) [])
  | Arr items =>
      (* an array is an object too: its indices are the keys *)
      Obj (fold_left (fun result kv => obj_assign result (normalizedKey kv.1) kv.2)
             (indexed (map nested items)) [])
  | _ => params   (* !params || typeof params !== 'object' *)
  end.

(** [convertCamelToSnakeCase(params)]. There is no guard here: [for ... in]
    visits the indices of an array and of a string, and nothing of another
    primitive. *)
Fixpoint convertCamelToSnakeCase (params : any) : any :=
  let nested (v : any) : any :=
    match v with
    | Obj _ => convertCamelToSnakeCase v
    | _ => v
    end in
  match params with
  | Obj fields =>
      Obj (fold_left (fun result kv => obj_assign result (snakeKey kv.1) kv.2)
             (map (fun kv => (kv.1, nested kv.2)) fields) [])
  | Arr items =>
      Obj (fold_left (fun result kv => obj_assign result (snakeKey kv.1) kv.2)
             (indexed (map nested items)) [])
  | Str s =>
      Obj (fold_left (fun result kv => obj_assign result (snakeKey kv.1) kv.2)
             (indexed (map (fun c => Str [c]) s)) [])
  | _ => Obj []
  end.

(** *** What the theorems speak of *)

(** A key written in snake_case, or in one word: no ASCII capital, nothing
    [Object.prototype] has a member for, and not [__proto__]. *)
Definition snake_cased_key (key : text) : bool :=
  forallb (fun c => negb (is_upper c)) key
  && match inherited key with Some _ => false | None => true end
  && negb (Text.eqb key "__proto__").

Fixpoint distinct (keys : list text) : bool :=
  match keys with
  | [] => true
  | k :: rest => negb (existsb (Text.eqb k) rest) && distinct rest
  end.

(** An object whose keys are distinct and in snake_case, down through the
    objects it holds (arrays are not looked into: neither function looks
    into them). *)
Fixpoint snake_cased (v : any) : bool :=
  match v with
  | Obj fields =>
      distinct (map fst fields)
      && forallb (fun kv => snake_cased_key kv.1 && snake_cased kv.2) fields
  | _ => true
  end.

(** The value of the last property of [fields] whose key [rename] maps to
    [key]. *)
Definition last_renamed (rename : text -> text) (fields : list (text * any)) (key : text)
  : option any :=
  snd <$> find (fun kv => Text.eqb (rename kv.1) key) (rev fields).

(** The components of a path, separated by [/] or [\]. *)
Fixpoint components (path : text) : list text :=
  match path with
  | [] => [[]]
  | c :: rest =>
      if (c =? 47)%N || (c =? 92)%N then [] :: components rest
      else match components rest with
           | first :: others => (c :: first) :: others
           | [] => [[c]]
           end
  end.

(** The decimal digits of a number, as text. *)
Fixpoint uint_text (d : Decimal.uint) : text :=
  match d with
  | Decimal.Nil => []
  | Decimal.D0 d => 48%N :: uint_text d
  | Decimal.D1 d => 49%N :: uint_text d
  | Decimal.D2 d => 50%N :: uint_text d
  | Decimal.D3 d => 51%N :: uint_text d
  | Decimal.D4 d => 52%N :: uint_text d
  | Decimal.D5 d => 53%N :: uint_text d
  | Decimal.D6 d => 54%N :: uint_text d
  | Decimal.D7 d => 55%N :: uint_text d
  | Decimal.D8 d => 56%N :: uint_text d
  | Decimal.D9 d => 57%N :: uint_text d
  end.

Definition decimal (n : nat) : text := uint_text (Nat.to_uint n).

(** A text that does not go on with a digit. *)
Definition no_digit_ahead (s : text) : bool :=
  match s with
  | [] => true
  | c :: _ => negb (is_decimal_digit c)
  end.

End Tables.

(** [Object.prototype] as V8 has it: the member names, and the string each
    member gives as a property key. *)
Definition v8_prototype : ObjectPrototype := fun key =>
  if Text.eqb key "__proto__" then Some (lit "[object Object]")
  else if existsb (Text.eqb key)
            [lit "constructor"; lit "toString"; lit "toLocaleString"; lit "valueOf";
             lit "hasOwnProperty"; lit "isPrototypeOf"; lit "propertyIsEnumerable";
             lit "__defineGetter__"; lit "__defineSetter__"; lit "__lookupGetter__";
             lit "__lookupSetter__"]
       then Some (lit "function " ++ key ++ lit "() { [native code] }")
       else None.

End Tools.

(** ** The agent's handlers for keys, properties and the scene tree
    (mcp_interaction_server.gd)

    A function of the script that fails at run time returns [null] to its
    caller, and the caller goes on; only the function that fails is cut
    short. *)

Module Scene.
Import Godot Agent.

(** *** [_indent_code] *)

Definition TAB : N := 9%N.

(** [code.split("\n")]: the pieces between the line feeds, the empty ones
    too. *)
Fixpoint split (s : text) : list text :=
  match s with
  | [] => [[]]
  | c :: r =>
      if N.eqb c LF then [] :: split r
      else match split r with
           | line :: lines => (c :: line) :: lines
           | [] => [[c]]
           end
  end.

(** [_indent_code(code)] *)
Definition _indent_code (code : text) : text :=
  fold_left (fun indented line => indented ++ [TAB] ++ line ++ [LF]) (split code) [].

(** [lines.join("\n")] *)
Fixpoint join_lines (lines : list text) : text :=
  match lines with
  | [] => []
  | [line] => line
  | line :: rest => line ++ [LF] ++ join_lines rest
  end.

(** *** [_string_to_keycode] *)

(** The engine's case mapping of one character; [to_upper] and [to_lower]
    map a string character by character. *)
Class Casing := {
  char_uppercase : N -> N;
  char_lowercase : N -> N;
}.

Definition ascii_upper (c : N) : N := if (97 <=? c)%N && (c <=? 122)%N then (c - 32)%N else c.

Definition ascii_lower (c : N) : N := if (65 <=? c)%N && (c <=? 90)%N then (c + 32)%N else c.

(** On ASCII the mapping is the ASCII one. *)
Class CasingLaws `{Casing} := {
  uppercase_ascii : forall c : N, (c < 128)%N -> char_uppercase c = ascii_upper c;
  lowercase_ascii : forall c : N, (c < 128)%N -> char_lowercase c = ascii_lower c;
}.

(** The [Key] constants the script names, with the engine's values. *)
Definition KEY_NONE : Z := 0.
Definition KEY_SPECIAL : Z := 4194304.
Definition KEY_ESCAPE : Z := KEY_SPECIAL + 1.
Definition KEY_TAB : Z := KEY_SPECIAL + 2.
Definition KEY_BACKSPACE : Z := KEY_SPECIAL + 4.
Definition KEY_ENTER : Z := KEY_SPECIAL + 5.
Definition KEY_INSERT : Z := KEY_SPECIAL + 7.
Definition KEY_DELETE : Z := KEY_SPECIAL + 8.
Definition KEY_HOME : Z := KEY_SPECIAL + 13.
Definition KEY_END : Z := KEY_SPECIAL + 14.
Definition KEY_LEFT : Z := KEY_SPECIAL + 15.
Definition KEY_UP : Z := KEY_SPECIAL + 16.
Definition KEY_RIGHT : Z := KEY_SPECIAL + 17.
Definition KEY_DOWN : Z := KEY_SPECIAL + 18.
Definition KEY_PAGEUP : Z := KEY_SPECIAL + 19.
Definition KEY_PAGEDOWN : Z := KEY_SPECIAL + 20.
Definition KEY_SHIFT : Z := KEY_SPECIAL + 21.
Definition KEY_CTRL : Z := KEY_SPECIAL + 22.
Definition KEY_ALT : Z := KEY_SPECIAL + 24.
Definition KEY_CAPSLOCK : Z := KEY_SPECIAL + 25.
Definition KEY_F1 : Z := KEY_SPECIAL + 28.
Definition KEY_SPACE : Z := 32.
Definition KEY_0 : Z := 48.
Definition KEY_A : Z := 65.

(** [key_map] *)
Definition key_map : list (string * Z) :=
  [ (* Letters *)
    ("A", KEY_A); ("B", KEY_A + 1); ("C", KEY_A + 2); ("D", KEY_A + 3);
    ("E", KEY_A + 4); ("F", KEY_A + 5); ("G", KEY_A + 6); ("H", KEY_A + 7);
    ("I", KEY_A + 8); ("J", KEY_A + 9); ("K", KEY_A + 10); ("L", KEY_A + 11);
    ("M", KEY_A + 12); ("N", KEY_A + 13); ("O", KEY_A + 14); ("P", KEY_A + 15);
    ("Q", KEY_A + 16); ("R", KEY_A + 17); ("S", KEY_A + 18); ("T", KEY_A + 19);
    ("U", KEY_A + 20); ("V", KEY_A + 21); ("W", KEY_A + 22); ("X", KEY_A + 23);
    ("Y", KEY_A + 24); ("Z", KEY_A + 25);
    (* Numbers *)
    ("0", KEY_0); ("1", KEY_0 + 1); ("2", KEY_0 + 2); ("3", KEY_0 + 3);
    ("4", KEY_0 + 4); ("5", KEY_0 + 5); ("6", KEY_0 + 6); ("7", KEY_0 + 7);
    ("8", KEY_0 + 8); ("9", KEY_0 + 9);
    (* Special keys *)
    ("SPACE", KEY_SPACE); ("ENTER", KEY_ENTER); ("RETURN", KEY_ENTER);
    ("ESCAPE", KEY_ESCAPE); ("ESC", KEY_ESCAPE);
    ("TAB", KEY_TAB); ("BACKSPACE", KEY_BACKSPACE);
    ("DELETE", KEY_DELETE); ("INSERT", KEY_INSERT);
    ("HOME", KEY_HOME); ("END", KEY_END);
    ("PAGEUP", KEY_PAGEUP); ("PAGE_UP", KEY_PAGEUP);
    ("PAGEDOWN", KEY_PAGEDOWN); ("PAGE_DOWN", KEY_PAGEDOWN);
    ("UP", KEY_UP); ("DOWN", KEY_DOWN); ("LEFT", KEY_LEFT); ("RIGHT", KEY_RIGHT);
    ("SHIFT", KEY_SHIFT); ("CTRL", KEY_CTRL); ("CONTROL", KEY_CTRL);
    ("ALT", KEY_ALT); ("CAPSLOCK", KEY_CAPSLOCK); ("CAPS_LOCK", KEY_CAPSLOCK);
    (* Function keys *)
    ("F1", KEY_F1); ("F2", KEY_F1 + 1); ("F3", KEY_F1 + 2); ("F4", KEY_F1 + 3);
    ("F5", KEY_F1 + 4); ("F6", KEY_F1 + 5); ("F7", KEY_F1 + 6); ("F8", KEY_F1 + 7);
    ("F9", KEY_F1 + 8); ("F10", KEY_F1 + 9); ("F11", KEY_F1 + 10); ("F12", KEY_F1 + 11) ].

(** [key_map.has(upper)] and [key_map[upper]] *)
Fixpoint key_map_find (map : list (string * Z)) (upper : text) : option Z :=
  match map with
  | [] => None
  | (name, code) :: rest => if Text.eqb (lit name) upper then Some code else key_map_find rest upper
  end.

(** The lookup, given the key as written and in capitals. *)
Definition keycode_of (upper key_str : text) : Z :=
  match key_map_find key_map upper with
  | Some code => code
  | None =>
      (* Try single character keycode *)
      match key_str with
      | [c] => Z.of_N c       (* key_str.unicode_at(0) *)
      | _ => KEY_NONE
      end
  end.

Section Keys.
Context `{Casing}.

Definition to_upper (s : text) : text := map char_uppercase s.

Definition to_lower (s : text) : text := map char_lowercase s.

(** [_string_to_keycode(key_str)] *)
Definition _string_to_keycode (key_str : text) : Z :=
  keycode_of (to_upper key_str) key_str.

End Keys.

(** *** The scene tree *)

(** What the script reads of a [Control]: the four text-bearing classes
    give their text ([text], or [get_parsed_text()] for a
    [RichTextLabel]). *)
Module Control.
Record t `{Num} := mk {
  visible : bool;
  get_global_rect : Rect2.t;
  global_position : Vector2.t;
  size : Vector2.t;
  shown_text : text;
}.
Arguments mk {_}.
End Control.

(** What the script reads of a node and, through [get_children], of the
    nodes below it. [is_class c] is what [node.is_class(c)] and [node is c]
    give for an engine class [c]. *)
Module Node.
Inductive t `{Num} := mk {
  name : text;
  get_class : text;
  get_path : text;            (* str(node.get_path()) *)
  is_class : text -> bool;
  as_control : Control.t;     (* node as Control, read when node is Control *)
  get_children : list t;
}.
Arguments mk {_}.
End Node.

(** Comparisons of floats with zero. *)
Class FloatTests `{Num} := {
  is_zero : float -> bool;        (* f == 0.0 *)
  is_positive : float -> bool;    (* f > 0 *)
}.

(** The running scene. *)
Class SceneTree `{Num} `{!Engine} := {
  node_id : Type;
  (* get_tree().root *)
  root : World -> node_id;
  (* get_tree().root.get_node_or_null(path) *)
  get_node_or_null : text -> World -> option node_id;
  (* the node and what is below it, as a walk from it finds them *)
  node : node_id -> World -> Node.t;
  (* node.get_property_list() *)
  get_property_list : node_id -> World -> list Dictionary;
  (* node.get(property) *)
  node_get : node_id -> text -> World -> variant;
  (* node.set(property, value) *)
  node_set : node_id -> text -> variant -> World -> World;
}.

Section Handlers.
Context `{Num} `{!Str} `{!Engine} `{!SceneTree} `{!Casing} `{!FloatTests}.

Definition is_empty (s : text) : bool :=
  match s with [] => true | _ :: _ => false end.

(** [_build_tree_node(node)]; [node.name] is a [StringName]. *)
Fixpoint _build_tree_node (node : Node.t) : variant :=
  let info := [(VString "name", VStringName (Node.name node));
               (VString "type", VString (Node.get_class node))] in
  let children_arr := map _build_tree_node (Node.get_children node) in
  if Z.of_nat (length children_arr) >? 0
  then VDictionary (dict_set info "children" (VArray children_arr))
  else VDictionary info.

(** [_cmd_get_scene_tree()] *)
Definition _cmd_get_scene_tree (w : World) : handler World :=
  let tree := _build_tree_node (node (root w) w) in
  Respond w (dict_lit [("success", VBool true); ("tree", tree)]).

(** The entry the group, class and child listings make for a node. *)
Definition node_entry (node : Node.t) : variant :=
  dict_lit [("name", VStringName (Node.name node));
            ("type", VString (Node.get_class node));
            ("path", VString (Node.get_path node))].

(** [_find_by_class_recursive(node, class_filter, results)]; the array
    [results] is passed by reference and appended to, here it is returned. *)
Fixpoint _find_by_class_recursive (node : Node.t) (class_filter : text)
  (results : list variant) : list variant :=
  let results :=
    if Text.eqb (Node.get_class node) class_filter || Node.is_class node class_filter
    then results ++ [node_entry node]
    else results in
  fold_left (fun results child => _find_by_class_recursive child class_filter results)
    (Node.get_children node) results.

(** [_cmd_find_nodes_by_class(params)] *)
Definition _cmd_find_nodes_by_class (params : Dictionary) (w : World) : handler World :=
  match as_string (dict_get params "class_name" (VString "")) with
  | None => Fault w
  | Some class_filter =>
      if is_empty class_filter then Respond w (error_response "class_name is required")
      else
        match as_string (dict_get params "root_path" (VString "/root")) with
        | None => Fault w
        | Some root_path =>
            match get_node_or_null root_path w with
            | None => Respond w (error_response (lit "Root node not found: " ++ root_path))
            | Some root_node =>
                let found := _find_by_class_recursive (node root_node w) class_filter [] in
                Respond w (dict_lit [("success", VBool true);
                                     ("class_name", VString class_filter);
                                     ("count", VInt (Z.of_nat (length found)));
                                     ("nodes", VArray found)])
            end
        end
  end.

(** The entry [_collect_ui_elements] makes for a control. *)
Definition ui_entry (node : Node.t) : variant :=
  let ctrl := Node.as_control node in
  let info :=
    [(VString "name", VStringName (Node.name node));
     (VString "type", VString (Node.get_class node));
     (VString "path", VString (Node.get_path node));
     (VString "position",
      dict_lit [("x", VFloat (widen (Vector2.x (Control.global_position ctrl))));
                ("y", VFloat (widen (Vector2.y (Control.global_position ctrl))))]);
     (VString "size",
      dict_lit [("width", VFloat (widen (Vector2.x (Control.size ctrl))));
                ("height", VFloat (widen (Vector2.y (Control.size ctrl))))])] in
  (* Get text content for common text-bearing nodes *)
  if Node.is_class node "Label" || Node.is_class node "Button"
     || Node.is_class node "LineEdit" || Node.is_class node "RichTextLabel"
  then VDictionary (dict_set info "text" (VString (Control.shown_text ctrl)))
  else VDictionary info.

(** [node is Control and ctrl.visible and ctrl.get_global_rect().size.x > 0] *)
Definition shown (node : Node.t) : bool :=
  Node.is_class node "Control"
  && Control.visible (Node.as_control node)
  && is_positive (widen (Vector2.x (Rect2.size (Control.get_global_rect (Node.as_control node))))).

(** [_collect_ui_elements(node, elements)] *)
Fixpoint _collect_ui_elements (node : Node.t) (elements : list variant) : list variant :=
  let elements := if shown node then elements ++ [ui_entry node] else elements in
  fold_left (fun elements child => _collect_ui_elements child elements)
    (Node.get_children node) elements.

(** [_cmd_get_ui_elements()] *)
Definition _cmd_get_ui_elements (w : World) : handler World :=
  Respond w (dict_lit [("success", VBool true);
                       ("elements", VArray (_collect_ui_elements (node (root w) w) []))]).

(** *** Properties *)

Definition TYPE_BOOL : Z := 1.
Definition TYPE_INT : Z := 2.
Definition TYPE_FLOAT : Z := 3.
Definition TYPE_VECTOR2 : Z := 5.
Definition TYPE_VECTOR2I : Z := 6.
Definition TYPE_RECT2 : Z := 7.
Definition TYPE_VECTOR3 : Z := 9.
Definition TYPE_VECTOR3I : Z := 10.
Definition TYPE_TRANSFORM2D : Z := 11.
Definition TYPE_QUATERNION : Z := 15.
Definition TYPE_AABB : Z := 16.
Definition TYPE_BASIS : Z := 17.
Definition TYPE_TRANSFORM3D : Z := 18.
Definition TYPE_COLOR : Z := 20.

(** [bool(v)] *)
Definition to_bool (v : variant) : option bool :=
  match v with
  | VBool b => Some b
  | VInt i => Some (negb (i =? 0))
  | VFloat f => Some (negb (is_zero f))
  | _ => None
  end.

(** [var i: int = v]: the engine's property lists hold an [int]. *)
Definition as_int (v : variant) : option Z :=
  match v with VInt i => Some i | _ => None end.

(** [v == property] for a [String] on the right: a [String] or a
    [StringName] compares by its characters, [null] is different, and a
    value of another type cannot be compared. *)
Definition equals_string (v : variant) (s : text) : option bool :=
  match v with
  | VString t | VStringName t => Some (Text.eqb t s)
  | VNil => Some false
  | _ => None
  end.

(** The [match type_id:] of [_json_to_variant_for_property]: what the arm
    for [type_id] returns, when there is one. *)
Definition typed_arm (type_id : Z) (value : variant) : option (option variant) :=
  if type_id =? TYPE_VECTOR2 then Some (_json_to_variant value "Vector2")
  else if type_id =? TYPE_VECTOR2I then Some (_json_to_variant value "Vector2i")
  else if type_id =? TYPE_VECTOR3 then Some (_json_to_variant value "Vector3")
  else if type_id =? TYPE_VECTOR3I then Some (_json_to_variant value "Vector3i")
  else if type_id =? TYPE_COLOR then Some (_json_to_variant value "Color")
  else if type_id =? TYPE_QUATERNION then Some (_json_to_variant value "Quaternion")
  else if type_id =? TYPE_RECT2 then Some (_json_to_variant value "Rect2")
  else if type_id =? TYPE_AABB then Some (_json_to_variant value "AABB")
  else if type_id =? TYPE_BASIS then Some (_json_to_variant value "Basis")
  else if type_id =? TYPE_TRANSFORM3D then Some (_json_to_variant value "Transform3D")
  else if type_id =? TYPE_TRANSFORM2D then Some (_json_to_variant value "Transform2D")
  else if type_id =? TYPE_BOOL then
    Some (match value with
          | VString s => Some (VBool (Text.eqb (to_lower s) "true"))
          | _ => VBool <$> to_bool value
          end)
  else if type_id =? TYPE_INT then Some (VInt <$> to_int value)
  else if type_id =? TYPE_FLOAT then Some (VFloat <$> to_float value)
  else None.

(** The loop of [_json_to_variant_for_property] over the property list.
    [None] is a run-time error, in the function or in a function it
    calls. *)
Fixpoint for_property (props : list Dictionary) (property : text) (value : variant)
  : option variant :=
  match props with
  | [] =>
      (* No type info found, use raw value or auto-detect *)
      _json_to_variant value ""
  | prop :: props =>
      name ← dict_find prop "name";
      match equals_string name property with
      | Some true =>
          type_id ← as_int (dict_get prop "type" (VInt 0));
          match typed_arm type_id value with
          | Some result => result
          | None => _json_to_variant value ""   (* break *)
          end
      | Some false => for_property props property value
      | None => None
      end
  end.

(** [_json_to_variant_for_property(node, property, value)], as its caller
    sees it: [null] when it failed. *)
Definition _json_to_variant_for_property (node : node_id) (property : text)
  (value : variant) (w : World) : variant :=
  default VNil (for_property (get_property_list node w) property value).

(** [_cmd_get_property(params)] *)
Definition _cmd_get_property (params : Dictionary) (w : World) : handler World :=
  match as_string (dict_get params "node_path" (VString "")),
        as_string (dict_get params "property" (VString "")) with
  | Some node_path, Some property =>
      if is_empty node_path || is_empty property then
        Respond w (error_response "node_path and property are required")
      else
        match get_node_or_null node_path w with
        | None => Respond w (error_response (lit "Node not found: " ++ node_path))
        | Some node =>
            let value := node_get node property w in
            Respond w (dict_lit [("success", VBool true);
                                 ("value", _variant_to_json value);
                                 ("property", VString property);
                                 ("node_path", VString node_path)])
        end
  | _, _ => Fault w
  end.

(** [_cmd_set_property(params)] *)
Definition _cmd_set_property (params : Dictionary) (w : World) : handler World :=
  match as_string (dict_get params "node_path" (VString "")),
        as_string (dict_get params "property" (VString "")) with
  | Some node_path, Some property =>
      if is_empty node_path || is_empty property then
        Respond w (error_response "node_path and property are required")
      else
        match get_node_or_null node_path w with
        | None => Respond w (error_response (lit "Node not found: " ++ node_path))
        | Some node =>
            let raw_value := dict_get params "value" VNil in
            match as_string (dict_get params "type_hint" (VString "")) with
            | None => Fault w
            | Some type_hint =>
                let value :=
                  if is_empty type_hint
                  then _json_to_variant_for_property node property raw_value w
                  else default VNil (_json_to_variant raw_value type_hint) in
                let w := node_set node property value w in
                Respond w (dict_lit [("success", VBool true);
                                     ("node_path", VString node_path);
                                     ("property", VString property);
                                     ("value", _variant_to_json (node_get node property w))])
            end
        end
  | _, _ => Fault w
  end.

(** *** What the theorems speak of *)

(** The nodes of a tree, each before its children. *)
Fixpoint preorder (node : Node.t) : list Node.t :=
  node :: flat_map preorder (Node.get_children node).

(** [node.get_class() == class_filter or node.is_class(class_filter)] *)
Definition of_class (class_filter : text) (node : Node.t) : bool :=
  Text.eqb (Node.get_class node) class_filter || Node.is_class node class_filter.

(** The names and classes of a tree, and the reading of them back from
    what [_build_tree_node] made, [depth] levels deep. *)
Inductive outline := Outline (name class : text) (children : list outline).

Fixpoint outline_of (node : Node.t) : outline :=
  Outline (Node.name node) (Node.get_class node) (map outline_of (Node.get_children node)).

Fixpoint height (node : Node.t) : nat :=
  S (list_max (map height (Node.get_children node))).

Fixpoint read_outline (depth : nat) (tree : variant) : option outline :=
  match depth with
  | O => None
  | S depth =>
      dict ← as_dict tree;
      name ← dict_find dict "name";
      class ← dict_find dict "type" ≫= as_string;
      children ← match dict_find dict "children" with
                 | None => Some []
                 | Some (VArray items) => mapM (read_outline depth) items
                 | Some _ => None
                 end;
      match name with
      | VStringName n => Some (Outline n class children)
      | _ => None
      end
  end.

(** The type constant of each structured type the codec has a hint for. *)
Definition type_constant (hint : text) : option Z :=
  if Text.eqb hint "Vector2" then Some TYPE_VECTOR2
  else if Text.eqb hint "Vector2i" then Some TYPE_VECTOR2I
  else if Text.eqb hint "Vector3" then Some TYPE_VECTOR3
  else if Text.eqb hint "Vector3i" then Some TYPE_VECTOR3I
  else if Text.eqb hint "Color" then Some TYPE_COLOR
  else if Text.eqb hint "Quaternion" then Some TYPE_QUATERNION
  else if Text.eqb hint "Rect2" then Some TYPE_RECT2
  else if Text.eqb hint "AABB" then Some TYPE_AABB
  else if Text.eqb hint "Basis" then Some TYPE_BASIS
  else if Text.eqb hint "Transform3D" then Some TYPE_TRANSFORM3D
  else if Text.eqb hint "Transform2D" then Some TYPE_TRANSFORM2D
  else None.

(** The property list says nothing of [property] in these entries: each
    has a name, another one. *)
Definition other_properties (property : text) (props : list Dictionary) : Prop :=
  Forall (fun prop => exists name, dict_find prop "name" = Some (VString name)
                                   /\ Text.eqb name property = false) props.

End Handlers.

End Scene.

(** ** The agent and the controller over time *)

Module Flow.
Import Godot Agent.

Section Agent.
Context `{Num} `{!Engine}.

(** What happens to the agent: the engine calls [_process] with what the
    frame brings, or it emits the signal the suspended handlers wait for
    ([process_frame]). *)
Inductive agent_event :=
| Frame (i : frame_input)
| ProcessFrameSignal.

Definition agent_step (e : agent_event) (s : Server) : Server :=
  match e with
  | Frame i => _process i s
  | ProcessFrameSignal => emit_signal s
  end.

Definition agent_run (es : list agent_event) (s : Server) : Server :=
  fold_left (fun s e => agent_step e s) es s.

(** The response of [_cmd_wait]. *)
Definition waited (frames : Z) : variant :=
  dict_lit [("success", VBool true); ("waited_frames", VInt frames)].

(** What a client has been sent, if there is a client. *)
Definition sent_to_client (s : Server) : list (list byte) :=
  match _client s with
  | Some c => sent c
  | None => []
  end.

End Agent.

(** A call of [sendGameCommand] whose timer runs while its resolver is not
    the pending one: nothing but its timer refers to it. *)
Definition overwritten (c : Controller.call_id) (command : text) (timeoutMs : Z)
  (s : Controller.GodotServer) : Prop :=
  Controller.timers s !! c = Some (command, timeoutMs)
  /\ Controller.pendingResolve (Controller.gameConnection s) <> Some c
  /\ (c < Controller.calls s)%nat.

(** The time [connectToGame] spends asleep, in milliseconds. *)
Definition slept (acts : list Controller.action) : Z :=
  fold_right (fun a total => match a with
                             | Controller.Sleep ms => ms + total
                             | Controller.CreateConnection _ _ => total
                             end) 0 acts.

End Flow.

(** ** The agent in the project, and the game process (src/index.ts) *)

Module Lifecycle.
Import Controller Tools.

(** *** The autoload entry in [project.godot] *)

Definition AUTOLOAD_NAME : text := lit "McpInteractionServer".

(** [`${this.AUTOLOAD_NAME}="*res://mcp_interaction_server.gd"`] *)
Definition autoloadLine : text :=
  AUTOLOAD_NAME ++ Text.json_lit "='*res://mcp_interaction_server.gd'".

(** [s.replace(pattern, replacement)] for a string [pattern]: the first
    occurrence is replaced. (The replacement below holds no [$], which
    alone [replace] reads specially.) *)
Fixpoint replace_first (pattern replacement s : text) : text :=
  if starts_with pattern s then replacement ++ drop (length pattern) s
  else match s with
       | [] => []
       | c :: s' => c :: replace_first pattern replacement s'
       end.

(** A match of [\n?LINE\n?] at the start of [s], where [LINE] is
    [autoloadLine] with its [*] and [.] escaped: what follows the match.
    Each [\n?] takes a line feed when there is one; the first gives it back
    when the line does not follow it. *)
Definition match_autoload (s : text) : option text :=
  let line_at (t : text) :=
    if starts_with autoloadLine t then Some (drop (length autoloadLine) t) else None in
  let after_line :=
    match s with
    | c :: t =>
        if (c =? LF)%N
        then match line_at t with
             | Some rest => Some rest
             | None => line_at s
             end
        else line_at s
    | [] => line_at s
    end in
  match after_line with
  | Some (c :: rest) => Some (if (c =? LF)%N then rest else c :: rest)
  | Some [] => Some []
  | None => None
  end.

(** [content.replace(new RegExp(...), '\n')]: the leftmost match gives way
    to one line feed; without a match the content stays. *)
Fixpoint remove_autoload (content : text) : text :=
  match match_autoload content with
  | Some rest => LF :: rest
  | None => match content with
            | [] => []
            | c :: content' => c :: remove_autoload content'
            end
  end.

(** A text without the line feed it starts with, if it starts with one:
    what the last [\n?] leaves. *)
Definition drop_line_feed (s : text) : text :=
  match s with
  | c :: rest => if (c =? LF)%N then rest else s
  | [] => []
  end.

(** *** The project directory *)

(** What the controller touches in a project directory: [project.godot],
    the copy of the agent's script, and the [.uid] file Godot writes beside
    the copy. A file is its text as [readFileSync(..., 'utf8')] gives it;
    [None] is no file. The directory is taken to be writable: a copy, a
    write or an unlink fails only for a file that is not there. *)
Record project := {
  project_godot : option text;
  server_script : option text;
  server_uid : option text;
}.

Definition set_project_godot (f : option text) (p : project) : project :=
  {| project_godot := f; server_script := server_script p; server_uid := server_uid p |}.

Definition set_server_script (f : option text) (p : project) : project :=
  {| project_godot := project_godot p; server_script := f; server_uid := server_uid p |}.

Definition set_server_uid (f : option text) (p : project) : project :=
  {| project_godot := project_godot p; server_script := server_script p; server_uid := f |}.

(** What is thrown, by the call that throws it. *)
Inductive exception :=
| CopyFileFailed      (* copyFileSync: the script to copy is missing *)
| ReadFileFailed      (* readFileSync: project.godot is missing *)
| PathNotString       (* join(args.projectPath, ...) on a value that is no string *)
| SceneNotString      (* validatePath(args.scene): includes is no function *)
| SpawnFailed.        (* spawn(...) *)

(** The lines written with [logDebug] and [console.error], by the site
    that writes them. *)
Inductive debug :=
| CopiedScript (projectPath : text)
| AutoloadAlreadyPresent
| InjectedAutoload
| RemovedAutoload
| DeletedScript
| DeletedUid
| ErrorResponse (message : text)
| PossibleSolutions (possibleSolutions : list text)
| KillingExisting
| AddingScene (scene : any)
| RunningProject (projectPath : text)
| GodotStdout (line : text)
| GodotStderr (line : text)
| ProcessExited (code : option Z)
| FailedToStart
| StoppingProcess.

(** [injectInteractionServer(projectPath)] on the directory [projectPath]
    names, with the file at [interactionScriptPath] ([script]): the
    directory it leaves, what it logs, and what it throws. *)
Definition injectInteractionServer (projectPath : text) (script : option text) (p : project)
  : project * list debug * option exception :=
  match script with
  | None => (p, [], Some CopyFileFailed)
  | Some source =>
      let p := set_server_script (Some source) p in
      match project_godot p with
      | None => (p, [CopiedScript projectPath], Some ReadFileFailed)
      | Some content =>
          (* Check if already injected *)
          if includes AUTOLOAD_NAME content
          then (p, [CopiedScript projectPath; AutoloadAlreadyPresent], None)
          else
            let content :=
              if includes (lit "[autoload]") content
              then replace_first (lit "[autoload]")
                     (lit "[autoload]" ++ [LF; LF] ++ autoloadLine) content
              else content ++ [LF] ++ lit "[autoload]" ++ [LF; LF] ++ autoloadLine ++ [LF] in
            (set_project_godot (Some content) p,
             [CopiedScript projectPath; InjectedAutoload], None)
      end
  end.

(** [removeInteractionServer(projectPath)] on the directory [projectPath]
    names. *)
Definition removeInteractionServer (p : project) : project * list debug :=
  let (p, removed) :=
    match project_godot p with
    | Some content =>
        (set_project_godot (Some (remove_autoload content)) p, [RemovedAutoload])
    | None => (p, [])
    end in
  let (p, script) :=
    match server_script p with
    | Some _ => (set_server_script None p, [DeletedScript])
    | None => (p, [])
    end in
  let (p, uid) :=
    match server_uid p with
    | Some _ => (set_server_uid None p, [DeletedUid])
    | None => (p, [])
    end in
  (p, removed ++ script ++ uid).

(** *** The server and its game process *)

Definition process_id := nat.

(** What the operating system and the runtime decide: which directory a
    path names, whether [spawn] throws on its arguments, the message of an
    exception, [JSON.stringify(value, null, 2)], the text a template
    literal gives a value, the text of [timeoutMs / 1000], and the message
    of the [TypeError] of reading a property of [null]. *)
Class Host := {
  dir : Type;
  dir_eq_dec :: EqDecision dir;
  directory : text -> dir;
  spawn_throws : option text -> list any -> bool;
  message : exception -> text;
  stringify_indented : any -> text;
  to_string : any -> text;
  seconds : Z -> text;
  null_property_message : text;
}.

(** A tool's result: the texts of its [content], and [isError]. *)
Record tool_result := {
  content : list text;
  isError : bool;
}.

(** How a handler ends: with a result, or throwing out of the handler. *)
Inductive completion :=
| Replied (result : tool_result)
| Threw.

Section Server.
Context `{ObjectPrototype} `{Host}.

(** The fields of the server behind the game's life: the connection (with
    its calls), [activeProcess] (the process with the [output] and [errors]
    arrays made with it, kept under its number in [streams]), [godotPath],
    the file at [interactionScriptPath], the project directories; and what
    has been done: the calls of [spawn] (a process is numbered by its
    call), the processes killed, the lines logged. *)
Record GodotMcp := {
  connection : GodotServer;
  activeProcess : option process_id;
  streams : gmap process_id (list text * list text);
  godotPath : option text;
  interactionScript : option text;
  disk : dir -> project;
  spawned : list (option text * list any);
  killed : list process_id;
  console : list debug;
}.

Definition set_connection (c : GodotServer) (s : GodotMcp) : GodotMcp :=
  {| connection := c; activeProcess := activeProcess s; streams := streams s;
     godotPath := godotPath s; interactionScript := interactionScript s; disk := disk s;
     spawned := spawned s; killed := killed s; console := console s |}.

Definition set_activeProcess (a : option process_id) (s : GodotMcp) : GodotMcp :=
  {| connection := connection s; activeProcess := a; streams := streams s;
     godotPath := godotPath s; interactionScript := interactionScript s; disk := disk s;
     spawned := spawned s; killed := killed s; console := console s |}.

Definition set_streams (m : gmap process_id (list text * list text)) (s : GodotMcp)
  : GodotMcp :=
  {| connection := connection s; activeProcess := activeProcess s; streams := m;
     godotPath := godotPath s; interactionScript := interactionScript s; disk := disk s;
     spawned := spawned s; killed := killed s; console := console s |}.

Definition set_disk (d : dir -> project) (s : GodotMcp) : GodotMcp :=
  {| connection := connection s; activeProcess := activeProcess s; streams := streams s;
     godotPath := godotPath s; interactionScript := interactionScript s; disk := d;
     spawned := spawned s; killed := killed s; console := console s |}.

Definition spawn (file : option text) (args : list any) (s : GodotMcp) : GodotMcp :=
  {| connection := connection s; activeProcess := activeProcess s; streams := streams s;
     godotPath := godotPath s; interactionScript := interactionScript s; disk := disk s;
     spawned := spawned s ++ [(file, args)]; killed := killed s; console := console s |}.

Definition kill (pid : process_id) (s : GodotMcp) : GodotMcp :=
  {| connection := connection s; activeProcess := activeProcess s; streams := streams s;
     godotPath := godotPath s; interactionScript := interactionScript s; disk := disk s;
     spawned := spawned s; killed := killed s ++ [pid]; console := console s |}.

Definition log (lines : list debug) (s : GodotMcp) : GodotMcp :=
  {| connection := connection s; activeProcess := activeProcess s; streams := streams s;
     godotPath := godotPath s; interactionScript := interactionScript s; disk := disk s;
     spawned := spawned s; killed := killed s; console := console s ++ lines |}.

(** The directory [d] becomes [p]. *)
Definition write_dir (d : dir) (p : project) (s : GodotMcp) : GodotMcp :=
  set_disk (fun d' => if decide (d' = d) then p else disk s d') s.

(** [createErrorResponse(message, possibleSolutions)] *)
Definition createErrorResponse (message : text) (possibleSolutions : list text)
  (s : GodotMcp) : tool_result * GodotMcp :=
  let s := log [ErrorResponse message] s in
  match possibleSolutions with
  | [] => ({| content := [message]; isError := true |}, s)
  | _ :: _ =>
      ({| content := [message;
                      lit "Possible solutions:" ++ [LF] ++ lit "- "
                      ++ Fragment.join ([LF] ++ lit "- ") possibleSolutions];
          isError := true |},
       log [PossibleSolutions possibleSolutions] s)
  end.

(** [if (this.gameConnection.projectPath) this.removeInteractionServer(...)]:
    an empty path counts as none. *)
Definition remove_from_current_project (s : GodotMcp) : GodotMcp :=
  match projectPath (gameConnection (connection s)) with
  | Some (c :: path) =>
      let d := directory (c :: path) in
      let (p, lines) := removeInteractionServer (disk s d) in
      log lines (write_dir d p s)
  | _ => s
  end.

(** [v.key] for a key that [Object.prototype] does not have: [None] is
    the [TypeError] of reading a property of [null] or [undefined]. *)
Definition property (v : any) (key : text) : option any :=
  match v with
  | Null => None
  | Obj fields => Some (default Null (obj_get fields key))
  | _ => Some Null
  end.

(** The block [if (this.activeProcess) { ... }] of [handleRunProject];
    [activeProcess] stays as it is. *)
Definition kill_existing (s : GodotMcp) : GodotMcp :=
  match activeProcess s with
  | Some existing =>
      let s := log [KillingExisting] s in
      let s := set_connection (disconnectFromGame (connection s)) s in
      let s := remove_from_current_project s in
      kill existing s
  | None => s
  end.

(** The [try] block of [handleRunProject], for a project path that is a
    string: it ends with the handler's result, or throws. *)
Definition run_project (path : text) (args : any) (s : GodotMcp)
  : (exception + tool_result) * GodotMcp :=
  (* Check if the project directory exists and contains a project.godot file *)
  match project_godot (disk s (directory path)) with
  | None =>
      let (r, s) :=
        createErrorResponse (lit "Not a valid Godot project: " ++ path)
          [lit "Ensure the path points to a directory containing a project.godot file";
           lit "Use list_projects to find valid Godot projects"] s in
      (inr r, s)
  | Some _ =>
      (* Kill any existing process *)
      let s := kill_existing s in
      (* Inject interaction server before launching *)
      let d := directory path in
      let '(p, lines, thrown) := injectInteractionServer path (interactionScript s) (disk s d) in
      let s := log lines (write_dir d p s) in
      match thrown with
      | Some e => (inl e, s)
      | None =>
          let cmdArgs := [Str (lit "-d"); Str (lit "--path"); Str path] in
          let scene := default Null (property args (lit "scene")) in
          let with_scene :=
            if truthy scene
            then match validatePath scene with
                 | Some true => Some (cmdArgs ++ [scene], log [AddingScene scene] s)
                 | Some false => Some (cmdArgs, s)
                 | None => None
                 end
            else Some (cmdArgs, s) in
          match with_scene with
          | None => (inl SceneNotString, s)
          | Some (cmdArgs, s) =>
              let s := log [RunningProject path] s in
              if spawn_throws (godotPath s) cmdArgs then (inl SpawnFailed, s)
              else
                let process := length (spawned s) in
                let s := spawn (godotPath s) cmdArgs s in
                let s := set_streams (<[process := ([], [])]> (streams s)) s in
                let s := set_activeProcess (Some process) s in
                (* connectToGame(args.projectPath), up to its first await *)
                let s := set_connection (set_projectPath (Some path) (connection s)) s in
                (inr {| content :=
                          [lit "Godot project started in debug mode. Use get_debug_output to see output. Game interaction server connecting on port "
                           ++ Fragment.digits INTERACTION_PORT ++ lit "..."];
                        isError := false |}, s)
          end
      end
  end.

(** [handleRunProject(args)]. [connectToGame] is started and not awaited:
    what it does after its first [await] ([Controller.connect_attempts])
    comes later, among the events of the connection. *)
Definition handleRunProject (args : any) (s : GodotMcp) : completion * GodotMcp :=
  let args := normalizeParameters args in
  match property args (lit "projectPath") with
  | None => (Threw, s)
  | Some projectPath =>
      if negb (truthy projectPath) then
        let (r, s) := createErrorResponse (lit "Project path is required")
                        [lit "Provide a valid path to a Godot project directory"] s in
        (Replied r, s)
      else
        match validatePath projectPath with
        | None => (Threw, s)
        | Some false =>
            let (r, s) :=
              createErrorResponse (lit "Invalid project path")
                [Text.json_lit "Provide a valid path without '..' or other potentially unsafe characters"] s in
            (Replied r, s)
        | Some true =>
            let (ended, s) :=
              match projectPath with
              | Str path => run_project path args s
              | _ => (inl PathNotString, s)
              end in
            match ended with
            | inr r => (Replied r, s)
            | inl e =>
                let (r, s) :=
                  createErrorResponse (lit "Failed to run Godot project: " ++ message e)
                    [lit "Ensure Godot is installed correctly";
                     lit "Check if the GODOT_PATH environment variable is set correctly";
                     lit "Verify the project path is accessible"] s in
                (Replied r, s)
            end
        end
  end.

(** [process.on('exit', ...)] of the process [process] *)
Definition on_exit (process : process_id) (code : option Z) (s : GodotMcp) : GodotMcp :=
  let s := log [ProcessExited code] s in
  let s := set_connection (disconnectFromGame (connection s)) s in
  let s :=
    match projectPath (gameConnection (connection s)) with
    | Some (_ :: _) =>
        let s := remove_from_current_project s in
        set_connection (set_projectPath None (connection s)) s
    | _ => s
    end in
  match activeProcess s with
  | Some active => if decide (active = process) then set_activeProcess None s else s
  | None => s
  end.

(** [process.on('error', ...)] of the process [process] *)
Definition on_error (process : process_id) (s : GodotMcp) : GodotMcp :=
  let s := log [FailedToStart] s in
  match activeProcess s with
  | Some active => if decide (active = process) then set_activeProcess None s else s
  | None => s
  end.

(** [s.split('\n')] *)
Definition split_lines (s : text) : list text :=
  let (ls, rest) := Text.lines s in ls ++ [rest].

(** [process.stdout.on('data', ...)] and [process.stderr.on('data', ...)]
    of the process [process] *)
Definition on_stdout (process : process_id) (data : list byte) (s : GodotMcp) : GodotMcp :=
  let lines := split_lines (Utf8.decode data) in
  let s :=
    match streams s !! process with
    | Some (output, errors) => set_streams (<[process := (output ++ lines, errors)]> (streams s)) s
    | None => s
    end in
  log (map GodotStdout (filter (fun line => trim line <> []) lines)) s.

Definition on_stderr (process : process_id) (data : list byte) (s : GodotMcp) : GodotMcp :=
  let lines := split_lines (Utf8.decode data) in
  let s :=
    match streams s !! process with
    | Some (output, errors) => set_streams (<[process := (output, errors ++ lines)]> (streams s)) s
    | None => s
    end in
  log (map GodotStderr (filter (fun line => trim line <> []) lines)) s.

(** [handleStopProject()] *)
Definition handleStopProject (s : GodotMcp) : tool_result * GodotMcp :=
  match activeProcess s with
  | None =>
      createErrorResponse (lit "No active Godot process to stop.")
        [lit "Use run_project to start a Godot project first";
         lit "The process may have already terminated"] s
  | Some process =>
      let s := log [StoppingProcess] s in
      let s := set_connection (disconnectFromGame (connection s)) s in
      let s := kill process s in
      let (output, errors) := default ([], []) (streams s !! process) in
      let s := set_activeProcess None s in
      (* Remove injected interaction server *)
      let s :=
        match projectPath (gameConnection (connection s)) with
        | Some (_ :: _) =>
            let s := remove_from_current_project s in
            set_connection (set_projectPath None (connection s)) s
        | _ => s
        end in
      ({| content :=
            [stringify_indented
               (Obj [(lit "message", Str (lit "Godot project stopped"));
                     (lit "finalOutput", Arr (map Str output));
                     (lit "finalErrors", Arr (map Str errors))])];
          isError := false |}, s)
  end.

(** *** A tool that talks to the game: [game_wait] *)






(** What happens to the server between two tool calls. *)
Inductive event :=
| RunProject (args : any)
| StopProject
| Exited (process : process_id) (code : option Z)
| Errored (process : process_id)
| Stdout (process : process_id) (data : list byte)
| Stderr (process : process_id) (data : list byte)
| Game (e : Controller.event).

Definition step `{Runtime} (e : event) (s : GodotMcp) : GodotMcp :=
  match e with
  | RunProject args => (handleRunProject args s).2
  | StopProject => (handleStopProject s).2
  | Exited process code => on_exit process code s
  | Errored process => on_error process s
  | Stdout process data => on_stdout process data s
  | Stderr process data => on_stderr process data s
  | Game e => set_connection (Controller.step e (connection s)) s
  end.

Definition run `{Runtime} (es : list event) (s : GodotMcp) : GodotMcp :=
  fold_left (fun s e => step e s) es s.

(** The events that are no tool call and no end of a process. *)
Definition passing (e : event) : bool :=
  match e with
  | Stdout _ _ | Stderr _ _ | Game _ => true
  | _ => false
  end.

(** What the output of the game and the events of the connection leave as
    it is. *)
Definition unchanged (s s' : GodotMcp) : Prop :=
  disk s' = disk s /\ activeProcess s' = activeProcess s
  /\ projectPath (gameConnection (connection s')) = projectPath (gameConnection (connection s))
  /\ killed s' = killed s /\ spawned s' = spawned s
  /\ interactionScript s' = interactionScript s.

(** The disk after the removal in the directory [path] names. *)
Definition removed_at (path : text) (s : GodotMcp) : dir -> project :=
  fun d => if decide (d = directory path)
           then (removeInteractionServer (disk s (directory path))).1
           else disk s d.

End Server.

End Lifecycle.

(** ** The search for projects (src/index.ts) *)

Module Projects.
Import Controller Tools.

(** [path.join] and [path.basename]. *)
Class Paths := {
  join : text -> text -> text;
  basename : text -> text;
}.

(** A directory as the search meets it: whether [existsSync] finds a
    [project.godot] in it, and what [readdirSync] gives, [None] when it
    throws; an entry is a name with the directory behind it, or with
    nothing when [isDirectory()] is false. *)
Inductive tree := Dir {
  project_file : bool;
  listing : option (list (text * option tree));
}.

Section Search.
Context `{Paths}.

(** [findGodotProjects(directory, recursive)] in a directory that holds
    [t]: the projects found, each with its path and its name, and the
    directories whose search ended with an error (each is logged). *)
Fixpoint findGodotProjects (directory : text) (recursive : bool) (t : tree)
  : list (text * text) * list text :=
  match t with
  | Dir project_file listing =>
      (* Check if the directory itself is a Godot project *)
      let projects :=
        if project_file then [(directory, basename directory)] else [] in
      match listing with
      | None => (projects, [directory])
      | Some entries =>
          if negb recursive then
            (* only check immediate subdirectories *)
            (projects
             ++ flat_map (fun entry =>
                            match entry with
                            | (name, Some (Dir true _)) => [(join directory name, name)]
                            | _ => []
                            end) entries,
             [])
          else
            let fix search (entries : list (text * option tree)) :=
              match entries with
              | [] => ([], [])
              | (name, Some subdir) :: rest =>
                  let found :=
                    (* Skip hidden directories *)
                    if starts_with (lit ".") name then ([], [])
                    else
                      match subdir with
                      | Dir true _ => ([(join directory name, name)], [])
                      | Dir false _ => findGodotProjects (join directory name) true subdir
                      end in
                  let (more, errors) := search rest in
                  (found.1 ++ more, found.2 ++ errors)
              | (_, None) :: rest => search rest
              end in
            let (found, errors) := search entries in
            (projects ++ found, errors)
      end
  end.

(** The projects the recursive search lists below a directory: the
    subdirectories with a project file, reached through directories that
    have none and could be listed, no name on the way starting with a dot. *)
Inductive below : text -> tree -> text * text -> Prop :=
| below_project (directory : text) (t : tree)
    (entries : list (text * option tree)) (name : text) (subdir : tree) :
    listing t = Some entries ->
    In (name, Some subdir) entries ->
    starts_with (lit ".") name = false ->
    project_file subdir = true ->
    below directory t (join directory name, name)
| below_deeper (directory : text) (t : tree)
    (entries : list (text * option tree)) (name : text) (subdir : tree)
    (project : text * text) :
    listing t = Some entries ->
    In (name, Some subdir) entries ->
    starts_with (lit ".") name = false ->
    project_file subdir = false ->
    below (join directory name) subdir project ->
    below directory t project.

End Search.

End Projects.

(** ** Instances and inputs for the scene, the tools and the game process *)

Module Samples.
Import Godot Fragment Inputs.

(** Case mapping that knows the ASCII letters only. *)
#[export] Instance ascii_casing : Scene.Casing := {|
  Scene.char_uppercase := Scene.ascii_upper;
  Scene.char_lowercase := Scene.ascii_lower;
|}.

#[export] Instance ascii_casing_laws : Scene.CasingLaws := {|
  Scene.uppercase_ascii := fun c _ => eq_refl;
  Scene.lowercase_ascii := fun c _ => eq_refl;
|}.

#[export] Instance double_tests : Scene.FloatTests := {|
  Scene.is_zero := fun f => PrimFloat.eqb f (float_of_Z 0);
  Scene.is_positive := fun f => PrimFloat.ltb (float_of_Z 0) f;
|}.

(** A scene of two nodes: the root and a player with a position. The world
    of [Fragment.engine] is a frame counter, so a property that is set is
    not kept. *)
Definition plain_control : Scene.Control.t :=
  Scene.Control.mk false
    (Rect2.mk (Vector2.mk (float_of_Z 0) (float_of_Z 0))
       (Vector2.mk (float_of_Z 0) (float_of_Z 0)))
    (Vector2.mk (float_of_Z 0) (float_of_Z 0))
    (Vector2.mk (float_of_Z 0) (float_of_Z 0)) [].

Definition player : Scene.Node.t :=
  Scene.Node.mk (lit "Player") (lit "CharacterBody2D") (lit "/root/Main/Player")
    (fun class => Text.eqb class (lit "Node") || Text.eqb class (lit "Node2D"))
    plain_control [].

Definition main_scene : Scene.Node.t :=
  Scene.Node.mk (lit "Main") (lit "Node2D") (lit "/root/Main")
    (fun class => Text.eqb class (lit "Node") || Text.eqb class (lit "Node2D"))
    plain_control [player].

Definition player_properties : list Dictionary :=
  [[(VString (lit "name"), VString (lit "visible")); (VString (lit "type"), VInt 1)];
   [(VString (lit "name"), VString (lit "position")); (VString (lit "type"), VInt 5)]].

#[export] Instance scene : Scene.SceneTree := {|
  Scene.node_id := bool;      (* [true] is the player *)
  Scene.root := fun _ => false;
  Scene.get_node_or_null := fun path _ =>
    if Text.eqb path (lit "/root/Main") then Some false
    else if Text.eqb path (lit "/root/Main/Player") then Some true
    else None;
  Scene.node := fun id _ => if id then player else main_scene;
  Scene.get_property_list := fun id _ => if id then player_properties else [];
  Scene.node_get := fun _ _ _ => VNil;
  Scene.node_set := fun _ _ _ w => w;
|}.

#[export] Instance prototype : Tools.ObjectPrototype := Tools.v8_prototype.

(** A host with two directories, the one [/game] names and the one every
    other path names, on which [spawn] throws when there is no executable
    path. *)
#[export] Instance host : Lifecycle.Host := {|
  Lifecycle.dir := bool;
  Lifecycle.directory := fun path => Text.eqb path (lit "/game");
  Lifecycle.spawn_throws := fun file _ => match file with Some _ => false | None => true end;
  Lifecycle.message := fun _ => lit "failed";
  Lifecycle.stringify_indented := Controller.JSON_stringify;
  Lifecycle.to_string := Controller.JSON_stringify;
  Lifecycle.seconds := fun timeoutMs => digits (timeoutMs / 1000);
  Lifecycle.null_property_message := lit "Cannot read properties of null";
|}.

(** Paths joined with [/]. *)
#[export] Instance slash_paths : Projects.Paths := {|
  Projects.join := fun directory name => directory ++ lit "/" ++ name;
  Projects.basename := fun path => List.last (Tools.components path) [];
|}.

(** A project with one section, and a server that has started nothing. *)
Definition game_project : Lifecycle.project :=
  {| Lifecycle.project_godot := Some (lit "[application]" ++ [LF]);
     Lifecycle.server_script := None;
     Lifecycle.server_uid := None |}.

Definition no_project : Lifecycle.project :=
  {| Lifecycle.project_godot := None;
     Lifecycle.server_script := None;
     Lifecycle.server_uid := None |}.

Definition game_disk (d : bool) : Lifecycle.project :=
  if d then game_project else no_project.

Definition fresh_server : Lifecycle.GodotMcp :=
  {| Lifecycle.connection := Controller.initial;
     Lifecycle.activeProcess := None;
     Lifecycle.streams := ∅;
     Lifecycle.godotPath := Some (lit "/usr/bin/godot");
     Lifecycle.interactionScript := Some (lit "extends Node");
     Lifecycle.disk := game_disk;
     Lifecycle.spawned := [];
     Lifecycle.killed := [];
     Lifecycle.console := [] |}.

Definition run_game : Controller.any :=
  Controller.Obj [(lit "project_path", Controller.Str (lit "/game"))].

(** The server with the game running, and with the game connected. *)
Definition running_server : Lifecycle.GodotMcp :=
  (Lifecycle.handleRunProject run_game fresh_server).2.


(** Every attempt before the third fails, and the third connects. *)
Definition third_time (attempt : Z) : Controller.attempt_env :=
  {| Controller.process_running := true;
     Controller.connects := if attempt <? 3 then None else Some 7%nat |}.

(** A frame in which a new client connects and sends nothing. *)
Definition reconnects : Agent.frame_input :=
  {| Agent.new_client := Some {| Agent.sent := [] |}; Agent.status := Agent.STATUS_CONNECTED;
     Agent.available := []; Agent.get_data_ok := true |}.

End Samples.

(** * Theorems *)

(** ** Text *)

Module TextFacts.

Lemma eqb_eq (a b : text) : Text.eqb a b = true <-> a = b.
Proof.
  revert b; induction a as [|x a IH]; intros [|y b]; simpl; try (split; congruence).
  rewrite andb_true_iff, N.eqb_eq, IH. split.
  - intros [-> ->]; reflexivity.
  - intros [= -> ->]; auto.
Qed.

Lemma index_of_absent (c : N) (s : text) : ~ In c s -> index_of c s = -1.
Proof.
  induction s as [|x s IH]; simpl; intros Hn; [reflexivity|].
  destruct (N.eqb_spec x c) as [->|Hne]; [exfalso; auto|].
  rewrite IH by auto. reflexivity.
Qed.

Lemma index_of_found (c : N) (l r : text) :
  ~ In c l -> index_of c (l ++ c :: r) = Z.of_nat (length l).
Proof.
  induction l as [|x l IH]; simpl; intros Hn.
  - rewrite N.eqb_refl. reflexivity.
  - destruct (N.eqb_spec x c) as [->|Hne]; [exfalso; auto|].
    rewrite IH by auto.
    destruct (Z.ltb_spec (Z.of_nat (length l)) 0); lia.
Qed.

Lemma sub_prefix (l r : text) : sub (l ++ r) 0 (Z.of_nat (length l)) = l.
Proof.
  unfold sub. change (Z.to_nat 0) with 0%nat. rewrite Nat2Z.id. cbn [skipn drop].
  apply take_app_length.
Qed.

Lemma from_pos_suffix (l : text) (x : N) (r : text) :
  from_pos (l ++ x :: r) (Z.of_nat (length l) + 1) = r.
Proof.
  unfold from_pos.
  replace (Z.to_nat (Z.of_nat (length l) + 1)) with (length (l ++ [x])).
  - replace (l ++ x :: r) with ((l ++ [x]) ++ r) by (rewrite <- app_assoc; reflexivity).
    apply drop_app_length.
  - rewrite length_app. simpl. lia.
Qed.

Lemma lines_no_line_feed (s : text) : ~ In LF s -> lines s = ([], s).
Proof.
  induction s as [|c r IH]; simpl; intros Hn; [reflexivity|].
  rewrite IH by auto.
  destruct (N.eqb_spec c LF) as [->|_]; [exfalso; auto|reflexivity].
Qed.

Lemma lines_first (l r : text) :
  ~ In LF l -> lines (l ++ LF :: r) = ((l :: (lines r).1), (lines r).2).
Proof.
  induction l as [|c l IH]; simpl; intros Hn.
  - destruct (lines r); reflexivity.
  - rewrite IH by auto. simpl.
    destruct (N.eqb_spec c LF) as [->|_]; [exfalso; auto|reflexivity].
Qed.

Lemma lines_app (a b : text) :
  lines (a ++ b)
  = ((lines a).1 ++ (lines ((lines a).2 ++ b)).1, (lines ((lines a).2 ++ b)).2).
Proof.
  induction a as [|c a IH]; simpl.
  - destruct (lines b); reflexivity.
  - rewrite IH. destruct (lines a) as [la ra]. cbn [fst snd].
    destruct (N.eqb c LF) eqn:E; cbn [fst snd].
    + destruct (lines (ra ++ b)) as [lb rb]. reflexivity.
    + destruct la as [|l la]; cbn [fst snd app].
      * simpl. rewrite E. destruct (lines (ra ++ b)) as [[|l lb] rb]; reflexivity.
      * destruct (lines (ra ++ b)) as [lb rb]. reflexivity.
Qed.

Lemma index_of_split (s : text) :
  0 <= index_of LF s ->
  exists l r, s = l ++ LF :: r /\ ~ In LF l /\ index_of LF s = Z.of_nat (length l).
Proof.
  induction s as [|c s IH]; simpl; [lia|].
  destruct (N.eqb_spec c LF) as [->|Hne].
  - intros _. exists [], s. simpl. auto.
  - destruct (Z.ltb_spec (index_of LF s) 0) as [Hlt|Hge]; [lia|].
    intros _. destruct (IH Hge) as (l & r & -> & Hl & Hi).
    exists (c :: l), r. simpl. split; [reflexivity|]. split.
    + intros [E|E]; auto.
    + rewrite Hi. lia.
Qed.

Lemma index_of_range (s : text) : index_of LF s = -1 \/ 0 <= index_of LF s.
Proof.
  induction s as [|c s IH]; simpl; [auto|].
  destruct (N.eqb c LF); [right; lia|].
  destruct (Z.ltb_spec (index_of LF s) 0); [auto|right; lia].
Qed.

Lemma index_of_none (s : text) : index_of LF s < 0 -> ~ In LF s.
Proof.
  induction s as [|c s IH]; simpl; [auto|].
  destruct (N.eqb_spec c LF) as [->|Hne]; [lia|].
  destruct (Z.ltb_spec (index_of LF s) 0) as [Hlt|Hge]; [|lia].
  intros _ [E|E]; [congruence|]. exact (IH Hlt E).
Qed.

Lemma lines_found (s : text) : 0 <= index_of LF s -> (lines s).1 <> [].
Proof.
  intros Hi. destruct (index_of_split s Hi) as (l & r & -> & Hl & _).
  rewrite lines_first by assumption. discriminate.
Qed.

Lemma lines_length (s : text) : (length (lines s).1 <= length s)%nat.
Proof.
  induction s as [|c s IH]; simpl; [lia|].
  destruct (lines s) as [ls rest]. simpl in *.
  destruct (N.eqb c LF); simpl; [lia|].
  destruct ls; simpl in *; lia.
Qed.
Lemma lines_rest (s : text) : ~ In LF (lines s).2.
Proof.
  induction s as [|c s IH]; simpl; [auto|].
  destruct (lines s) as [ls rest]. simpl in *.
  destruct (N.eqb_spec c LF) as [->|Hne]; simpl; [assumption|].
  destruct ls; simpl; [|assumption].
  intros [E|E]; [congruence|auto].
Qed.

End TextFacts.

(** ** UTF-8 *)

Module Utf8Facts.
Import Utf8.

Lemma lead_boundary (b : N) : bytes_needed (lead b).1 = O -> (lead b).1 = initial.
Proof.
  unfold lead.
  repeat match goal with |- context [if ?c then _ else _] => destruct c end;
    simpl; intros; try reflexivity; discriminate.
Qed.

Lemma step_boundary (st : state) (b : N) :
  bytes_needed (step st b).1 = O -> (step st b).1 = initial.
Proof.
  unfold step. destruct (bytes_needed st) as [|n]; [apply lead_boundary|].
  destruct (_ || _).
  - pose proof (lead_boundary b). destruct (lead b); simpl in *. assumption.
  - destruct n; simpl; intros; [reflexivity|discriminate].
Qed.

Lemma final_boundary (bytes : list byte) :
  forall st, st = initial \/ bytes <> [] ->
  bytes_needed (final st bytes) = O -> final st bytes = initial.
Proof.
  induction bytes as [|b r IH]; intros st Hst Hn; simpl in *.
  - destruct Hst as [->|Hne]; [reflexivity|congruence].
  - destruct r as [|b' r].
    + simpl in *. apply step_boundary. exact Hn.
    + apply IH; [right; discriminate|exact Hn].
Qed.

Lemma run_app (b1 b2 : list byte) :
  forall st, final st b1 = initial -> run st (b1 ++ b2) = run st b1 ++ run initial b2.
Proof.
  induction b1 as [|b r IH]; intros st Hf; simpl in *.
  - subst st. reflexivity.
  - destruct (step st (Byte.to_N b)) as [st' out]. simpl in *.
    rewrite (IH st' Hf), app_assoc. reflexivity.
Qed.

(** Chunks that end at a character boundary decode as their
    concatenation does. *)
Lemma decode_app (b1 b2 : list byte) :
  at_character_boundary b1 -> decode (b1 ++ b2) = decode b1 ++ decode b2.
Proof.
  intros Hb. unfold decode. apply run_app.
  apply final_boundary; [left; reflexivity|exact Hb].
Qed.

End Utf8Facts.


(** ** The value codec *)

Module CodecSpec.
Import Godot.

Lemma wrap32_int32 (z : Z) : int32 z -> wrap32 z = z.
Proof.
  unfold int32, wrap32; intros Hz.
  rewrite Z.mod_small by lia. lia.
Qed.

Section Decoding.
Context `{Num}.


Lemma dict_get_present (d : Dictionary) (k : text) (default v : variant) :
  dict_find d k = Some v -> dict_get d k default = v.
Proof. unfold dict_get; intros ->; reflexivity. Qed.

(** The nested call of the encoder on a component is the component's
    branch. *)
Lemma variant_to_json_components `{!Str} (m : Basis.t) (t : Transform3D.t) :
  json_of_Basis m
  = dict_lit [("x", _variant_to_json (VVector3 (Basis.x m)));
              ("y", _variant_to_json (VVector3 (Basis.y m)));
              ("z", _variant_to_json (VVector3 (Basis.z m)))]
  /\ _variant_to_json (VTransform3D t)
    = dict_lit [("basis", _variant_to_json (VBasis (Transform3D.basis t)));
                ("origin", _variant_to_json (VVector3 (Transform3D.origin t)))].
Proof. split; reflexivity. Qed.

(** The decoder calls itself only in these four ways. *)
Lemma body_ext (self1 self2 : variant -> text -> option variant) :
  (forall d, self1 (VDictionary d) "Basis" = self2 (VDictionary d) "Basis") ->
  (forall d, self1 (VDictionary d) "Transform3D" = self2 (VDictionary d) "Transform3D") ->
  (forall d, self1 (VDictionary d) "AABB" = self2 (VDictionary d) "AABB") ->
  (forall d, self1 (VDictionary d) "Rect2" = self2 (VDictionary d) "Rect2") ->
  forall v h, _json_to_variant_body self1 v h = _json_to_variant_body self2 v h.
Proof.
  intros HB HT HA HR v h. unfold _json_to_variant_body.
  destruct v; try reflexivity.
  repeat match goal with
         | |- (if ?c then _ else _) = (if ?c then _ else _) =>
             destruct c; [try reflexivity|]
         end.
  - destruct (as_dict _); [|reflexivity]. cbn [mbind option_bind].
    destruct (as_dict _); [|reflexivity]. cbn [mbind option_bind].
    destruct (_ >? 0); [|reflexivity]. rewrite HB. reflexivity.
  - apply HT.
  - destruct (dict_find d "position" ≫= as_dict); [|reflexivity]. cbn [mbind option_bind].
    destruct (dict_find d "size" ≫= as_dict); [|reflexivity]. cbn [mbind option_bind].
    destruct (_ || _); [apply HA|apply HR].
  - reflexivity.
Qed.

(** Three levels of nesting are all the script ever uses: with more the
    result is the same. *)
Lemma depth_three_suffices (n : nat) (v : variant) (h : text) :
  _json_to_variant_at (3 + n) v h = _json_to_variant v h.
Proof.
  unfold _json_to_variant.
  change (_json_to_variant_body (_json_to_variant_at (2 + n)) v h
          = _json_to_variant_body (_json_to_variant_at 2) v h).
  apply body_ext; intros d; reflexivity.
Qed.
Lemma hinted_Rect2_eq (d : Dictionary) :
  _json_to_variant (VDictionary d) "Rect2"
  = (pos ← as_dict (dict_get d "position" (xy 0 0));
     sz ← as_dict (dict_get d "size" (xy 0 0));
     px ← to_float (dict_get pos "x" (VInt 0));
     py ← to_float (dict_get pos "y" (VInt 0));
     sx ← to_float (dict_get sz "x" (VInt 0));
     sy ← to_float (dict_get sz "y" (VInt 0));
     Some (VRect2 (Rect2_ px py sx sy))).
Proof. reflexivity. Qed.

Lemma unknown_hint (h : text) :
  is_known_hint h = false ->
  Forall (fun k => Text.eqb h k = false) known_hints.
Proof.
  unfold is_known_hint. intros E. apply List.Forall_forall. intros k Hk.
  destruct (Text.eqb h k) eqn:Ek; [|reflexivity].
  assert (existsb (Text.eqb h) known_hints = true) by (apply existsb_exists; exists k; auto).
  congruence.
Qed.

(** With a hint that names no branch (the default [""] among them), the
    decoder picks the documented shape and decodes as that shape's hint
    would. *)
Lemma auto_detect (dict : Dictionary) (h : text) :
  is_known_hint h = false ->
  _json_to_variant (VDictionary dict) h =
  match hint_of_shape (documented_shape dict) with
  | Some h' => _json_to_variant (VDictionary dict) h'
  | None => Some (VDictionary dict)
  end.
Proof.
  intros Hh. apply unknown_hint in Hh. unfold known_hints in Hh.
  repeat match goal with
         | Hf : Forall _ (_ :: _) |- _ => apply Forall_cons_1 in Hf; destruct Hf as [? Hf]
         end.
  unfold _json_to_variant at 1.
  change (_json_to_variant_at 3 (VDictionary dict) h)
    with (_json_to_variant_body (_json_to_variant_at 2) (VDictionary dict) h).
  unfold _json_to_variant_body.
  repeat match goal with E : Text.eqb h _ = false |- _ => rewrite E; clear E end.
  unfold documented_shape.
  destruct (dict_has dict "basis" && dict_has dict "origin"); [reflexivity|].
  destruct (dict_has dict "r" && dict_has dict "g" && dict_has dict "b"); [reflexivity|].
  destruct (dict_has dict "x" && dict_has dict "y" && dict_has dict "z" && dict_has dict "w");
    [reflexivity|].
  destruct (dict_has dict "position" && dict_has dict "size") eqn:Eps.
  - apply andb_true_iff in Eps as [Ep Es].
    unfold has_z_field. unfold dict_has in Ep, Es.
    destruct (dict_find dict "position") as [p|] eqn:Fp; [|discriminate].
    destruct (dict_find dict "size") as [sz|] eqn:Fs; [|discriminate].
    cbn [mbind option_bind].
    destruct (as_dict p) as [p0|] eqn:Ap; cbn [mbind option_bind hint_of_shape].
    2:{ rewrite hinted_Rect2_eq, (dict_get_present _ _ _ _ Fp), Ap. reflexivity. }
    destruct (as_dict sz) as [s0|] eqn:As; cbn [mbind option_bind hint_of_shape].
    2:{ rewrite hinted_Rect2_eq, (dict_get_present _ _ _ _ Fp), (dict_get_present _ _ _ _ Fs),
          Ap, As. reflexivity. }
    destruct (dict_has p0 "z" || dict_has s0 "z"); reflexivity.
  - destruct (dict_has dict "x" && dict_has dict "y" && dict_has dict "z"); [reflexivity|].
    destruct (dict_has dict "x" && dict_has dict "y" && (dict_size dict =? 2)); reflexivity.
Qed.

(** C4. Decoding a plain object with no type hint follows the documented
    precedence: transform-shaped, then colour-shaped, then
    quaternion-shaped, then rectangle/box-shaped (a box when the position
    or the size has a [z] field), then 3-vector-shaped, then
    2-vector-shaped (exactly the keys [x], [y]), else the object is passed
    through; the result is that of decoding with the selected type's hint.
    An object with the keys [x], [y], [z], [w] decodes as a quaternion, in
    whatever order the keys come, and the decoder is a function of the
    object. *)
Theorem auto_detection_precedence :
  (forall dict : Dictionary,
     _json_to_variant (VDictionary dict) "" =
     match hint_of_shape (documented_shape dict) with
     | Some h => _json_to_variant (VDictionary dict) h
     | None => Some (VDictionary dict)
     end)
  /\ (forall vx vy vz vw : variant,
       _json_to_variant (dict_lit [("x", vx); ("y", vy); ("z", vz); ("w", vw)]) ""
       = (x ← to_float vx; y ← to_float vy; z ← to_float vz; w ← to_float vw;
          Some (VQuaternion (Quaternion_ x y z w))))
  /\ (forall dict : Dictionary,
       dict_has dict "x" = true -> dict_has dict "y" = true ->
       dict_has dict "z" = true -> dict_has dict "w" = true ->
       dict_has dict "basis" && dict_has dict "origin" = false ->
       dict_has dict "r" && dict_has dict "g" && dict_has dict "b" = false ->
       _json_to_variant (VDictionary dict) "" = VQuaternion <$> quaternion_of dict)
  /\ (forall (dict : Dictionary) (r1 r2 : option variant),
       _json_to_variant (VDictionary dict) "" = r1 ->
       _json_to_variant (VDictionary dict) "" = r2 -> r1 = r2).
Proof.
  split; [|split; [|split]].
  - intros dict. apply auto_detect. reflexivity.
  - intros vx vy vz vw.
    cbv -[to_float narrow].
    destruct (to_float vx), (to_float vy), (to_float vz), (to_float vw); reflexivity.
  - intros dict Hx Hy Hz Hw Ht Hc.
    rewrite auto_detect by reflexivity.
    unfold documented_shape. rewrite Ht, Hc, Hx, Hy, Hz, Hw. reflexivity.
  - congruence.
Qed.

End Decoding.

Section RoundTrip.
Context `{Num} `{!NumLaws} `{!Str}.

Lemma round_trip (v : variant) (h : text) :
  type_name v = Some h -> components_int32 v ->
  _json_to_variant (_variant_to_json v) h = Some v.
Proof.
  intros Hh Hr.
  destruct v; try discriminate Hh; simpl in Hh; injection Hh as <-.
  - destruct v. run_codec. rewrite !narrow_widen. reflexivity.
  - destruct v. destruct Hr as [Hx Hy]. simpl in Hx, Hy. run_codec.
    rewrite !wrap32_int32 by assumption. reflexivity.
  - destruct v. run_codec. rewrite !narrow_widen. reflexivity.
  - destruct v. destruct Hr as (Hx & Hy & Hz). simpl in Hx, Hy, Hz. run_codec.
    rewrite !wrap32_int32 by assumption. reflexivity.
  - destruct c. run_codec. rewrite !narrow_widen. reflexivity.
  - destruct q. run_codec. rewrite !narrow_widen. reflexivity.
  - destruct m as [[] [] []]. run_codec. rewrite !narrow_widen. reflexivity.
  - destruct t as [[[] [] []] []]. run_codec. rewrite !narrow_widen. reflexivity.
  - destruct t as [[] [] []]. run_codec. rewrite !narrow_widen. reflexivity.
  - destruct r as [[] []]. run_codec. rewrite !narrow_widen. reflexivity.
  - destruct r as [[] []]. run_codec. rewrite !narrow_widen. reflexivity.
Qed.


End RoundTrip.

End CodecSpec.

(** ** The agent *)

Module AgentSpec.
Import Godot Agent TextFacts.

Section Dispatcher.
Context `{Num} `{!Engine}.

(** Running a handler appends its frames to what the client was sent. *)
Lemma complete_client (h : handler World) (s : Server) (c : StreamPeerTCP) :
  _client s = Some c ->
  _client (complete h s) = Some {| sent := sent c ++ responses h |}.
Proof.
  intros Hc. destruct h; simpl.
  - unfold _send_response, _send_response_raw. simpl. rewrite Hc. reflexivity.
  - rewrite Hc, app_nil_r. destruct c; reflexivity.
  - rewrite Hc, app_nil_r. destruct c; reflexivity.
Qed.

Lemma handle_command_buffer (b : text) (l : text) (s : Server) :
  _handle_command l (set_buffer b s) = set_buffer b (_handle_command l s).
Proof.
  unfold _handle_command. simpl.
  destruct (_busy s).
  - unfold _send_response_raw. simpl. destruct (_client s); reflexivity.
  - destruct (JSON_parse l) as [data|message].
    + destruct data; try (unfold _send_response, _send_response_raw; simpl;
                          destruct (_client s); reflexivity).
      destruct (as_string _); [|reflexivity].
      destruct (as_dict _); [|reflexivity].
      simpl. destruct (dispatch _ _ _); simpl; try reflexivity.
      unfold _send_response, _send_response_raw; simpl. destruct (_client s); reflexivity.
    + unfold _send_response, _send_response_raw; simpl. destruct (_client s); reflexivity.
Qed.

Lemma buffer_handle_command (l : text) (s : Server) :
  _buffer (_handle_command l s) = _buffer s.
Proof.
  unfold _handle_command.
  destruct (_busy s).
  - unfold _send_response_raw. destruct (_client s); reflexivity.
  - destruct (JSON_parse l) as [data|message].
    + destruct data; try (unfold _send_response, _send_response_raw; simpl;
                          destruct (_client s); reflexivity).
      destruct (as_string _); [|reflexivity].
      destruct (as_dict _); [|reflexivity].
      simpl. destruct (dispatch _ _ _); simpl; try reflexivity.
      unfold _send_response, _send_response_raw; simpl. destruct (_client s); reflexivity.
    + unfold _send_response, _send_response_raw; simpl. destruct (_client s); reflexivity.
Qed.

Lemma handle_line_buffer (b : text) (l : text) (s : Server) :
  handle_line l (set_buffer b s) = set_buffer b (handle_line l s).
Proof.
  unfold handle_line. destruct (_ >? 0); [apply handle_command_buffer|reflexivity].
Qed.

Lemma buffer_handle_line (l : text) (s : Server) : _buffer (handle_line l s) = _buffer s.
Proof.
  unfold handle_line. destruct (_ >? 0); [apply buffer_handle_command|reflexivity].
Qed.

(** A line with nothing but blanks is skipped: no command is dispatched. *)
Lemma blank_line_skipped (l : text) (s : Server) :
  strip_edges l = [] -> handle_line l s = s.
Proof. unfold handle_line. intros ->. reflexivity. Qed.

Lemma handle_all_buffer (b : text) (ls : list text) :
  forall s, handle_all ls (set_buffer b s) = set_buffer b (handle_all ls s).
Proof.
  induction ls as [|l ls IH]; intros s; simpl; [reflexivity|].
  unfold handle_all in *. simpl. rewrite handle_line_buffer. apply IH.
Qed.

Lemma set_buffer_same (s : Server) : set_buffer (_buffer s) s = s.
Proof. destruct s; reflexivity. Qed.

Lemma agent_lines (fuel : nat) :
  forall s,
  (length (lines (_buffer s)).1 <= fuel)%nat ->
  process_lines fuel s
  = set_buffer (lines (_buffer s)).2 (handle_all (lines (_buffer s)).1 s).
Proof.
  induction fuel as [|fuel IH]; intros s Hf.
  - assert (Hn : ~ In LF (_buffer s)).
    { apply index_of_none. destruct (index_of_range (_buffer s)) as [E|E]; [lia|].
      apply lines_found in E. destruct (lines _).1; [congruence|simpl in Hf; lia]. }
    simpl. rewrite (index_of_absent _ _ Hn), (lines_no_line_feed _ Hn). simpl.
    symmetry. apply set_buffer_same.
  - simpl. destruct (index_of_range (_buffer s)) as [E|E].
    + rewrite E. simpl.
      assert (Hn : ~ In LF (_buffer s)) by (apply index_of_none; lia).
      rewrite (lines_no_line_feed _ Hn). simpl. symmetry. apply set_buffer_same.
    + destruct (Z.geb_spec (index_of LF (_buffer s)) 0) as [_|]; [|lia].
      destruct (index_of_split _ E) as (l & r & Eb & Hl & Ei).
      rewrite Ei, Eb, sub_prefix, from_pos_suffix.
      rewrite Eb, lines_first in Hf by assumption. simpl in Hf.
      change (process_lines fuel (handle_line l (set_buffer r s))
              = set_buffer (lines (l ++ LF :: r)).2 (handle_all (lines (l ++ LF :: r)).1 s)).
      rewrite IH.
      * rewrite buffer_handle_line. simpl.
        rewrite lines_first by assumption. simpl.
        rewrite handle_line_buffer, handle_all_buffer. reflexivity.
      * rewrite buffer_handle_line. simpl. lia.
Qed.

Lemma receive_lines (t : text) (s : Server) :
  receive t s
  = set_buffer (lines (_buffer s ++ t)).2 (handle_all (lines (_buffer s ++ t)).1 s).
Proof.
  unfold receive. rewrite agent_lines; simpl.
  - rewrite handle_all_buffer. reflexivity.
  - apply lines_length.
Qed.

(** At the level of text the agent's reader does not depend on how the
    stream is cut into chunks. *)
Lemma receive_app (t1 t2 : text) (s : Server) :
  receive t2 (receive t1 s) = receive (t1 ++ t2) s.
Proof.
  rewrite (receive_lines t1 s), (receive_lines (t1 ++ t2) s), receive_lines.
  simpl. rewrite app_assoc, (lines_app (_buffer s ++ t1) t2).
  simpl. rewrite handle_all_buffer. unfold handle_all. rewrite fold_left_app. reflexivity.
Qed.



(** A frame in which the connected client delivers one line: [_process]
    hands the line, stripped, to [_handle_command]. *)
Lemma arriving_command (s : Server) (c : StreamPeerTCP) (i : frame_input) (l : text) :
  _server s = true -> _client s = Some c -> _buffer s = [] ->
  new_client i = None -> status i = STATUS_CONNECTED -> get_data_ok i = true ->
  available i <> [] -> get_string_from_utf8 (available i) = l ++ [LF] ->
  ~ In LF l -> strip_edges l <> [] ->
  _process i s = _handle_command (strip_edges l) s.
Proof.
  intros Hsrv Hc Hbuf Hnew Hst Hok Hav Hdec Hl Hne.
  unfold _process. rewrite Hsrv, Hnew, Hc, Hst, Hok. simpl negb. cbv iota.
  destruct (Z.gtb_spec (Z.of_nat (length (available i))) 0) as [_|Hz].
  2:{ destruct (available i); [congruence|simpl in Hz; lia]. }
  simpl andb. cbv iota.
  change (receive (get_string_from_utf8 (available i)) s = _handle_command (strip_edges l) s).
  rewrite receive_lines, Hbuf, Hdec. simpl app.
  rewrite lines_first by assumption. simpl.
  unfold handle_all. simpl. unfold handle_line.
  destruct (Z.gtb_spec (Z.of_nat (length (strip_edges l))) 0) as [_|Hz].
  2:{ destruct (strip_edges l); [congruence|simpl in Hz; lia]. }
  rewrite <- handle_command_buffer, <- Hbuf, set_buffer_same. reflexivity.
Qed.

(** C1. While the busy flag is set, a command that arrives from the
    connected client is answered at once with the busy error, the frame of
    [{"error": "Server busy processing another command. Try again."}], and
    nothing else changes: the flag stays set and the suspended handler
    stays where it is. When that handler resumes it does what it would have done
    without the rejection: it writes its own response, after the busy
    error, and the flag is cleared by that response. The same holds of the
    frame in which the command arrives: [_process] on a chunk that holds
    the command's line does just this. *)
Theorem busy_rejection (s : Server) (c : StreamPeerTCP) (json_str : text) :
  _busy s = true -> _client s = Some c ->
  let busy_error :=
    to_utf8_buffer
      (JSON_stringify
         (VDictionary
            [(VString (lit "error"),
              VString (lit "Server busy processing another command. Try again."))])
       ++ [LF]) in
  let s' := _handle_command json_str s in
  s' = set_client (Some {| sent := sent c ++ [busy_error] |}) s
  /\ _busy s' = true
  /\ suspended s' = suspended s
  /\ (forall k : World -> handler World,
      let h := k (world s') in
      h = k (world s)
      /\ _client (complete h s')
         = Some {| sent := sent c ++ [busy_error] ++ responses h |}
      /\ _client (complete h s) = Some {| sent := sent c ++ responses h |}
      /\ _busy (complete h s') = _busy (complete h s)
      /\ world (complete h s') = world (complete h s)
      /\ suspended (complete h s') = suspended (complete h s)
      /\ (forall w data, h = Respond w data -> _busy (complete h s') = false))
  /\ (forall k : World -> handler World,
       suspended s = [k] ->
       let resumed := emit_signal s' in
       _client resumed
       = Some {| sent := sent c ++ [busy_error] ++ responses (k (world s)) |}
       /\ (forall w data,
            k (world s) = Respond w data -> _busy resumed = false /\ suspended resumed = []))
  /\ (forall (i : frame_input) (l : text),
       _server s = true -> _buffer s = [] ->
       new_client i = None -> status i = STATUS_CONNECTED -> get_data_ok i = true ->
       available i <> [] -> get_string_from_utf8 (available i) = l ++ [LF] ->
       ~ In LF l -> strip_edges l = json_str -> json_str <> [] ->
       _process i s = s').
Proof.
  intros Hb Hc busy_error s'.
  (* the bytes are those of the frame [_handle_command] writes *)
  change busy_error with (framed busy_response). clear busy_error.
  assert (Hs' : s' = set_client (Some {| sent := sent c ++ [framed busy_response] |}) s).
  { subst s'. unfold _handle_command. rewrite Hb.
    unfold _send_response_raw. rewrite Hc. reflexivity. }
  split; [exact Hs'|].
  assert (Hp : forall (i : frame_input) (l : text),
             _server s = true -> _buffer s = [] ->
             new_client i = None -> status i = STATUS_CONNECTED -> get_data_ok i = true ->
             available i <> [] -> get_string_from_utf8 (available i) = l ++ [LF] ->
             ~ In LF l -> strip_edges l = json_str -> json_str <> [] ->
             _process i s = s').
  { intros i l Hsrv Hbuf Hnew Hst Hok Hav Hdec Hl Hstrip Hne. subst s' json_str.
    apply (arriving_command s c i l); assumption. }
  assert (He : forall k : World -> handler World,
             suspended s = [k] ->
             let resumed := emit_signal s' in
             _client resumed
             = Some {| sent := sent c ++ [framed busy_response] ++ responses (k (world s)) |}
             /\ (forall w data,
                  k (world s) = Respond w data ->
                  _busy resumed = false /\ suspended resumed = [])).
  { intros k Hk resumed. subst resumed. unfold emit_signal. rewrite Hs'. simpl.
    rewrite Hk. simpl. split.
    - rewrite (complete_client _ _ {| sent := sent c ++ [framed busy_response] |})
        by reflexivity.
      simpl. rewrite <- app_assoc. reflexivity.
    - intros w data ->. simpl. unfold _send_response, _send_response_raw. simpl. auto. }
  rewrite Hs' in *. simpl.
  split; [exact Hb|]. split; [reflexivity|]. split; [|split; [exact He|exact Hp]].
  intros k. split; [reflexivity|].
  split.
  { rewrite (complete_client _ _ {| sent := sent c ++ [framed busy_response] |})
      by reflexivity.
    simpl. rewrite <- app_assoc. reflexivity. }
  split. { apply complete_client. exact Hc. }
  destruct (k (world s)); simpl; repeat split; try reflexivity.
  all: unfold _send_response, _send_response_raw; simpl; try rewrite Hc; try reflexivity.
  all: intros; discriminate.
Qed.

Lemma handle_malformed (s : Server) (c : StreamPeerTCP) (json_str : text) :
  _busy s = false -> _client s = Some c -> malformed json_str = true ->
  _handle_command json_str s
  = set_client (Some {| sent := sent c ++ [framed (malformed_reply json_str)] |}) s.
Proof.
  intros Hb Hc Hm. unfold _handle_command, malformed, malformed_reply in *. rewrite Hb.
  destruct s as [srv cl buf busy w ks]; simpl in *; subst.
  destruct (JSON_parse json_str) as [data|message].
  - destruct data; try discriminate Hm; reflexivity.
  - reflexivity.
Qed.

Lemma length_unlines (lines : list text) : (length lines <= length (unlines lines))%nat.
Proof.
  induction lines as [|l ls IH]; simpl; [lia|].
  unfold unlines in *. simpl. rewrite !length_app. simpl. lia.
Qed.

(** The loop of [_process] on a buffer of malformed lines: one error
    response per line, in order, and what follows the last line feed is
    kept. *)
Lemma process_malformed_lines (lines : list text) :
  forall (s : Server) (c : StreamPeerTCP) (rest : text) (fuel : nat),
  _busy s = false -> _client s = Some c ->
  Forall answerable lines -> ~ In LF rest ->
  _buffer s = unlines lines ++ rest -> (length lines <= fuel)%nat ->
  process_lines fuel s
  = set_buffer rest
      (set_client
         (Some {| sent := sent c
                          ++ map (fun l => framed (malformed_reply (strip_edges l))) lines |})
         s).
Proof.
  induction lines as [|l ls IH]; intros s c rest fuel Hb Hc Hall Hrest Hbuf Hfuel.
  - simpl in Hbuf.
    assert (E : process_lines fuel s = s).
    { destruct fuel; simpl; rewrite Hbuf, (index_of_absent _ _ Hrest); reflexivity. }
    rewrite E. destruct s as [srv cl buf busy w ks], c; simpl in *; subst.
    rewrite app_nil_r. reflexivity.
  - apply Forall_cons_1 in Hall as [(Hl & Hne & Hm) Hall].
    destruct fuel as [|fuel]; [simpl in Hfuel; lia|].
    assert (Hbuf' : _buffer s = l ++ LF :: (unlines ls ++ rest)).
    { rewrite Hbuf. unfold unlines. simpl. rewrite <- !app_assoc. reflexivity. }
    simpl. rewrite Hbuf', (index_of_found _ _ _ Hl).
    destruct (Z.geb_spec (Z.of_nat (length l)) 0) as [_|]; [|lia].
    rewrite sub_prefix, from_pos_suffix.
    destruct (Z.gtb_spec (Z.of_nat (length (strip_edges l))) 0) as [_|Hz].
    2:{ destruct (strip_edges l); [congruence|simpl in Hz; lia]. }
    rewrite (handle_malformed _ c) by (simpl; assumption).
    rewrite (IH _ {| sent := sent c ++ [framed (malformed_reply (strip_edges l))] |} rest);
      try assumption; try reflexivity; [|simpl in *; lia].
    destruct s as [srv cl buf busy w ks]; simpl in *.
    rewrite <- app_assoc. reflexivity.
Qed.

(** C8. When the agent is not busy, a framed message that is not valid
    JSON is answered with one error, the frame of
    [{"error": "Invalid JSON: ..."}] with the parser's message, and one
    whose top-level value is not an object with the frame of
    [{"error": "Expected JSON object"}]; the busy flag is clear afterwards (it is raised and cleared
    again within the call, with no suspension in between) and nothing but
    the client's output changes. The loop of [_process] goes on to the
    next line: a buffer of such lines gets exactly one response per line,
    in order. *)
Theorem malformed_message_answered (s : Server) (c : StreamPeerTCP) :
  _busy s = false -> _client s = Some c ->
  let error_frame := fun message : text =>
    to_utf8_buffer
      (JSON_stringify (VDictionary [(VString (lit "error"), VString message)]) ++ [LF]) in
  (forall json_str message,
     JSON_parse json_str = ParseError message ->
     _handle_command json_str s
     = set_client
         (Some {| sent := sent c ++ [error_frame (lit "Invalid JSON: " ++ message)] |}) s)
  /\ (forall json_str data,
       JSON_parse json_str = ParseOk data -> as_dict data = None ->
       _handle_command json_str s
       = set_client
           (Some {| sent := sent c ++ [error_frame (lit "Expected JSON object")] |}) s)
  /\ (forall json_str, malformed json_str = true -> _busy (_handle_command json_str s) = false)
  /\ (forall (lines : list text) (rest : text),
       Forall answerable lines -> ~ In LF rest ->
       _buffer s = unlines lines ++ rest ->
       let s' := process_lines (length (_buffer s)) s in
       _client s'
       = Some {| sent := sent c
                         ++ map (fun l =>
                                   match JSON_parse (strip_edges l) with
                                   | ParseError message =>
                                       error_frame (lit "Invalid JSON: " ++ message)
                                   | ParseOk _ => error_frame (lit "Expected JSON object")
                                   end) lines |}
       /\ _busy s' = false /\ _buffer s' = rest /\ suspended s' = suspended s).
Proof.
  intros Hb Hc error_frame.
  (* the bytes are those of the frames [_handle_command] writes *)
  assert (Ef : forall message, error_frame message = framed (error_response message))
    by reflexivity.
  split; [|split; [|split]].
  - intros json_str message Hp.
    rewrite (handle_malformed s c) by (try assumption; unfold malformed; rewrite Hp; reflexivity).
    unfold malformed_reply. rewrite Hp, Ef. reflexivity.
  - intros json_str data Hp Hd.
    rewrite (handle_malformed s c)
      by (try assumption; unfold malformed; rewrite Hp; destruct data; try reflexivity;
          discriminate Hd).
    unfold malformed_reply. rewrite Hp, Ef. reflexivity.
  - intros json_str Hm. rewrite (handle_malformed s c) by assumption. exact Hb.
  - intros lines rest Hall Hrest Hbuf s'. subst s'.
    rewrite (process_malformed_lines lines s c rest); try assumption.
    + simpl. split; [|auto]. do 3 f_equal. apply map_ext. intros l.
      unfold malformed_reply. destruct (JSON_parse (strip_edges l)); rewrite Ef; reflexivity.
    + rewrite Hbuf, length_app. pose proof (length_unlines lines). lia.
Qed.

End Dispatcher.
End AgentSpec.

(** ** The controller *)

Module ControllerSpec.
Import Controller TextFacts.

Section Correlator.
Context `{Runtime}.

Lemma settlements_settle (c c' : call_id) (o : settlement) (s : GodotServer) :
  settlements c (settle c' o s)
  = settlements c s ++ (if decide (c' = c) then [o] else []).
Proof.
  unfold settlements, settle. simpl.
  rewrite filter_app, map_app. f_equal.
  rewrite filter_cons, filter_nil. simpl.
  destruct (decide (c' = c)); reflexivity.
Qed.

Lemma settlements_resolver (c r : call_id) (v : any) (s : GodotServer) :
  settlements c (resolver r v s)
  = settlements c s ++ (if decide (r = c) then [Resolved v] else []).
Proof. unfold resolver. rewrite settlements_settle. reflexivity. Qed.

Lemma deliver_retired (c : call_id) (line : text) (s : GodotServer) :
  retired c s ->
  retired c (deliver line s) /\ settlements c (deliver line s) = settlements c s.
Proof.
  intros (Ht & Hp & Hc). unfold deliver.
  destruct (pendingResolve (gameConnection s)) as [r|] eqn:Er; [|repeat split; auto; congruence].
  destruct (Z.of_nat (length line) >? 0); [|repeat split; auto; congruence].
  destruct (JSON_parse line) as [v|].
  - split.
    + repeat split; simpl; try assumption.
      * rewrite lookup_delete_ne by congruence. exact Ht.
      * discriminate.
    + rewrite settlements_resolver. destruct (decide (r = c)); [congruence|].
      rewrite app_nil_r. reflexivity.
  - repeat split; simpl; auto; congruence.
Qed.

Lemma set_responseBuffer_retired (c : call_id) (b : text) (s : GodotServer) :
  retired c s -> retired c (set_responseBuffer b s).
Proof. intros (Ht & Hp & Hc). repeat split; assumption. Qed.

Lemma process_lines_retired (c : call_id) (fuel : nat) :
  forall s, retired c s ->
  retired c (process_lines fuel s)
  /\ settlements c (process_lines fuel s) = settlements c s.
Proof.
  induction fuel as [|fuel IH]; intros s Hr; simpl.
  - destruct (_ >=? 0); auto.
  - destruct (_ >=? 0); [|auto].
    match goal with |- context [deliver ?l ?s0] =>
      destruct (deliver_retired c l s0 (set_responseBuffer_retired _ _ _ Hr)) as [Hr' Hs']
    end.
    destruct (IH _ Hr') as [Hr'' Hs'']. split; [exact Hr''|].
    rewrite Hs'', Hs'. reflexivity.
Qed.

Lemma step_retired (c : call_id) (e : event) (s : GodotServer) :
  retired c s ->
  retired c (step e s) /\ settlements c (step e s) = settlements c s.
Proof.
  intros Hr. pose proof Hr as (Ht & Hp & Hc). destruct e; simpl.
  - unfold sendGameCommand.
    destruct (connected (gameConnection s)); [|auto].
    destruct (socket (gameConnection s)); [|auto].
    simpl. split; [|reflexivity].
    repeat split; simpl.
    + rewrite lookup_insert_ne by lia. exact Ht.
    + intros [= E]. lia.
    + lia.
  - unfold on_data. apply (process_lines_retired c _ _ (set_responseBuffer_retired _ _ _ Hr)).
  - unfold on_close. simpl.
    destruct (pendingResolve (gameConnection s)) as [r|] eqn:Er.
    + split.
      * repeat split; simpl; try assumption; try discriminate.
        rewrite lookup_delete_ne by congruence. exact Ht.
      * unfold settlements. simpl. rewrite filter_app, map_app, filter_cons, filter_nil. simpl.
        destruct (decide (r = c)); [congruence|]. rewrite app_nil_r. reflexivity.
    + split; [|reflexivity]. repeat split; simpl; try assumption. rewrite Er. discriminate.
  - unfold timer_fired.
    destruct (timers s !! c0) as [[command timeoutMs]|] eqn:Ec0; [|auto].
    assert (c0 <> c) by congruence.
    split.
    + repeat split; simpl; try assumption; try discriminate.
      rewrite lookup_delete_ne by congruence. exact Ht.
    + rewrite settlements_settle. destruct (decide (c0 = c)); [congruence|].
      rewrite app_nil_r. reflexivity.
  - split; [|reflexivity]. repeat split; simpl; assumption.
  - unfold disconnectFromGame.
    destruct (socket (gameConnection s)); simpl;
      destruct (pendingResolve (gameConnection s)) as [r|] eqn:Er; simpl.
    all: split; [repeat split; simpl; try assumption; try discriminate;
                 try (rewrite lookup_delete_ne by congruence; exact Ht);
                 try (rewrite Er; discriminate)
                |].
    all: try reflexivity.
    all: unfold settlements; simpl; rewrite filter_app, map_app, filter_cons, filter_nil; simpl;
         destruct (decide (r = c)); [congruence|]; rewrite app_nil_r; reflexivity.
Qed.

Lemma run_retired (c : call_id) (es : list event) :
  forall s, retired c s ->
  retired c (run es s) /\ settlements c (run es s) = settlements c s.
Proof.
  induction es as [|e es IH]; intros s Hr; simpl; [auto|].
  destruct (step_retired c e s Hr) as [Hr' Hs'].
  destruct (IH _ Hr') as [Hr'' Hs'']. split; [exact Hr''|]. 
  unfold run in *. rewrite Hs'', Hs'. reflexivity.
Qed.


Lemma process_lines_idle (fuel : nat) :
  forall s, pendingResolve (gameConnection s) = None ->
  let s' := process_lines fuel s in
  settled s' = settled s /\ timers s' = timers s
  /\ pendingResolve (gameConnection s') = None
  /\ diagnostics s' = diagnostics s /\ written s' = written s.
Proof.
  induction fuel as [|fuel IH]; intros s Hp; simpl.
  - destruct (_ >=? 0); auto.
  - destruct (_ >=? 0); [|auto].
    unfold deliver. simpl. rewrite Hp.
    match goal with |- context [process_lines fuel ?s0] =>
      destruct (IH s0) as (E1 & E2 & E3 & E4 & E5); [exact Hp|]
    end.
    simpl in *. auto.
Qed.

(** Data that arrives while no resolver is pending settles nothing. *)
Lemma data_idle (chunks : list (list byte)) :
  forall s, pendingResolve (gameConnection s) = None ->
  settled (run (map Data chunks) s) = settled s
  /\ pendingResolve (gameConnection (run (map Data chunks) s)) = None.
Proof.
  induction chunks as [|bytes chunks IH]; intros s Hp; simpl; [auto|].
  assert (Hd : settled (on_data bytes s) = settled s
               /\ pendingResolve (gameConnection (on_data bytes s)) = None).
  { unfold on_data.
    match goal with |- context [process_lines ?f ?s0] =>
      destruct (process_lines_idle f s0) as (E1 & _ & E3 & _); [exact Hp|]
    end.
    split; [exact E1|exact E3]. }
  destruct Hd as [Hd1 Hd2]. destruct (IH _ Hd2) as [IH1 IH2].
  unfold run in *. simpl. rewrite IH1, Hd1. auto.
Qed.

(** *** The calls the server knows of *)






Lemma known_calls_initial : known_calls initial.
Proof.
  repeat split; simpl.
  - intros c Hc. rewrite lookup_empty in Hc. congruence.
  - discriminate.
  - constructor.
Qed.


(** C6. When the connection closes while a command is outstanding (its
    resolver is the pending one and its promise has not been settled), the
    close handler resolves the call, there and then, with
    [{ error: 'Connection closed' }], clears its timer and the slot; and
    whatever happens afterwards (a timer, more data, another close, a
    disconnect, new commands) the call is never resolved or rejected
    again. *)
Theorem close_resolves_exactly_once (s : GodotServer) (c : call_id) :
  pendingResolve (gameConnection s) = Some c ->
  settlements c s = [] ->
  (c < calls s)%nat ->
  let s' := on_close s in
  settlements c s' = [Resolved (Obj [(lit "error", Str (lit "Connection closed"))])]
  /\ pendingResolve (gameConnection s') = None
  /\ timers s' !! c = None
  /\ connected (gameConnection s') = false
  /\ forall es : list event,
      settlements c (run es s')
      = [Resolved (Obj [(lit "error", Str (lit "Connection closed"))])].
Proof.
  intros Hp Hs Hc s'.
  (* the value is the object the close handler makes *)
  change (Obj [(lit "error", Str (lit "Connection closed"))])
    with (error_object "Connection closed").
  assert (E : s' = set_pendingResolve None
                     (resolver c (error_object "Connection closed")
                        (set_socket None (set_connected false (logDebug ConnectionClosed s))))).
  { subst s'. unfold on_close. simpl. rewrite Hp. reflexivity. }
  assert (Hs' : settlements c s' = [Resolved (error_object "Connection closed")]).
  { rewrite E. unfold settlements in *. simpl. rewrite filter_app, map_app, Hs.
    rewrite filter_cons, filter_nil. simpl. destruct (decide (c = c)); [reflexivity|congruence]. }
  assert (Hr : retired c s').
  { rewrite E. repeat split; simpl; try discriminate; try assumption.
    apply lookup_delete_eq. }
  split; [exact Hs'|]. rewrite E at 1 2 3. simpl.
  split; [reflexivity|]. split; [apply lookup_delete_eq|]. split; [reflexivity|].
  intros es. destruct (run_retired c es s' Hr) as [_ ->]. exact Hs'.
Qed.

(** C2, amended. When the timer of a command fires before a response has
    arrived, the call is rejected with the timeout error and the Pending
    Request slot is cleared. Data that arrives late while the slot is still
    empty, in however many chunks, is delivered to no caller, and the call
    that timed out is never settled again, whatever happens afterwards. (A
    late response that arrives after a later call has installed its resolver
    is delivered to that later call: see the counterexample.) *)
Theorem timeout_rejects_and_frees_slot (s : GodotServer) (c : call_id)
  (command : text) (timeoutMs : Z) :
  timers s !! c = Some (command, timeoutMs) ->
  settlements c s = [] ->
  (c < calls s)%nat ->
  let s' := timer_fired c s in
  settlements c s' = [Rejected (TimedOut command timeoutMs)]
  /\ pendingResolve (gameConnection s') = None
  /\ (forall chunks : list (list byte),
       let s'' := run (map Data chunks) s' in
       settled s'' = settled s' /\ pendingResolve (gameConnection s'') = None)
  /\ (forall es : list event,
       settlements c (run es s') = [Rejected (TimedOut command timeoutMs)]).
Proof.
  intros Ht Hs Hc s'.
  assert (E : s' = settle c (Rejected (TimedOut command timeoutMs))
                     (set_pendingResolve None (set_timers (delete c (timers s)) s))).
  { subst s'. unfold timer_fired. rewrite Ht. reflexivity. }
  assert (Hs' : settlements c s' = [Rejected (TimedOut command timeoutMs)]).
  { rewrite E, settlements_settle. destruct (decide (c = c)); [|congruence].
    unfold settlements in *. simpl. rewrite Hs. reflexivity. }
  assert (Hr : retired c s').
  { rewrite E. repeat split; simpl; try discriminate; try assumption.
    apply lookup_delete_eq. }
  assert (Hp : pendingResolve (gameConnection s') = None) by (rewrite E; reflexivity).
  split; [exact Hs'|]. split; [exact Hp|]. split.
  - intros chunks s''. subst s''. apply data_idle. exact Hp.
  - intros es. destruct (run_retired c es s' Hr) as [_ ->]. exact Hs'.
Qed.

(** C10, amended. A complete line that does not parse as JSON is dropped:
    no promise is settled, the Pending Request slot and the timers are as
    they were (only a debug message is logged), so the line is never
    surfaced to the caller. The outstanding call stays pending and is still
    completed by whichever comes first: the next line that parses, its
    timeout, or the connection being closed or torn down; no other event
    settles it. *)
Theorem unparseable_line_discarded (s : GodotServer) (c : call_id) (line : text) :
  pendingResolve (gameConnection s) = Some c ->
  JSON_parse line = None ->
  let s' := deliver line s in
  settled s' = settled s
  /\ gameConnection s' = gameConnection s
  /\ timers s' = timers s
  /\ (forall (line' : text) (v : any),
       line' <> [] -> JSON_parse line' = Some v ->
       settlements c (deliver line' s') = settlements c s ++ [Resolved v])
  /\ (forall (command : text) (timeoutMs : Z),
       timers s !! c = Some (command, timeoutMs) ->
       settlements c (timer_fired c s') = settlements c s ++ [Rejected (TimedOut command timeoutMs)])
  /\ settlements c (on_close s')
     = settlements c s ++ [Resolved (error_object "Connection closed")]
  /\ settlements c (disconnectFromGame s')
     = settlements c s ++ [Resolved (error_object "Disconnected")]
  /\ (forall e : event,
       settlements c (step e s') = settlements c s'
       \/ (exists bytes, e = Data bytes) \/ e = TimerFired c
       \/ e = Close \/ e = Disconnect).
Proof.
  intros Hp Hj s'.
  assert (E : s' = s \/ s' = logDebug (FailedToParse line) s).
  { subst s'. unfold deliver. rewrite Hp, Hj. destruct (_ >? 0); auto. }
  assert (E1 : settled s' = settled s) by (destruct E as [-> | ->]; reflexivity).
  assert (E2 : gameConnection s' = gameConnection s) by (destruct E as [-> | ->]; reflexivity).
  assert (E3 : timers s' = timers s) by (destruct E as [-> | ->]; reflexivity).
  assert (E4 : forall x, settlements x s' = settlements x s)
    by (intros x; unfold settlements; rewrite E1; reflexivity).
  repeat split; try assumption.
  - intros line' v Hne Hv. unfold deliver. rewrite E2, Hp, Hv.
    destruct (Z.gtb_spec (Z.of_nat (length line')) 0) as [_|Hz].
    2:{ destruct line'; [congruence|simpl in Hz; lia]. }
    rewrite settlements_resolver. destruct (decide (c = c)); [|congruence].
    unfold settlements. simpl. rewrite E1. reflexivity.
  - intros command timeoutMs Ht. unfold timer_fired. rewrite E3, Ht.
    rewrite settlements_settle. destruct (decide (c = c)); [|congruence].
    unfold settlements. simpl. rewrite E1. reflexivity.
  - unfold on_close. simpl. rewrite E2, Hp.
    unfold settlements. simpl. rewrite E1, filter_app, map_app, filter_cons, filter_nil. simpl.
    destruct (decide (c = c)); [reflexivity|congruence].
  - assert (Hp' : pendingResolve (gameConnection s') = Some c) by (rewrite E2; exact Hp).
    clearbody s'. unfold disconnectFromGame.
    destruct (socket (gameConnection s')); simpl; rewrite Hp';
      unfold settlements; simpl;
      rewrite E1, filter_app, map_app, filter_cons, filter_nil; simpl;
      (destruct (decide (c = c)); [reflexivity|congruence]).
  - intros [command params timeoutMs|bytes| |c'|sock|]; cbn [step].
    + left. unfold sendGameCommand.
      destruct (connected (gameConnection s')); [|reflexivity].
      destruct (socket (gameConnection s')); reflexivity.
    + right. left. exists bytes. reflexivity.
    + auto.
    + destruct (decide (c' = c)) as [->|Hne]; [auto|]. left.
      unfold timer_fired. destruct (timers s' !! c') as [[command timeoutMs]|]; [|reflexivity].
      rewrite settlements_settle. destruct (decide (c' = c)); [congruence|].
      rewrite app_nil_r. reflexivity.
    + left. reflexivity.
    + auto.
Qed.

(** What the close handler does to the connection: it clears [connected],
    the socket and the slot, notifies the pending resolver, and leaves the
    response buffer as it is. *)
Lemma close_event_state (s : GodotServer) :
  let s' := on_close s in
  connected (gameConnection s') = false
  /\ socket (gameConnection s') = None
  /\ pendingResolve (gameConnection s') = None
  /\ (forall c, pendingResolve (gameConnection s) = Some c ->
       settled s' = settled s ++ [(c, Resolved (error_object "Connection closed"))])
  /\ responseBuffer (gameConnection s') = responseBuffer (gameConnection s).
Proof.
  unfold on_close. simpl.
  destruct (pendingResolve (gameConnection s)) as [r|] eqn:Er; simpl.
  - repeat split. intros c [= ->]. reflexivity.
  - repeat split; try assumption. intros c. discriminate.
Qed.


Lemma attempts_made_cons (a : action) (acts : list action) :
  attempts_made (a :: acts)
  = ((if is_attempt a then 1 else 0) + attempts_made acts)%nat.
Proof.
  unfold attempts_made. rewrite filter_cons.
  destruct a; simpl; reflexivity.
Qed.


Lemma attempts_made_failed_turns (k : nat) (acts : list action) :
  attempts_made (failed_turns k ++ acts) = (k + attempts_made acts)%nat.
Proof.
  induction k as [|k IH]; simpl; [reflexivity|].
  rewrite !attempts_made_cons, IH. simpl. lia.
Qed.

Lemma connect_attempts_fail (k : nat) :
  forall remaining attempt env s,
  (forall i : nat, (i < k)%nat ->
     process_running (env (attempt + Z.of_nat i)) = true
     /\ connects (env (attempt + Z.of_nat i)) = None) ->
  (k <= remaining)%nat ->
  connect_attempts remaining attempt env s
  = let r := connect_attempts (remaining - k) (attempt + Z.of_nat k) env
               (logDebugs (failed_attempts k attempt) s) in
    (r.1, failed_turns k ++ r.2).
Proof.
  induction k as [|k IH]; intros remaining attempt env s Hf Hk.
  - simpl. rewrite Z.add_0_r, Nat.sub_0_r.
    destruct (connect_attempts remaining attempt env s); reflexivity.
  - destruct remaining as [|remaining]; [lia|].
    destruct (Hf 0%nat ltac:(lia)) as [Hrun Hcon]. rewrite Z.add_0_r in Hrun, Hcon.
    simpl connect_attempts at 1. rewrite Hrun, Hcon. simpl negb. cbv iota.
    rewrite (IH remaining (attempt + 1) env).
    + replace (attempt + Z.of_nat (S k)) with (attempt + 1 + Z.of_nat k) by lia.
      replace (S remaining - S k)%nat with (remaining - k)%nat by lia.
      simpl. destruct (connect_attempts (remaining - k) _ env _). reflexivity.
    + intros i Hi. replace (attempt + 1 + Z.of_nat i) with (attempt + Z.of_nat (S i)) by lia.
      apply Hf. lia.
    + lia.
Qed.

Lemma gameConnection_logDebugs (ds : list diagnostic) :
  forall s, gameConnection (logDebugs ds s) = gameConnection s.
Proof.
  induction ds as [|d ds IH]; intros s; simpl; [reflexivity|].
  unfold logDebugs in IH. rewrite IH. reflexivity.
Qed.

Lemma deliver_buffer (b : text) (l : text) (s : GodotServer) :
  deliver l (set_responseBuffer b s) = set_responseBuffer b (deliver l s).
Proof.
  unfold deliver. simpl.
  destruct (pendingResolve (gameConnection s)); [|reflexivity].
  destruct (_ >? 0); [|reflexivity].
  destruct (JSON_parse l); reflexivity.
Qed.

(** An empty line is skipped: nothing is parsed and nothing delivered. *)
Lemma empty_line_skipped (l : text) (s : GodotServer) :
  trim l = [] -> deliver (trim l) s = s.
Proof.
  unfold deliver. intros ->. destruct (pendingResolve (gameConnection s)); reflexivity.
Qed.

Lemma deliver_all_buffer (b : text) (ls : list text) :
  forall s, deliver_all ls (set_responseBuffer b s) = set_responseBuffer b (deliver_all ls s).
Proof.
  induction ls as [|l ls IH]; intros s; simpl; [reflexivity|].
  unfold deliver_all in *. simpl. rewrite deliver_buffer. apply IH.
Qed.

Lemma set_responseBuffer_same (s : GodotServer) :
  set_responseBuffer (responseBuffer (gameConnection s)) s = s.
Proof. destruct s as [[] ? ? ? ? ?]; reflexivity. Qed.

Lemma responseBuffer_deliver (l : text) (s : GodotServer) :
  responseBuffer (gameConnection (deliver l s)) = responseBuffer (gameConnection s).
Proof.
  unfold deliver.
  destruct (pendingResolve (gameConnection s)); [|reflexivity].
  destruct (_ >? 0); [|reflexivity].
  destruct (JSON_parse l); reflexivity.
Qed.

Lemma process_lines_lines (fuel : nat) :
  forall s,
  (length (lines (responseBuffer (gameConnection s))).1 <= fuel)%nat ->
  process_lines fuel s
  = set_responseBuffer (lines (responseBuffer (gameConnection s))).2
      (deliver_all (lines (responseBuffer (gameConnection s))).1 s).
Proof.
  induction fuel as [|fuel IH]; intros s Hf.
  - assert (Hn : ~ In LF (responseBuffer (gameConnection s))).
    { apply index_of_none. destruct (index_of_range (responseBuffer (gameConnection s))) as [E|E]; [lia|].
      apply lines_found in E. destruct (lines _).1; [congruence|simpl in Hf; lia]. }
    simpl. rewrite (index_of_absent _ _ Hn), (lines_no_line_feed _ Hn). simpl.
    symmetry. apply set_responseBuffer_same.
  - simpl. destruct (index_of_range (responseBuffer (gameConnection s))) as [E|E].
    + rewrite E. simpl.
      assert (Hn : ~ In LF (responseBuffer (gameConnection s))) by (apply index_of_none; lia).
      rewrite (lines_no_line_feed _ Hn). simpl. symmetry. apply set_responseBuffer_same.
    + destruct (Z.geb_spec (index_of LF (responseBuffer (gameConnection s))) 0) as [_|]; [|lia].
      destruct (index_of_split _ E) as (l & r & Eb & Hl & Ei).
      rewrite Ei, Eb, sub_prefix, from_pos_suffix.
      rewrite Eb, lines_first in Hf by assumption. simpl in Hf.
      rewrite IH.
      * rewrite responseBuffer_deliver. simpl.
        rewrite lines_first by assumption. simpl.
        rewrite deliver_buffer, deliver_all_buffer. reflexivity.
      * rewrite responseBuffer_deliver. simpl. lia.
Qed.

Lemma on_text_lines (t : text) (s : GodotServer) :
  on_text t s
  = set_responseBuffer (lines (responseBuffer (gameConnection s) ++ t)).2
      (deliver_all (lines (responseBuffer (gameConnection s) ++ t)).1 s).
Proof.
  unfold on_text. rewrite process_lines_lines; simpl.
  - rewrite deliver_all_buffer. reflexivity.
  - apply lines_length.
Qed.

Lemma deliver_all_app (l1 l2 : list text) (s : GodotServer) :
  deliver_all (l1 ++ l2) s = deliver_all l2 (deliver_all l1 s).
Proof. unfold deliver_all. apply fold_left_app. Qed.

(** At the level of text the controller's reader does not depend on how
    the stream is cut into chunks. *)
Lemma on_text_app (t1 t2 : text) (s : GodotServer) :
  on_text t2 (on_text t1 s) = on_text (t1 ++ t2) s.
Proof.
  rewrite (on_text_lines t1 s), (on_text_lines (t1 ++ t2) s), on_text_lines.
  simpl. rewrite app_assoc, (lines_app (responseBuffer (gameConnection s) ++ t1) t2).
  simpl. rewrite deliver_all_buffer, deliver_all_app. reflexivity.
Qed.

(** Neither does it at the level of bytes, when a chunk ends at a
    character boundary. *)
Lemma on_data_app (b1 b2 : list byte) (s : GodotServer) :
  Utf8.at_character_boundary b1 ->
  on_data b2 (on_data b1 s) = on_data (b1 ++ b2) s.
Proof.
  intros Hb. change (on_text (Utf8.decode b2) (on_text (Utf8.decode b1) s)
                     = on_text (Utf8.decode (b1 ++ b2)) s).
  rewrite Utf8Facts.decode_app by assumption. apply on_text_app.
Qed.


Lemma on_text_nil (s : GodotServer) :
  ~ In LF (responseBuffer (gameConnection s)) -> on_text [] s = s.
Proof.
  intros Hn. rewrite on_text_lines, app_nil_r, (lines_no_line_feed _ Hn). simpl.
  apply set_responseBuffer_same.
Qed.

Lemma on_text_chunks (chunks : list text) :
  forall s, ~ In LF (responseBuffer (gameConnection s)) ->
  fold_left (fun s t => on_text t s) chunks s = on_text (concat chunks) s.
Proof.
  induction chunks as [|t ts IH]; intros s Hn; simpl.
  - symmetry. apply on_text_nil. exact Hn.
  - rewrite IH, on_text_app; [reflexivity|].
    rewrite on_text_lines. simpl. apply lines_rest.
Qed.


End Correlator.
End ControllerSpec.

(** ** The controller's checks and parameter tables *)

Module ToolsSpec.
Import Controller Tools TextFacts.

(** *** Searching a text *)

Lemma starts_with_app (needle rest : text) : starts_with needle (needle ++ rest) = true.
Proof.
  induction needle as [|c needle IH]; simpl; [reflexivity|].
  rewrite N.eqb_refl. exact IH.
Qed.

Lemma includes_start (needle s : text) : starts_with needle s = true -> includes needle s = true.
Proof. intros E. destruct s; simpl; rewrite E; reflexivity. Qed.

Lemma includes_app (needle a b : text) : includes needle (a ++ needle ++ b) = true.
Proof.
  induction a as [|c a IH]; simpl.
  - apply includes_start, starts_with_app.
  - rewrite IH. apply orb_true_r.
Qed.

(** The first component starts the path, and every other one lies in it. *)
Lemma components_lie_in_path (path : text) :
  exists first others,
    components path = first :: others
    /\ (exists b, path = first ++ b)
    /\ (forall component, In component others -> exists a b, path = a ++ component ++ b).
Proof.
  induction path as [|c path (first & others & E & [b Hb] & Ho)]; simpl.
  - exists [], []. repeat split; [exists []; reflexivity|intros ? []].
  - destruct ((c =? 47)%N || (c =? 92)%N).
    + exists [], (components path). repeat split; [exists (c :: path); reflexivity|].
      intros component Hin. rewrite E in Hin. destruct Hin as [<-|Hin].
      * exists [c], b. simpl. congruence.
      * destruct (Ho _ Hin) as (a & b' & ->). exists (c :: a), b'. reflexivity.
    + rewrite E. exists (c :: first), others. repeat split.
      * exists b. simpl. congruence.
      * intros component Hin. destruct (Ho _ Hin) as (a & b' & ->).
        exists (c :: a), b'. reflexivity.
Qed.

Lemma component_included (path component : text) :
  In component (components path) -> includes component path = true.
Proof.
  destruct (components_lie_in_path path) as (first & others & E & [b Hb] & Ho).
  rewrite E. intros [<-|Hin].
  - rewrite Hb. apply (includes_app first [] b).
  - destruct (Ho _ Hin) as (a & b' & ->). apply includes_app.
Qed.

(** X1. A path that [validatePath] accepts is not empty and none of its
    components, whether cut at [/] or at [\], is the parent directory
    [..]. *)
Theorem accepted_path_stays_below (path : text) :
  validatePath (Str path) = Some true ->
  path <> [] /\ Forall (fun component => Text.eqb component ".." = false) (components path).
Proof.
  destruct path as [|c path]; [discriminate|].
  change (validatePath (Str (c :: path))) with (Some (negb (includes ".." (c :: path)))).
  destruct (includes ".." (c :: path)) eqn:Hi; [discriminate|]. intros _.
  split; [discriminate|]. apply List.Forall_forall. intros component Hin.
  destruct (Text.eqb component "..") eqn:E; [|reflexivity].
  apply eqb_eq in E. subst component.
  apply component_included in Hin. rewrite Hin in Hi. discriminate Hi.
Qed.

(** *** Version numbers *)

Lemma uint_text_digits (d : Decimal.uint) :
  forallb is_decimal_digit (uint_text d) = true.
Proof. induction d; simpl; auto. Qed.

Lemma digit_run_app (ds rest : text) :
  forallb is_decimal_digit ds = true -> no_digit_ahead rest = true ->
  digit_run (ds ++ rest) = (ds, rest).
Proof.
  intros Hd Hr. induction ds as [|c ds IH]; simpl in *.
  - destruct rest as [|c rest]; [reflexivity|]. simpl in Hr.
    apply negb_true_iff in Hr. simpl. rewrite Hr. reflexivity.
  - apply andb_true_iff in Hd as [Hc Hd]. rewrite Hc, (IH Hd). reflexivity.
Qed.

Lemma parseInt_acc (d : Decimal.uint) :
  forall acc : nat,
  fold_left (fun acc c => 10 * acc + (Z.of_N c - 48)) (uint_text d) (Z.of_nat acc)
  = Z.of_nat (Nat.of_uint_acc d acc).
Proof.
  induction d; intros acc; simpl; [reflexivity|..];
    rewrite <- IHd, Nat.tail_mul_spec; f_equal; lia.
Qed.

Lemma parseInt_decimal (n : nat) : parseInt (decimal n) = Z.of_nat n.
Proof.
  unfold parseInt, decimal. rewrite (parseInt_acc _ 0).
  change (Nat.of_uint_acc (Nat.to_uint n) 0) with (Nat.of_uint (Nat.to_uint n)).
  rewrite DecimalNat.Unsigned.of_to. reflexivity.
Qed.

Lemma decimal_not_empty (n : nat) : exists c ds, decimal n = c :: ds.
Proof.
  unfold decimal. destruct (Nat.to_uint n) eqn:E; simpl; eauto.
  pose proof (DecimalNat.Unsigned.of_to n) as Hn. rewrite E in Hn. simpl in Hn. subst n.
  discriminate E.
Qed.

(** X2. On a version text that starts with [major.minor], as the engine
    prints it, [isGodot44OrLater] compares the two numbers with 4.4 as
    numbers: 4.10 is later than 4.4, 3.6 and 4.3 are not, whatever follows
    the minor number. A text that does not start with a digit (["v4.4"])
    is never 4.4 or later. *)
Theorem version_compared_as_numbers :
  (forall (major minor : nat) (rest : text),
     no_digit_ahead rest = true ->
     isGodot44OrLater (decimal major ++ [46%N] ++ decimal minor ++ rest)
     = (4 <? major)%nat || ((major =? 4)%nat && (4 <=? minor)%nat))
  /\ (forall (c : N) (rest : text),
       is_decimal_digit c = false -> isGodot44OrLater (c :: rest) = false).
Proof.
  split.
  - intros major minor rest Hr. unfold isGodot44OrLater.
    rewrite digit_run_app; [|apply uint_text_digits|reflexivity].
    pose proof (parseInt_decimal major) as Pmajor.
    destruct (decimal_not_empty major) as (c & ds & E). rewrite E in *. simpl app. cbv beta iota.
    rewrite digit_run_app; [|apply uint_text_digits|exact Hr].
    pose proof (parseInt_decimal minor) as Pminor.
    destruct (decimal_not_empty minor) as (c' & ds' & E'). rewrite E' in *. cbv beta iota zeta.
    rewrite Pmajor, Pminor.
    destruct (Nat.ltb_spec 4 major), (Nat.eqb_spec major 4), (Nat.leb_spec 4 minor);
      simpl; lia.
  - intros c rest Hc. unfold isGodot44OrLater. simpl. rewrite Hc. reflexivity.
Qed.

(** *** The parameter names *)

Lemma eqb_refl (a : text) : Text.eqb a a = true.
Proof. apply eqb_eq. reflexivity. Qed.

Lemma eqb_sym (a b : text) : Text.eqb a b = Text.eqb b a.
Proof.
  destruct (Text.eqb a b) eqn:E.
  - apply eqb_eq in E. subst. symmetry. apply eqb_refl.
  - destruct (Text.eqb b a) eqn:E'; [|reflexivity].
    apply eqb_eq in E'. subst. rewrite eqb_refl in E. discriminate.
Qed.

Lemma obj_get_set {A} (o : list (text * A)) (k key : text) (v : A) :
  obj_get (obj_set o k v) key = if Text.eqb k key then Some v else obj_get o key.
Proof.
  induction o as [|[k' v'] o IH]; simpl.
  - reflexivity.
  - destruct (Text.eqb k' k) eqn:E; simpl.
    + apply eqb_eq in E. subst k'. destruct (Text.eqb k key); reflexivity.
    + rewrite IH. destruct (Text.eqb k' key) eqn:E'; [|reflexivity].
      apply eqb_eq in E'. subst key. rewrite eqb_sym, E. reflexivity.
Qed.

Lemma obj_get_In {A} (o : list (text * A)) (key : text) (v : A) :
  obj_get o key = Some v -> In (key, v) o.
Proof.
  induction o as [|[k' v'] o IH]; simpl; [discriminate|].
  destruct (Text.eqb k' key) eqn:E.
  - apply eqb_eq in E. intros [= ->]. left. congruence.
  - auto.
Qed.

(** What the two tables hold, checked entry by entry. *)
Lemma tables_checked :
  forallb (fun kv =>
             (if includes "_" kv.1
              then match obj_get (entries parameterMappings) kv.1 with
                   | Some camel => Text.eqb camel kv.2
                   | None => false
                   end
              else Text.eqb kv.1 kv.2)
             && match obj_get reverseParameterMappings kv.2 with
                | Some snake => Text.eqb snake kv.1
                | None => false
                end
             && negb (Text.eqb kv.2 "__proto__"))
    (entries parameterMappings) = true
  /\ forallb (fun kv => implb (forallb (fun c => negb (is_upper c)) kv.1) (Text.eqb kv.2 kv.1))
       reverseParameterMappings = true.
Proof. split; vm_compute; reflexivity. Qed.

Lemma camel_to_snake_lower (key : text) :
  forallb (fun c => negb (is_upper c)) key = true -> camel_to_snake key = key.
Proof.
  induction key as [|c key IH]; simpl; [reflexivity|].
  intros Hk. apply andb_true_iff in Hk as [Hc Hk]. apply negb_true_iff in Hc.
  unfold camel_to_snake in *. simpl. rewrite Hc, (IH Hk). reflexivity.
Qed.

Section Renaming.
Context `{ObjectPrototype}.

Lemma table_entry (snake camel : text) :
  In (snake, camel) (entries parameterMappings) ->
  normalizedKey snake = camel /\ snakeKey camel = snake /\ camel <> lit "__proto__".
Proof.
  intros Hin. destruct tables_checked as [Ht _].
  rewrite forallb_forall in Ht. specialize (Ht _ Hin). cbn [fst snd] in Ht.
  apply andb_true_iff in Ht as [Ht Hp]. apply andb_true_iff in Ht as [Hn Hs].
  repeat split.
  - unfold normalizedKey, member. destruct (includes "_" snake).
    + destruct (obj_get (entries parameterMappings) snake); [|discriminate].
      apply eqb_eq in Hn. exact Hn.
    + apply eqb_eq in Hn. exact Hn.
  - unfold snakeKey, member. destruct (obj_get reverseParameterMappings camel); [|discriminate].
    apply eqb_eq in Hs. exact Hs.
  - intros E. apply negb_true_iff in Hp. rewrite E, eqb_refl in Hp. discriminate.
Qed.

Lemma snakeKey_lower (key : text) :
  forallb (fun c => negb (is_upper c)) key = true -> inherited key = None ->
  snakeKey key = key.
Proof.
  intros Hl Hi. unfold snakeKey, member.
  destruct (obj_get reverseParameterMappings key) as [snake|] eqn:E.
  - apply obj_get_In in E. destruct tables_checked as [_ Hr].
    rewrite forallb_forall in Hr. specialize (Hr _ E). cbn [fst snd] in Hr.
    rewrite Hl in Hr. simpl implb in Hr. apply eqb_eq in Hr. exact Hr.
  - rewrite Hi. apply camel_to_snake_lower, Hl.
Qed.

Lemma snake_cased_key_spec (key : text) :
  snake_cased_key key = true ->
  forallb (fun c => negb (is_upper c)) key = true /\ inherited key = None
  /\ Text.eqb key "__proto__" = false.
Proof.
  unfold snake_cased_key. intros Hk.
  apply andb_true_iff in Hk as [Hk Hp]. apply andb_true_iff in Hk as [Hl Hi].
  apply negb_true_iff in Hp. destruct (inherited key); [discriminate|]. auto.
Qed.

(** A key in snake_case is stored under itself or under the camelCase
    name the table gives it. *)
Lemma normalizedKey_cases (key : text) :
  snake_cased_key key = true ->
  normalizedKey key = key \/ In (key, normalizedKey key) (entries parameterMappings).
Proof.
  intros Hk. apply snake_cased_key_spec in Hk as (_ & Hi & _).
  unfold normalizedKey, member. destruct (includes "_" key); [|auto].
  destruct (obj_get (entries parameterMappings) key) as [camel|] eqn:E.
  - right. apply obj_get_In, E.
  - rewrite Hi. auto.
Qed.

Lemma snake_of_normalized (key : text) :
  snake_cased_key key = true -> snakeKey (normalizedKey key) = key.
Proof.
  intros Hk. destruct (normalizedKey_cases key Hk) as [->|Hin].
  - apply snake_cased_key_spec in Hk as (Hl & Hi & _). apply snakeKey_lower; assumption.
  - apply table_entry in Hin. tauto.
Qed.

Lemma normalized_not_proto (key : text) :
  snake_cased_key key = true -> Text.eqb (normalizedKey key) "__proto__" = false.
Proof.
  intros Hk. destruct (normalizedKey_cases key Hk) as [->|Hin].
  - apply snake_cased_key_spec in Hk. tauto.
  - apply table_entry in Hin as (_ & _ & Hp).
    destruct (Text.eqb _ _) eqn:E; [|reflexivity]. apply eqb_eq in E. contradiction.
Qed.

(** X3. The two renamings undo each other. A key written in snake_case
    (no ASCII capital, and not a name [Object.prototype] has a member for)
    that [normalizeParameters] has renamed is renamed back to itself by
    [convertCamelToSnakeCase]; and each pair of the table is mapped one way
    by the first and back by the second. *)
Theorem renamings_are_inverse :
  (forall key : text, snake_cased_key key = true -> snakeKey (normalizedKey key) = key)
  /\ (forall snake camel : string,
       In (snake, camel) parameterMappings ->
       normalizedKey snake = camel /\ snakeKey camel = snake).
Proof.
  split; [exact snake_of_normalized|].
  intros snake camel Hin.
  assert (Hin' : In (lit snake, lit camel) (entries parameterMappings)).
  { unfold entries. apply in_map_iff. exists (snake, camel). auto. }
  apply table_entry in Hin'. tauto.
Qed.

(** *** Renaming the keys of an object *)

Lemma assign_lookup (result : list (text * any)) (k key : text) (v : any) :
  Text.eqb key "__proto__" = false ->
  obj_get (obj_assign result k v) key
  = if Text.eqb k key then Some v else obj_get result key.
Proof.
  intros Hp. unfold obj_assign. destruct (Text.eqb k "__proto__") eqn:E.
  - apply eqb_eq in E. subst k. rewrite eqb_sym, Hp. reflexivity.
  - apply obj_get_set.
Qed.

Lemma renamed_lookup (rename : text -> text) (fields : list (text * any)) (key : text) :
  Text.eqb key "__proto__" = false ->
  obj_get (fold_left (fun result kv => obj_assign result (rename kv.1) kv.2) fields []) key
  = last_renamed rename fields key.
Proof.
  intros Hp. unfold last_renamed.
  induction fields as [|kv fields IH] using rev_ind; [reflexivity|].
  rewrite fold_left_app, rev_app_distr. cbn [fold_left rev app find].
  rewrite assign_lookup by exact Hp.
  destruct (Text.eqb (rename kv.1) key); [reflexivity|exact IH].
Qed.

Lemma proto_never_set (rename : text -> text) (fields : list (text * any)) :
  obj_get (fold_left (fun result kv => obj_assign result (rename kv.1) kv.2) fields [])
    "__proto__" = None.
Proof.
  induction fields as [|kv fields IH] using rev_ind; [reflexivity|].
  rewrite fold_left_app. cbn [fold_left]. unfold obj_assign at 1.
  destruct (Text.eqb (rename kv.1) "__proto__") eqn:E; [exact IH|].
  rewrite obj_get_set, E. exact IH.
Qed.

Lemma last_renamed_map (rename : text -> text) (g : any -> any)
  (fields : list (text * any)) (key : text) :
  last_renamed rename (map (fun kv => (kv.1, g kv.2)) fields) key
  = g <$> last_renamed rename fields key.
Proof.
  unfold last_renamed. rewrite <- map_rev.
  induction (rev fields) as [|kv l IH]; [reflexivity|]. simpl.
  destruct (Text.eqb (rename kv.1) key); [reflexivity|exact IH].
Qed.

(** X4. What an object holds under a key after its keys were renamed: the
    value of the last property whose key is renamed to that key, so when an
    argument is given in both spellings the later one wins; nested objects
    are renamed in the same way and everything else (arrays too) is kept
    as it is. No property is ever stored under [__proto__]. *)
Theorem last_spelling_wins (fields : list (text * any)) (key : text) :
  obj_get (properties (normalizeParameters (Obj fields))) key
  = (if Text.eqb key "__proto__" then None
     else (fun v => match v with Obj _ => normalizeParameters v | _ => v end)
          <$> last_renamed normalizedKey fields key)
  /\ obj_get (properties (convertCamelToSnakeCase (Obj fields))) key
    = (if Text.eqb key "__proto__" then None
       else (fun v => match v with Obj _ => convertCamelToSnakeCase v | _ => v end)
            <$> last_renamed snakeKey fields key).
Proof.
  destruct (Text.eqb key "__proto__") eqn:Hp.
  - apply eqb_eq in Hp. subst key. split; apply proto_never_set.
  - split; simpl properties; rewrite (renamed_lookup _ _ _ Hp).
    + apply (last_renamed_map normalizedKey
               (fun v => match v with Obj _ => normalizeParameters v | _ => v end)).
    + apply (last_renamed_map snakeKey
               (fun v => match v with Obj _ => convertCamelToSnakeCase v | _ => v end)).
Qed.

(** *** A request in snake_case *)

Lemma distinct_spec (keys : list text) (k : text) :
  distinct (k :: keys) = true ->
  Forall (fun k' => Text.eqb k k' = false) keys /\ distinct keys = true.
Proof.
  simpl. intros Hd. apply andb_true_iff in Hd as [Hk Hd]. split; [|exact Hd].
  apply negb_true_iff in Hk. apply List.Forall_forall. intros k' Hin.
  destruct (Text.eqb k k') eqn:E; [|reflexivity].
  assert (existsb (Text.eqb k) keys = true) by (apply existsb_exists; eauto). congruence.
Qed.

Lemma obj_set_fresh {A} (o : list (text * A)) (k : text) (v : A) :
  Forall (fun kv => Text.eqb kv.1 k = false) o -> obj_set o k v = o ++ [(k, v)].
Proof.
  induction 1 as [|[k' v'] o Hk _ IH]; simpl; [reflexivity|].
  simpl in Hk. rewrite Hk, IH. reflexivity.
Qed.

(** Renaming that keeps the keys apart, and away from [__proto__], renames
    the properties one by one, in place. *)
Lemma renamed_in_place (rename back : text -> text) (fields : list (text * any)) :
  distinct (map fst fields) = true ->
  Forall (fun kv => back (rename kv.1) = kv.1
                    /\ Text.eqb (rename kv.1) "__proto__" = false) fields ->
  fold_left (fun result kv => obj_assign result (rename kv.1) kv.2) fields []
  = map (fun kv => (rename kv.1, kv.2)) fields.
Proof.
  intros Hd Hf.
  enough (G : forall acc,
             Forall (fun kv => Forall (fun a => Text.eqb a.1 (rename kv.1) = false) acc) fields ->
             fold_left (fun result kv => obj_assign result (rename kv.1) kv.2) fields acc
             = acc ++ map (fun kv => (rename kv.1, kv.2)) fields).
  { apply (G []). apply List.Forall_forall. intros; constructor. }
  induction fields as [|[k v] fields IH]; intros acc Hacc; cbn [fold_left map fst snd].
  - symmetry. apply app_nil_r.
  - apply Forall_cons_1 in Hacc as [Hk Hacc]. apply Forall_cons_1 in Hf as [[Hb Hp] Hf].
    cbn [map fst snd] in Hd. apply distinct_spec in Hd as [Hk' Hd]. cbn [fst snd] in *.
    unfold obj_assign at 2. rewrite Hp, (obj_set_fresh _ _ _ Hk).
    rewrite (IH Hd Hf), <- app_assoc; [reflexivity|].
    apply List.Forall_forall. intros [k2 v2] Hin. cbn [fst snd].
    apply Forall_app. split.
    + rewrite List.Forall_forall in Hacc. apply (Hacc _ Hin).
    + repeat constructor. cbn [fst snd].
      destruct (Text.eqb (rename k) (rename k2)) eqn:E; [|reflexivity].
      apply eqb_eq in E.
      rewrite List.Forall_forall in Hf. destruct (Hf _ Hin) as [Hb2 _]. cbn [fst snd] in Hb2.
      assert (k = k2) by congruence. subst k2.
      rewrite List.Forall_forall in Hk'.
      assert (Hkk : Text.eqb k k = false).
      { apply Hk'. apply in_map_iff. exists (k, v2). auto. }
      rewrite eqb_refl in Hkk. discriminate.
Qed.

Lemma distinct_map (f back : text -> text) (keys : list text) :
  (forall k, In k keys -> back (f k) = k) ->
  distinct keys = true -> distinct (map f keys) = true.
Proof.
  induction keys as [|k keys IH]; intros Hb Hd; [reflexivity|].
  apply distinct_spec in Hd as [Hk Hd]. cbn [map distinct].
  rewrite IH by (auto using in_cons). rewrite andb_true_r. apply negb_true_iff.
  destruct (existsb (Text.eqb (f k)) (map f keys)) eqn:E; [|reflexivity].
  apply existsb_exists in E as (k' & Hin & E). apply in_map_iff in Hin as (k2 & <- & Hin).
  apply eqb_eq in E.
  assert (k = k2) by (rewrite <- (Hb k), <- (Hb k2), E; auto using in_eq, in_cons).
  subst k2. rewrite List.Forall_forall in Hk. specialize (Hk k Hin). cbv beta in Hk.
  rewrite eqb_refl in Hk. discriminate.
Qed.

Lemma any_nested_ind (P : any -> Prop) :
  P Null -> (forall b, P (Bool b)) -> (forall n, P (Number n)) -> (forall s, P (Str s)) ->
  (forall items, Forall P items -> P (Arr items)) ->
  (forall fields, Forall (fun kv => P kv.2) fields -> P (Obj fields)) ->
  forall v, P v.
Proof.
  intros HN HB HNum HS HA HO. fix IH 1. intros [|b|n|s|items|fields].
  - exact HN.
  - apply HB.
  - apply HNum.
  - apply HS.
  - apply HA. induction items as [|v items IHi]; constructor; [apply IH|exact IHi].
  - apply HO. induction fields as [|[k v] fields IHf]; constructor; [apply IH|exact IHf].
Qed.

Lemma snake_cased_fields (fields : list (text * any)) :
  snake_cased (Obj fields) = true ->
  distinct (map fst fields) = true
  /\ Forall (fun kv => snake_cased_key kv.1 = true /\ snake_cased kv.2 = true) fields.
Proof.
  simpl. intros Hs. apply andb_true_iff in Hs as [Hd Hf]. split; [exact Hd|].
  apply List.Forall_forall. intros kv Hin. rewrite forallb_forall in Hf.
  specialize (Hf kv Hin). apply andb_true_iff in Hf. exact Hf.
Qed.

(** X5. A request whose keys are in snake_case, and distinct, comes out of
    [normalizeParameters] followed by [convertCamelToSnakeCase] as it went
    in: same keys, same order, same values, down through the objects it
    holds. *)
Theorem snake_case_request_survives (fields : list (text * any)) :
  snake_cased (Obj fields) = true ->
  convertCamelToSnakeCase (normalizeParameters (Obj fields)) = Obj fields.
Proof.
  revert fields.
  enough (G : forall v, snake_cased v = true ->
                match v with
                | Obj _ => convertCamelToSnakeCase (normalizeParameters v) = v
                | _ => True
                end).
  { intros fields Hs. apply (G (Obj fields) Hs). }
  induction v as [|b|n|s|items _|fields IH] using any_nested_ind; try exact (fun _ => I).
  intros Hs. apply snake_cased_fields in Hs as [Hd Hf].
  set (nn := fun v => match v with Obj _ => normalizeParameters v | _ => v end).
  set (cn := fun v => match v with Obj _ => convertCamelToSnakeCase v | _ => v end).
  change (normalizeParameters (Obj fields))
    with (Obj (fold_left (fun result kv => obj_assign result (normalizedKey kv.1) kv.2)
                 (map (fun kv => (kv.1, nn kv.2)) fields) [])).
  rewrite (renamed_in_place normalizedKey snakeKey).
  2:{ rewrite map_map. exact Hd. }
  2:{ apply Forall_map. eapply Forall_impl; [exact Hf|]. intros [k v] [Hk _]. cbn [fst snd].
      split; [apply snake_of_normalized, Hk|apply normalized_not_proto, Hk]. }
  rewrite map_map. cbn [fst snd].
  change (convertCamelToSnakeCase (Obj ?l))
    with (Obj (fold_left (fun result kv => obj_assign result (snakeKey kv.1) kv.2)
                 (map (fun kv => (kv.1, cn kv.2)) l) [])).
  rewrite map_map. cbn [fst snd].
  rewrite (renamed_in_place snakeKey normalizedKey).
  2:{ rewrite map_map. cbn [fst]. rewrite <- (map_map fst normalizedKey).
      apply (distinct_map normalizedKey snakeKey); [|exact Hd].
      intros k Hin. apply in_map_iff in Hin as ([k' v] & <- & Hin).
      rewrite List.Forall_forall in Hf. destruct (Hf _ Hin) as [Hk _].
      apply snake_of_normalized, Hk. }
  2:{ apply Forall_map. eapply Forall_impl; [exact Hf|]. intros [k v] [Hk _]. cbn [fst snd].
      rewrite (snake_of_normalized k Hk). split; [reflexivity|].
      apply snake_cased_key_spec in Hk. tauto. }
  rewrite map_map. cbn [fst snd]. f_equal.
  rewrite <- (map_id fields) at 2. apply map_ext_in. intros [k v] Hin. cbn [fst snd].
  rewrite List.Forall_forall in Hf, IH. destruct (Hf _ Hin) as [Hk Hv]. cbn [fst snd] in Hk, Hv.
  rewrite (snake_of_normalized k Hk). f_equal.
  specialize (IH _ Hin Hv). cbn [snd] in IH.
  destruct v; try reflexivity. exact IH.
Qed.

End Renaming.

End ToolsSpec.

(** ** The agent's handlers for keys, properties and the scene tree *)

Module SceneSpec.
Import Godot Agent Scene TextFacts.

(** *** Indentation *)

Lemma split_cons (s : text) : exists line lines, split s = line :: lines.
Proof.
  induction s as [|c s (line & lines & E)]; simpl; [eauto|].
  destruct (N.eqb c LF); [eauto|]. rewrite E. eauto.
Qed.

Lemma split_no_line_feed (s : text) : Forall (fun line => ~ In LF line) (split s).
Proof.
  induction s as [|c s IH]; simpl.
  - repeat constructor. intros [].
  - destruct (N.eqb_spec c LF) as [->|Hne].
    + constructor; [intros []|exact IH].
    + destruct (split s) as [|line lines]; [repeat constructor; intros [|[]]; auto|].
      apply Forall_cons_1 in IH as [Hl IH]. constructor; [|exact IH].
      intros [E|Hin]; auto.
Qed.

Lemma join_split (s : text) : join_lines (split s) = s.
Proof.
  induction s as [|c s IH]; simpl; [reflexivity|].
  destruct (N.eqb_spec c LF) as [->|Hne].
  - destruct (split_cons s) as (line & lines & E). rewrite E in *.
    change (join_lines ([] :: line :: lines)) with ([] ++ [LF] ++ join_lines (line :: lines)).
    rewrite IH. reflexivity.
  - destruct (split s) as [|line [|line' lines]]; simpl in *; congruence.
Qed.

Lemma fold_left_append {A} (f : A -> text) (l : list A) (acc : text) :
  fold_left (fun acc x => acc ++ f x) l acc = acc ++ concat (map f l).
Proof.
  revert acc. induction l as [|x l IH]; intros acc; simpl.
  - symmetry. apply app_nil_r.
  - rewrite IH, app_assoc. reflexivity.
Qed.

Lemma lines_of_lines (ls : list text) :
  Forall (fun line => ~ In LF line) ls ->
  Text.lines (concat (map (fun line => line ++ [LF]) ls)) = (ls, []).
Proof.
  induction 1 as [|line ls Hl _ IH]; simpl; [reflexivity|].
  rewrite <- app_assoc. simpl. rewrite lines_first by exact Hl.
  rewrite IH. reflexivity.
Qed.

(** X6. [_indent_code] keeps the lines of the code: the result is made of
    as many lines, each the line of the code with a tab before it and a
    line feed after it, so no line of it starts at the left margin; and
    taking the tabs away gives the code back. *)
Theorem indentation_keeps_lines (code : text) :
  Text.lines (_indent_code code) = (map (cons TAB) (split code), [])
  /\ join_lines (map (skipn 1) (Text.lines (_indent_code code)).1) = code.
Proof.
  assert (E : Text.lines (_indent_code code) = (map (cons TAB) (split code), [])).
  { unfold _indent_code.
    rewrite (fold_left_append (fun line => [TAB] ++ line ++ [LF])). simpl app.
    rewrite <- (map_map (cons TAB) (fun line => line ++ [LF])).
    apply lines_of_lines. apply Forall_map.
    eapply Forall_impl; [apply split_no_line_feed|].
    intros line Hl [E|Hin]; [discriminate E|auto]. }
  split; [exact E|]. rewrite E. cbn [fst].
  rewrite map_map. cbn [skipn]. rewrite map_id. apply join_split.
Qed.

(** *** Key names *)

Lemma ascii_keys_checked :
  forallb (fun c => keycode_of [ascii_upper c] [c] =? Z.of_N (ascii_upper c))
    (map N.of_nat (seq 0 128)) = true
  /\ forallb (fun entry => match key_map_find key_map (lit entry.1) with
                           | Some code => code =? entry.2
                           | None => false
                           end) key_map = true.
Proof. split; vm_compute; reflexivity. Qed.

Lemma ascii_below_128 (c : N) : (c < 128)%N -> In c (map N.of_nat (seq 0 128)).
Proof.
  intros Hc. apply in_map_iff. exists (N.to_nat c). split; [apply N2Nat.id|].
  apply in_seq. lia.
Qed.

Section Keys.
Context `{Casing} `{!CasingLaws}.

Lemma to_upper_ascii (s : text) :
  Forall (fun c => (c < 128)%N) s -> to_upper s = map ascii_upper s.
Proof.
  unfold to_upper. induction 1 as [|c s Hc _ IH]; simpl; [reflexivity|].
  rewrite IH, (uppercase_ascii c Hc). reflexivity.
Qed.

(** X7. A key given as one ASCII character is the code point of its
    capital: a letter in either case is the letter's key, a digit or a
    sign is its own code point. A key given by a name of the table is found
    whatever the case it is written in. A text of another length that is
    no name of the table is no key. *)
Theorem key_names_ignore_case :
  (forall c : N, (c < 128)%N -> _string_to_keycode [c] = Z.of_N (ascii_upper c))
  /\ (forall (name : string) (code : Z) (key_str : text),
       In (name, code) key_map ->
       Forall (fun c => (c < 128)%N) key_str ->
       map ascii_upper key_str = lit name ->
       _string_to_keycode key_str = code)
  /\ (forall key_str : text,
       key_map_find key_map (to_upper key_str) = None ->
       length key_str <> 1%nat ->
       _string_to_keycode key_str = KEY_NONE).
Proof.
  destruct ascii_keys_checked as [Hc Hn]. rewrite forallb_forall in Hc, Hn.
  repeat split.
  - intros c Hlt. unfold _string_to_keycode.
    rewrite to_upper_ascii by (repeat constructor; exact Hlt).
    apply Z.eqb_eq, Hc, ascii_below_128, Hlt.
  - intros name code key_str Hin Ha Hu. unfold _string_to_keycode, keycode_of.
    rewrite to_upper_ascii, Hu by exact Ha.
    specialize (Hn _ Hin). cbn [fst snd] in Hn.
    destruct (key_map_find key_map name); [|discriminate].
    apply Z.eqb_eq in Hn. exact Hn.
  - intros key_str Hf Hl. unfold _string_to_keycode, keycode_of. rewrite Hf.
    destruct key_str as [|c [|c' r]]; try reflexivity. simpl in Hl. congruence.
Qed.

End Keys.

(** *** Walks of the scene tree *)

Section Trees.
Context `{Num}.

Lemma Node_nested_ind (P : Node.t -> Prop) :
  (forall node, Forall P (Node.get_children node) -> P node) -> forall node, P node.
Proof.
  intros step. fix IH 1. intros node. apply step.
  destruct node as [name class path is_class control children]. simpl.
  induction children as [|child children IHc]; constructor; [apply IH|exact IHc].
Qed.

Lemma mapM_map_Some {A B C} (f : B -> option C) (g : A -> B) (h : A -> C) (l : list A) :
  Forall (fun x => f (g x) = Some (h x)) l -> mapM f (map g l) = Some (map h l).
Proof.
  induction 1 as [|x l Hx _ IH]; [reflexivity|].
  cbn [map mapM]. rewrite Hx, IH. reflexivity.
Qed.

Lemma read_outline_enough (node : Node.t) :
  forall depth, (height node <= depth)%nat ->
  read_outline depth (_build_tree_node node) = Some (outline_of node).
Proof.
  induction node as [node IH] using Node_nested_ind. intros [|depth] Hd.
  - destruct node. simpl in Hd. lia.
  - destruct node as [name class path is_class control children].
    cbn [height Node.get_children] in Hd, IH.
    assert (Hc : mapM (read_outline depth) (map _build_tree_node children)
                 = Some (map outline_of children)).
    { apply mapM_map_Some. rewrite List.Forall_forall in IH |- *. intros child Hin.
      apply IH; [exact Hin|].
      assert (Hm : (list_max (map height children) <= depth)%nat) by lia.
      rewrite list_max_le in Hm. rewrite List.Forall_forall in Hm.
      apply Hm, in_map, Hin. }
    destruct children as [|child children].
    + reflexivity.
    + cbn [_build_tree_node outline_of Node.get_children Node.name Node.get_class].
      change (Z.of_nat (length (map _build_tree_node (child :: children))) >? 0) with true.
      cbv iota.
      change (read_outline (S depth) ?t)
        with (match mapM (read_outline depth) (map _build_tree_node (child :: children)) with
              | Some kids => Some (Outline name class kids)
              | None => None
              end).
      rewrite Hc. reflexivity.
Qed.

(** X8. The tree [_build_tree_node] makes of a node tells the names, the
    classes and the shape of everything below the node: reading it back
    gives the node's tree of names and classes, the children in their
    order, the node itself when it has no child.  The dictionary has the
    keys ["name"] and ["type"], in this order, and after them the key
    ["children"] only when the node has a child: a node without children
    gets no ["children"] key, and a node with children gets under it the
    array of its children's dictionaries. *)
Theorem scene_tree_reads_back (node : Node.t) :
  read_outline (height node) (_build_tree_node node) = Some (outline_of node)
  /\ exists info : Dictionary,
       _build_tree_node node = VDictionary info
       /\ map fst info
          = [VString "name"; VString "type"]
            ++ match Node.get_children node with
               | [] => []
               | _ :: _ => [VString "children"]
               end
       /\ dict_has info "children"
          = match Node.get_children node with [] => false | _ :: _ => true end
       /\ dict_find info "children"
          = match Node.get_children node with
            | [] => None
            | _ :: _ => Some (VArray (map _build_tree_node (Node.get_children node)))
            end.
Proof.
  split; [apply read_outline_enough; lia|].
  destruct node as [name class path is_class control [|child children]].
  - eexists. split; [reflexivity|]. repeat split.
  - eexists. split; [reflexivity|]. repeat split.
Qed.

Lemma walk_appends (visit : Node.t -> list variant) (children : list Node.t)
  (walk : Node.t -> list variant -> list variant) :
  Forall (fun child => forall acc, walk child acc = acc ++ visit child) children ->
  forall acc,
  fold_left (fun acc child => walk child acc) children acc
  = acc ++ flat_map visit children.
Proof.
  induction 1 as [|child children Hc _ IH]; intros acc; simpl.
  - symmetry. apply app_nil_r.
  - rewrite IH, Hc, app_assoc. reflexivity.
Qed.

Lemma visit_preorder (entry : Node.t -> variant) (keep : Node.t -> bool)
  (children : list Node.t) :
  flat_map (fun child => map entry (List.filter keep (preorder child))) children
  = map entry (List.filter keep (flat_map preorder children)).
Proof.
  induction children as [|child children IH]; simpl; [reflexivity|].
  rewrite IH, List.filter_app, map_app. reflexivity.
Qed.

(** X9. [_find_by_class_recursive] adds to the results one entry for each
    node, from the given one down, that is of the class or inherits it:
    every such node once, none else, each before the nodes below it and
    the children in their order; what was in the results stays in
    front. *)
Theorem class_search_finds_matches (node : Node.t) (class_filter : text)
  (results : list variant) :
  _find_by_class_recursive node class_filter results
  = results ++ map node_entry (List.filter (of_class class_filter) (preorder node)).
Proof.
  revert results. induction node as [node IH] using Node_nested_ind. intros results.
  destruct node as [name class path is_class control children]. cbn [Node.get_children] in IH.
  cbn [_find_by_class_recursive preorder List.filter Node.get_children
       Node.get_class Node.is_class].
  rewrite (walk_appends
             (fun child => map node_entry (List.filter (of_class class_filter) (preorder child))))
    by exact IH.
  rewrite visit_preorder. unfold of_class at 2. cbn [Node.get_class Node.is_class].
  destruct (Text.eqb class class_filter || is_class class_filter).
  - rewrite <- app_assoc. reflexivity.
  - reflexivity.
Qed.

End Trees.

Section Listing.
Context `{Num} `{!FloatTests}.


End Listing.

(** *** Properties *)

Section Properties.
Context `{Num} `{!NumLaws} `{!Str} `{!Engine} `{!SceneTree} `{!Casing} `{!FloatTests}.

Lemma typed_arm_structured (hint : text) (id : Z) (value : variant) :
  type_constant hint = Some id ->
  typed_arm id value = Some (_json_to_variant value hint).
Proof.
  unfold type_constant.
  repeat match goal with
         | |- (if Text.eqb hint ?k then _ else _) = _ -> _ =>
             destruct (Text.eqb hint k) eqn:E;
             [apply eqb_eq in E; subst hint; intros [= <-]; reflexivity|clear E]
         end.
  discriminate.
Qed.

Lemma for_property_skips (before rest : list Dictionary) (property : text) (value : variant) :
  other_properties property before ->
  for_property (before ++ rest) property value = for_property rest property value.
Proof.
  induction 1 as [|prop before (name & Hn & Hne) _ IH]; [reflexivity|].
  cbn [app for_property]. rewrite Hn. cbn [mbind option_bind equals_string].
  rewrite Hne. exact IH.
Qed.

Lemma for_property_found (before after : list Dictionary) (prop : Dictionary)
  (property hint : text) (id : Z) (value : variant) :
  other_properties property before ->
  dict_find prop "name" = Some (VString property) ->
  dict_find prop "type" = Some (VInt id) ->
  type_constant hint = Some id ->
  for_property (before ++ prop :: after) property value = _json_to_variant value hint.
Proof.
  intros Hb Hn Ht Hh. rewrite for_property_skips by exact Hb.
  cbn [for_property]. rewrite Hn. cbn [mbind option_bind equals_string].
  rewrite (proj2 (eqb_eq property property) eq_refl).
  unfold dict_get. rewrite Ht. cbn [as_int mbind option_bind].
  rewrite (typed_arm_structured hint id value Hh). reflexivity.
Qed.

(** X11. The type the node declares for a property decides how a value is
    decoded for it: the first entry of the property list with the
    property's name is the one that counts, and when it declares one of
    the structured types the value is decoded with that type's hint,
    whatever the value looks like. So the encoding of a value of the
    property's type is decoded to that value. *)
Theorem declared_type_decodes (before after : list Dictionary) (prop : Dictionary)
  (property hint : text) (id : Z) :
  other_properties property before ->
  dict_find prop "name" = Some (VString property) ->
  dict_find prop "type" = Some (VInt id) ->
  type_constant hint = Some id ->
  (forall value : variant,
     for_property (before ++ prop :: after) property value = _json_to_variant value hint)
  /\ (forall v : variant,
       type_name v = Some hint -> components_int32 v ->
       for_property (before ++ prop :: after) property (_variant_to_json v) = Some v).
Proof.
  intros Hb Hn Ht Hh. split.
  - intros value. apply (for_property_found before after prop property hint id); assumption.
  - intros v Hv Hc.
    rewrite (for_property_found before after prop property hint id) by assumption.
    apply CodecSpec.round_trip; assumption.
Qed.

(** X12. [_cmd_set_property] without a type hint, on a property the node
    declares with a structured type, given the encoding of a value of
    that type: the value handed to [node.set] is that value, and the
    response reports what the property holds after the write. *)
Theorem set_property_writes_decoded_value (params : Dictionary) (w : World)
  (node_path property hint : text) (target : node_id) (v : variant)
  (before after : list Dictionary) (prop : Dictionary) (id : Z) :
  dict_find params "node_path" = Some (VString node_path) ->
  dict_find params "property" = Some (VString property) ->
  dict_find params "value" = Some (_variant_to_json v) ->
  dict_find params "type_hint" = None ->
  node_path <> [] -> property <> [] ->
  get_node_or_null node_path w = Some target ->
  get_property_list target w = before ++ prop :: after ->
  other_properties property before ->
  dict_find prop "name" = Some (VString property) ->
  dict_find prop "type" = Some (VInt id) ->
  type_constant hint = Some id ->
  type_name v = Some hint -> components_int32 v ->
  let w' := node_set target property v w in
  _cmd_set_property params w
  = Respond w' (dict_lit [("success", VBool true);
                          ("node_path", VString node_path);
                          ("property", VString property);
                          ("value", _variant_to_json (node_get target property w'))]).
Proof.
  intros Hp Hq Hv Hh Hne1 Hne2 Hnode Hprops Hb Hn Ht Hc Hty Hi32 w'.
  unfold _cmd_set_property, dict_get. rewrite Hp, Hq, Hv, Hh. cbn [as_string].
  destruct node_path as [|c1 r1]; [congruence|].
  destruct property as [|c2 r2]; [congruence|].
  cbn [is_empty orb]. rewrite Hnode. cbn [is_empty].
  unfold _json_to_variant_for_property. rewrite Hprops.
  rewrite (for_property_found before after prop (c2 :: r2) hint id) by assumption.
  rewrite CodecSpec.round_trip by assumption. reflexivity.
Qed.

End Properties.

End SceneSpec.

(** ** The agent over time *)

Module AgentFlow.
Import Godot Agent Flow TextFacts.

Section Waiting.
Context `{Num} `{!Engine}.

Lemma emit_signal_idle (s : Server) : suspended s = [] -> emit_signal s = s.
Proof. destruct s. simpl. intros ->. reflexivity. Qed.

Lemma emit_signal_one (s : Server) (k : World -> handler World) :
  suspended s = [k] -> emit_signal s = complete (k (world s)) (set_suspended [] s).
Proof. unfold emit_signal. intros ->. reflexivity. Qed.

Lemma iter_idle (k : nat) (s : Server) : suspended s = [] -> Nat.iter k emit_signal s = s.
Proof.
  intros Hs. induction k as [|k IH]; [reflexivity|].
  simpl. rewrite IH. apply emit_signal_idle, Hs.
Qed.

(** A handler with [n] frames left to wait stays suspended for [n]
    signals, and responds at the next. *)
Lemma frames_counted (n : nat) (s : Server) (data : variant) :
  (forall k, (k <= n)%nat ->
     Nat.iter k emit_signal (set_suspended [await_frames n data] s)
     = set_suspended [await_frames (n - k) data] s)
  /\ Nat.iter (S n) emit_signal (set_suspended [await_frames n data] s)
     = _send_response data (set_suspended [] s).
Proof.
  assert (G : forall k, (k <= n)%nat ->
              Nat.iter k emit_signal (set_suspended [await_frames n data] s)
              = set_suspended [await_frames (n - k) data] s).
  { induction k as [|k IH]; intros Hk.
    - simpl. rewrite Nat.sub_0_r. reflexivity.
    - change (Nat.iter (S k) emit_signal ?x) with (emit_signal (Nat.iter k emit_signal x)).
      rewrite IH by lia.
      replace (n - k)%nat with (S (n - S k)) by lia.
      destruct s. reflexivity. }
  split; [exact G|].
  change (Nat.iter (S n) emit_signal ?x) with (emit_signal (Nat.iter n emit_signal x)).
  rewrite (G n (le_n n)), Nat.sub_diag. destruct s. reflexivity.
Qed.

Lemma wait_dispatched (params : Dictionary) (w : World) :
  dispatch "wait" params w = _cmd_wait params w.
Proof. reflexivity. Qed.

(** X13. [wait] answers after the frames it was asked for, and not
    before. From an agent with nothing in progress, a [wait] for [frames]
    frames leaves the agent busy, with nothing sent, through the first
    [frames] - 1 signals; the signal number [frames] sends the one response
    and clears the flag (at once, when [frames] is 0 or less); later
    signals change nothing. *)
Theorem wait_answers_after_its_frames (s : Server) (c : StreamPeerTCP) (json_str : text)
  (data params : Dictionary) (frames : Z) :
  _busy s = false -> _client s = Some c -> suspended s = [] ->
  JSON_parse json_str = ParseOk (VDictionary data) ->
  dict_find data "command" = Some (VString "wait") ->
  dict_find data "params" = Some (VDictionary params) ->
  to_int (dict_get params "frames" (VInt 1)) = Some frames ->
  let after := fun k : nat => Nat.iter k emit_signal (_handle_command json_str s) in
  let answered :=
    set_client (Some {| sent := sent c ++ [framed (waited frames)] |}) s in
  (forall k, (k < Z.to_nat frames)%nat ->
     _busy (after k) = true /\ _client (after k) = Some c /\ world (after k) = world s)
  /\ (forall k, (Z.to_nat frames <= k)%nat -> after k = answered).
Proof.
  intros Hb Hc Hs Hj Hcmd Hp Hf after answered.
  assert (E : _handle_command json_str s
              = complete (await_frames (Z.to_nat frames) (waited frames) (world s))
                  (set_busy true s)).
  { unfold _handle_command, dict_get. rewrite Hb, Hj, Hcmd, Hp. cbn [as_string as_dict].
    rewrite wait_dispatched. unfold _cmd_wait. rewrite Hf. reflexivity. }
  subst after. cbv beta. rewrite E. clear E.
  destruct (Z.to_nat frames) as [|n] eqn:En.
  - split; [intros k Hk; lia|]. intros k _.
    cbn [await_frames complete]. rewrite iter_idle.
    + unfold answered, _send_response, _send_response_raw. destruct s. simpl in *.
      subst. reflexivity.
    + destruct s. simpl in *. unfold _send_response, _send_response_raw. simpl.
      subst. reflexivity.
  - cbn [await_frames complete].
    assert (E : set_suspended (suspended (set_busy true s)
                               ++ [await_frames n (waited frames)])
                  (set_world (world s) (set_busy true s))
                = set_suspended [await_frames n (waited frames)] (set_busy true s)).
    { destruct s. simpl in *. subst. reflexivity. }
    rewrite E. clear E.
    destruct (frames_counted n (set_busy true s) (waited frames)) as [G1 G2].
    split.
    + intros k Hk. rewrite G1 by lia. destruct s. simpl in *. auto.
    + intros k Hk. replace k with ((k - S n) + S n)%nat by lia.
      rewrite Nat.iter_add, G2. rewrite iter_idle.
      * unfold answered, _send_response, _send_response_raw. destruct s. simpl in *.
        subst. reflexivity.
      * unfold _send_response, _send_response_raw. destruct s. simpl in *. subst. reflexivity.
Qed.

End Waiting.

Section Clients.
Context `{Num} `{!Engine}.

(** X14. A command in progress outlives its client. When another client
    connects while a handler is suspended, [_process] switches to the new
    client and empties the buffer, but the busy flag and the suspended
    handler stay; when the handler finishes, its response is written to
    the client that is connected then, the new one, and only then is the
    flag cleared. *)
Theorem command_outlives_its_client (s : Server) (k : World -> handler World)
  (i : frame_input) (c' : StreamPeerTCP) (data : variant) (w' : World) :
  _server s = true -> suspended s = [k] ->
  new_client i = Some c' -> status i = STATUS_CONNECTED -> available i = [] ->
  k (world s) = Respond w' data ->
  let s1 := _process i s in
  s1 = set_buffer [] (set_client (Some c') s)
  /\ _busy s1 = _busy s
  /\ emit_signal s1
     = set_suspended []
         (set_world w'
            (set_busy false
               (set_buffer [] (set_client (Some {| sent := sent c' ++ [framed data] |}) s)))).
Proof.
  intros Hsrv Hs Hn Hst Ha Hk s1.
  assert (E : s1 = set_buffer [] (set_client (Some c') s)).
  { subst s1. unfold _process. rewrite Hsrv, Hn, Hst, Ha. reflexivity. }
  split; [exact E|]. split; [rewrite E; reflexivity|].
  rewrite E, (emit_signal_one _ k) by exact Hs. simpl world. rewrite Hk.
  destruct s. reflexivity.
Qed.

Lemma rejected_while_busy (json_str : text) (s : Server) :
  _busy s = true ->
  let s' := _handle_command json_str s in
  _busy s' = true /\ suspended s' = suspended s /\ _server s' = _server s
  /\ world s' = world s.
Proof.
  intros Hb. unfold _handle_command, _send_response_raw. rewrite Hb.
  destruct (_client s); simpl; auto.
Qed.

Lemma lines_while_busy (fuel : nat) :
  forall s, _busy s = true ->
  let s' := process_lines fuel s in
  _busy s' = true /\ suspended s' = suspended s /\ _server s' = _server s
  /\ world s' = world s.
Proof.
  induction fuel as [|fuel IH]; intros s Hb; simpl.
  - destruct (_ >=? 0); auto.
  - destruct (_ >=? 0); [|auto].
    match goal with |- context [process_lines fuel ?s0] =>
      assert (Hs0 : _busy s0 = true /\ suspended s0 = suspended s /\ _server s0 = _server s
                    /\ world s0 = world s)
    end.
    { destruct (_ >? 0); [|simpl; auto].
      apply (rejected_while_busy _ (set_buffer _ s)). exact Hb. }
    destruct Hs0 as (B & S1 & S2 & S3).
    match goal with |- context [process_lines fuel ?s0] =>
      destruct (IH s0 B) as (B' & S1' & S2' & S3')
    end.
    cbv zeta in *. rewrite S1', S2', S3', S1, S2, S3. auto.
Qed.

Lemma frame_while_busy (i : frame_input) (s : Server) :
  _busy s = true ->
  _busy (_process i s) = true /\ suspended (_process i s) = suspended s
  /\ world (_process i s) = world s.
Proof.
  intros Hb. unfold _process. destruct (_server s); simpl; [|auto].
  destruct (new_client i) as [c|].
  - simpl. destruct (status i); simpl; auto.
    destruct (_ && _); simpl; auto.
    match goal with |- context [process_lines ?f ?s0] =>
      destruct (lines_while_busy f s0 Hb) as (B & S1 & _ & S3)
    end. auto.
  - destruct (_client s) eqn:Ec; simpl; auto.
    destruct (status i); simpl; auto.
    destruct (_ && _); simpl; auto.
    match goal with |- context [process_lines ?f ?s0] =>
      destruct (lines_while_busy f s0 Hb) as (B & S1 & _ & S3)
    end. auto.
Qed.

(** X15. Only a response clears the busy flag. While the flag is set,
    nothing a frame brings clears it: not data, not a client that leaves,
    not a new client. So an agent whose flag is set while no handler is
    suspended (the state a handler cut short by a run-time error leaves
    behind) stays busy for ever, whatever frames and signals follow, and
    the game is not touched again. A request whose [params] is not
    an object leaves that state: the flag set, nothing sent, nothing
    suspended. *)
Theorem busy_flag_outlasts_frames :
  (forall (i : frame_input) (s : Server),
     _busy s = true ->
     _busy (_process i s) = true /\ suspended (_process i s) = suspended s)
  /\ (forall (es : list agent_event) (s : Server),
       _busy s = true -> suspended s = [] ->
       let s' := agent_run es s in
       _busy s' = true /\ suspended s' = [] /\ world s' = world s)
  /\ (forall (json_str : text) (data : Dictionary) (s : Server),
       _busy s = false ->
       JSON_parse json_str = ParseOk (VDictionary data) ->
       as_dict (dict_get data "params" (dict_lit [])) = None ->
       _handle_command json_str s = set_busy true s).
Proof.
  split; [|split].
  3:{ intros json_str data s Hb Hj Hp. unfold _handle_command. rewrite Hb, Hj, Hp.
      destruct (as_string _); reflexivity. }
  - intros i s Hb. destruct (frame_while_busy i s Hb) as (B & S1 & _). auto.
  - induction es as [|e es IH]; intros s Hb Hs; [simpl; auto|].
    assert (Hstep : _busy (agent_step e s) = true /\ suspended (agent_step e s) = []
                    /\ world (agent_step e s) = world s).
    { destruct e as [i|]; simpl.
      - destruct (frame_while_busy i s Hb) as (B & S1 & S3). rewrite S1, Hs. auto.
      - rewrite (emit_signal_idle s Hs). auto. }
    destruct Hstep as (B & S1 & S3).
    destruct (IH _ B S1) as (B' & S1' & S3').
    cbv zeta in *. change (agent_run (e :: es) s) with (agent_run es (agent_step e s)).
    rewrite S3', S3. auto.
Qed.

End Clients.

Section Reader.
Context `{Num} `{!Engine}.

(** X16. The agent's frame reader, on text, does not depend on how the
    stream is cut into chunks: a chunk is handled as the complete lines of
    what is buffered followed by the chunk, each stripped and, unless
    empty, handed to [_handle_command] in order, and what follows the last
    line feed is kept; two chunks one after the other leave the agent as
    the two in one do. *)
Theorem commands_survive_chunking :
  (forall (t : text) (s : Server),
     receive t s
     = set_buffer (lines (_buffer s ++ t)).2 (handle_all (lines (_buffer s ++ t)).1 s))
  /\ (forall (t1 t2 : text) (s : Server),
       receive t2 (receive t1 s) = receive (t1 ++ t2) s).
Proof. split; [exact AgentSpec.receive_lines|exact AgentSpec.receive_app]. Qed.

End Reader.

End AgentFlow.

(** ** The controller over time *)

Module ControllerFlow.
Import Controller ControllerSpec Flow TextFacts.

Section Calls.
Context `{Runtime}.

Lemma deliver_overwritten (c : call_id) (cmd : text) (t : Z) (line : text) (s : GodotServer) :
  overwritten c cmd t s ->
  overwritten c cmd t (deliver line s) /\ settlements c (deliver line s) = settlements c s.
Proof.
  unfold overwritten. intros (Ht & Hp & Hc). unfold deliver.
  destruct (pendingResolve (gameConnection s)) as [r|] eqn:Er; [|rewrite Er; auto].
  destruct (_ >? 0); [|rewrite Er; auto].
  destruct (JSON_parse line) as [v|].
  - assert (Hne : r <> c) by congruence. split.
    + repeat split; simpl; [|discriminate|exact Hc].
      rewrite lookup_delete_ne by exact Hne. exact Ht.
    + rewrite settlements_resolver. destruct (decide (r = c)); [contradiction|].
      rewrite app_nil_r. reflexivity.
  - simpl. rewrite Er. auto.
Qed.

Lemma process_lines_overwritten (c : call_id) (cmd : text) (t : Z) (fuel : nat) :
  forall s, overwritten c cmd t s ->
  overwritten c cmd t (process_lines fuel s)
  /\ settlements c (process_lines fuel s) = settlements c s.
Proof.
  induction fuel as [|fuel IH]; intros s Ho; simpl.
  - destruct (_ >=? 0); auto.
  - destruct (_ >=? 0); [|auto].
    match goal with |- context [deliver ?l ?s0] =>
      destruct (deliver_overwritten c cmd t l s0) as [Ho' Hs']
    end.
    { destruct Ho as (Ht & Hp & Hc). repeat split; assumption. }
    destruct (IH _ Ho') as [Ho'' Hs'']. split; [exact Ho''|].
    rewrite Hs'', Hs'. reflexivity.
Qed.

Lemma resolved_other (c r : call_id) (cmd : text) (t : Z) (v : any) (s : GodotServer) :
  r <> c -> overwritten c cmd t s ->
  overwritten c cmd t (set_pendingResolve None (resolver r v s))
  /\ settlements c (set_pendingResolve None (resolver r v s)) = settlements c s.
Proof.
  unfold overwritten. intros Hne (Ht & Hp & Hc). split.
  - repeat split; simpl; [|discriminate|exact Hc].
    rewrite lookup_delete_ne by exact Hne. exact Ht.
  - change (settlements c (resolver r v s) = settlements c s).
    rewrite settlements_resolver. destruct (decide (r = c)); [contradiction|].
    apply app_nil_r.
Qed.

Lemma step_overwritten (c : call_id) (cmd : text) (t : Z) (e : event) (s : GodotServer) :
  e <> TimerFired c -> overwritten c cmd t s ->
  overwritten c cmd t (step e s) /\ settlements c (step e s) = settlements c s.
Proof.
  intros He Ho. pose proof Ho as (Ht & Hp & Hc). destruct e; cbn [step].
  - unfold sendGameCommand.
    destruct (connected (gameConnection s)); [|auto].
    destruct (socket (gameConnection s)); [|auto].
    split; [|reflexivity]. repeat split; simpl.
    + rewrite lookup_insert_ne by lia. exact Ht.
    + intros [= E]. lia.
    + lia.
  - unfold on_data.
    match goal with |- context [process_lines ?f ?s0] =>
      apply (process_lines_overwritten c cmd t f s0)
    end.
    repeat split; assumption.
  - unfold on_close.
    destruct (pendingResolve (gameConnection s)) as [r|] eqn:Er.
    + simpl pendingResolve. rewrite Er.
      apply (resolved_other c r cmd t _
               (set_socket None (set_connected false (logDebug ConnectionClosed s))));
        [congruence|].
      repeat split; simpl; try assumption. rewrite Er. congruence.
    + simpl pendingResolve. rewrite Er. split; [|reflexivity].
      repeat split; simpl; try assumption. rewrite Er. discriminate.
  - assert (Hne : c0 <> c) by congruence.
    unfold timer_fired. destruct (timers s !! c0) as [[command timeoutMs]|]; [|auto].
    split.
    + repeat split; simpl; [|discriminate|exact Hc].
      rewrite lookup_delete_ne by exact Hne. exact Ht.
    + rewrite settlements_settle. destruct (decide (c0 = c)); [contradiction|].
      rewrite app_nil_r. reflexivity.
  - split; [|reflexivity]. repeat split; simpl; assumption.
  - unfold disconnectFromGame.
    destruct (socket (gameConnection s)); simpl pendingResolve;
      destruct (pendingResolve (gameConnection s)) as [r|] eqn:Er.
    + apply (resolved_other c r cmd t _
               (set_responseBuffer [] (set_connected false (set_socket None s))));
        [congruence|].
      repeat split; simpl; try assumption. rewrite Er. congruence.
    + split; [|reflexivity].
      repeat split; simpl; try assumption. rewrite Er. discriminate.
    + apply (resolved_other c r cmd t _ (set_responseBuffer [] (set_connected false s)));
        [congruence|].
      repeat split; simpl; try assumption. rewrite Er. congruence.
    + split; [|reflexivity].
      repeat split; simpl; try assumption. rewrite Er. discriminate.
Qed.

Lemma run_overwritten (c : call_id) (cmd : text) (t : Z) (es : list event) :
  forall s, Forall (fun e => e <> TimerFired c) es -> overwritten c cmd t s ->
  overwritten c cmd t (run es s) /\ settlements c (run es s) = settlements c s.
Proof.
  induction es as [|e es IH]; intros s Hes Ho; [auto|].
  apply Forall_cons_1 in Hes as [He Hes].
  destruct (step_overwritten c cmd t e s He Ho) as [Ho' Hs'].
  destruct (IH _ Hes Ho') as [Ho'' Hs'']. split; [exact Ho''|].
  change (run (e :: es) s) with (run es (step e s)). rewrite Hs'', Hs'. reflexivity.
Qed.

(** X17. There is one slot for the pending resolver. A command sent while
    another is outstanding takes the slot over: from then on the earlier
    call is completed by nothing that arrives or happens (responses,
    close, disconnect, later commands, other timers), and ends when its
    own timer fires, rejected with the timeout error. *)
Theorem overwritten_call_ends_by_timeout (s : GodotServer) (c : call_id)
  (cmd : text) (timeoutMs : Z) (sock : socket_id)
  (command : text) (params : any) (timeout' : Z) :
  pendingResolve (gameConnection s) = Some c ->
  timers s !! c = Some (cmd, timeoutMs) ->
  settlements c s = [] ->
  (c < calls s)%nat ->
  connected (gameConnection s) = true ->
  socket (gameConnection s) = Some sock ->
  let s' := (sendGameCommand command params timeout' s).2 in
  pendingResolve (gameConnection s') = Some (calls s)
  /\ (forall es : list event,
       Forall (fun e => e <> TimerFired c) es ->
       settlements c (run es s') = []
       /\ settlements c (run (es ++ [TimerFired c]) s')
          = [Rejected (TimedOut cmd timeoutMs)]).
Proof.
  intros Hp Ht Hs Hc Hcon Hsock s'.
  assert (E : s' = (sendGameCommand command params timeout' s).2) by reflexivity.
  unfold sendGameCommand in E. rewrite Hcon, Hsock in E. simpl in E.
  assert (Ho : overwritten c cmd timeoutMs s').
  { rewrite E. repeat split; simpl.
    - rewrite lookup_insert_ne by lia. exact Ht.
    - intros [= E']. lia.
    - lia. }
  assert (Hs' : settlements c s' = []) by (rewrite E; exact Hs).
  split; [rewrite E; reflexivity|].
  intros es Hes. destruct (run_overwritten c cmd timeoutMs es s' Hes Ho) as [Ho' Hr].
  split; [rewrite Hr; exact Hs'|].
  unfold run. rewrite fold_left_app. fold (run es s'). simpl.
  destruct Ho' as (Ht' & _ & _). unfold timer_fired. rewrite Ht'.
  rewrite settlements_settle. destruct (decide (c = c)); [|congruence].
  unfold settlements at 1. simpl. fold (settlements c (run es s')). rewrite Hr, Hs'.
  reflexivity.
Qed.

Lemma slept_failed_turns (k : nat) (rest : list action) :
  slept (failed_turns k ++ rest) = retryDelay * Z.of_nat k + slept rest.
Proof.
  induction k as [|k IH]; [simpl; lia|].
  cbn [failed_turns app]. unfold slept in *. cbn [fold_right]. rewrite IH. lia.
Qed.

(** X18. [connectToGame] connects at the first attempt that succeeds.
    When the first [k] attempts fail and the next one connects, the
    routine has slept the settle delay and [k] retry delays (2000 + 500 k
    milliseconds), has made [k] + 1 attempts, and leaves the connection
    marked connected, on the new socket, with an empty response buffer: a
    partial frame left by an earlier connection is dropped. The pending
    resolver, the timers and the promises are not touched. *)
Theorem connection_made_at_first_success (path : text) (env : Z -> attempt_env)
  (s : GodotServer) (k : nat) (sock : socket_id) :
  (k < 10)%nat -> turns_fail env k ->
  process_running (env (1 + Z.of_nat k)) = true ->
  connects (env (1 + Z.of_nat k)) = Some sock ->
  let r := connectToGame path env s in
  r.2 = Sleep settleDelay :: failed_turns k ++ [CreateConnection "127.0.0.1" INTERACTION_PORT]
  /\ slept r.2 = 2000 + 500 * Z.of_nat k
  /\ attempts_made r.2 = S k
  /\ gameConnection r.1
     = {| socket := Some sock; connected := true; responseBuffer := [];
          pendingResolve := pendingResolve (gameConnection s);
          projectPath := Some path |}
  /\ timers r.1 = timers s /\ settled r.1 = settled s.
Proof.
  intros Hk Hf Hrun Hcon r. subst r. unfold connectToGame.
  change (Z.to_nat maxAttempts) with 10%nat.
  rewrite (connect_attempts_fail k 10 1 env) by (try apply Hf; lia).
  destruct (10 - k)%nat as [|m] eqn:Em; [lia|].
  cbn [connect_attempts]. rewrite Hrun, Hcon. cbn [negb]. cbv beta iota zeta. cbn [fst snd].
  split; [reflexivity|]. split.
  { match goal with
    | |- slept (Sleep settleDelay :: ?l) = _ =>
        change (slept (Sleep settleDelay :: l)) with (settleDelay + slept l)
    end.
    rewrite slept_failed_turns. unfold settleDelay, retryDelay, slept. cbn [fold_right]. lia. }
  split.
  { rewrite attempts_made_cons, attempts_made_failed_turns, attempts_made_cons.
    cbn [is_attempt]. change (attempts_made []) with 0%nat. lia. }
  assert (G : forall ds s0, timers (logDebugs ds s0) = timers s0
                            /\ settled (logDebugs ds s0) = settled s0).
  { induction ds as [|d ds IH]; intros s0; [auto|].
    change (logDebugs (d :: ds) s0) with (logDebugs ds (logDebug d s0)).
    destruct (IH (logDebug d s0)) as [-> ->]. auto. }
  unfold on_connect. simpl. rewrite gameConnection_logDebugs.
  destruct (G (failed_attempts k 1) (set_projectPath (Some path) s)) as [-> ->].
  repeat split.
Qed.

End Calls.

Section Reader.
Context `{Runtime}.

(** X19. The controller's frame reader, on text, does not depend on how
    the stream is cut into chunks. Each call of the data handler hands to
    the pending resolver, in order, the complete lines of what is buffered
    followed by the chunk, and keeps what follows the last line feed; so
    any cutting of a text into chunks leaves the controller as the text in
    one chunk does. On bytes the same holds for a cut at a character
    boundary. *)
Theorem frames_survive_chunking :
  (forall (t : text) (s : GodotServer),
     on_text t s
     = set_responseBuffer (lines (responseBuffer (gameConnection s) ++ t)).2
         (deliver_all (lines (responseBuffer (gameConnection s) ++ t)).1 s))
  /\ (forall (chunks : list text) (s : GodotServer),
       ~ In LF (responseBuffer (gameConnection s)) ->
       fold_left (fun s t => on_text t s) chunks s = on_text (concat chunks) s)
  /\ (forall (b1 b2 : list byte) (s : GodotServer),
       Utf8.at_character_boundary b1 ->
       on_data b2 (on_data b1 s) = on_data (b1 ++ b2) s).
Proof.
  split; [exact on_text_lines|]. split; [exact on_text_chunks|exact on_data_app].
Qed.

End Reader.

End ControllerFlow.

(** ** The agent in the project, and the game process *)

Module LifecycleSpec.
Import Controller Tools Lifecycle TextFacts.

(** *** Searching and replacing *)

Lemma starts_with_split (needle s : text) :
  starts_with needle s = true -> exists rest, s = needle ++ rest.
Proof.
  revert s; induction needle as [|p needle IH]; intros s E; [exists s; reflexivity|].
  destruct s as [|c s]; simpl in E; [discriminate|].
  apply andb_true_iff in E as [Ec E]. apply N.eqb_eq in Ec as ->.
  destruct (IH _ E) as [rest ->]. exists rest. reflexivity.
Qed.

Lemma includes_split (needle s : text) :
  includes needle s = true -> exists a b, s = a ++ needle ++ b.
Proof.
  induction s as [|c s IH]; simpl; intros E.
  - rewrite orb_false_r in E. apply starts_with_split in E as [rest ->].
    exists [], rest. reflexivity.
  - apply orb_true_iff in E as [E|E].
    + apply starts_with_split in E as [rest ->]. exists [], rest. reflexivity.
    + destruct (IH E) as (a & b & ->). exists (c :: a), b. reflexivity.
Qed.

Lemma includes_within (needle a s b : text) :
  includes needle s = true -> includes needle (a ++ s ++ b) = true.
Proof.
  intros E. destruct (includes_split _ _ E) as (a' & b' & ->).
  replace (a ++ (a' ++ needle ++ b') ++ b) with ((a ++ a') ++ needle ++ (b' ++ b))
    by (rewrite <- !app_assoc; reflexivity).
  apply ToolsSpec.includes_app.
Qed.

Lemma includes_prefix (needle more s : text) :
  includes (needle ++ more) s = true -> includes needle s = true.
Proof.
  intros E. destruct (includes_split _ _ E) as (a & b & ->).
  rewrite <- app_assoc. apply ToolsSpec.includes_app.
Qed.

(** A needle without the character [x] does not reach across an [x]. *)
Lemma starts_with_foreign (needle l b : text) (x : N) :
  ~ In x needle -> starts_with needle (l ++ x :: b) = starts_with needle l.
Proof.
  revert l; induction needle as [|p needle IH]; intros l Hx; [reflexivity|].
  destruct l as [|c l]; simpl.
  - destruct (N.eqb_spec p x) as [->|_]; [|reflexivity].
    exfalso. apply Hx. left. reflexivity.
  - rewrite IH; [reflexivity|]. intros Hin. apply Hx. right. exact Hin.
Qed.

Lemma includes_foreign (needle a b : text) (x : N) :
  ~ In x needle ->
  includes needle (a ++ x :: b) = includes needle a || includes needle b.
Proof.
  intros Hx. induction a as [|c a IH].
  - change ([] ++ x :: b) with (x :: b).
    change (includes needle (x :: b))
      with (starts_with needle ([] ++ x :: b) || includes needle b).
    rewrite (starts_with_foreign needle [] b x Hx).
    destruct needle; reflexivity.
  - change (includes needle ((c :: a) ++ x :: b))
      with (starts_with needle ((c :: a) ++ x :: b) || includes needle (a ++ x :: b)).
    rewrite (starts_with_foreign needle (c :: a) b x Hx), IH.
    change (includes needle (c :: a)) with (starts_with needle (c :: a) || includes needle a).
    rewrite orb_assoc. reflexivity.
Qed.

Lemma drop_length_app {A} (a b : list A) : drop (length a) (a ++ b) = b.
Proof. induction a; simpl; auto. Qed.

(** [replace] acts at the first occurrence of the pattern. *)
Lemma replace_first_split (pat replacement s : text) :
  pat <> [] ->
  includes pat s = true ->
  exists pre post,
    s = pre ++ pat ++ post
    /\ includes pat (pre ++ removelast pat) = false
    /\ replace_first pat replacement s = pre ++ replacement ++ post.
Proof.
  intros Hne.
  pose proof (app_removelast_last 0%N Hne) as Hp.
  induction s as [|c s IH]; intros E.
  - destruct pat; [congruence|discriminate].
  - change (includes pat (c :: s)) with (starts_with pat (c :: s) || includes pat s) in E.
    change (replace_first pat replacement (c :: s))
      with (if starts_with pat (c :: s) then replacement ++ drop (length pat) (c :: s)
            else c :: replace_first pat replacement s).
    destruct (starts_with pat (c :: s)) eqn:Es.
    + destruct (starts_with_split _ _ Es) as [rest Hr]. exists [], rest.
      rewrite Hr, drop_length_app. repeat split.
      change ([] ++ removelast pat) with (removelast pat).
      destruct (includes pat (removelast pat)) eqn:Ei; [|reflexivity].
      destruct (includes_split _ _ Ei) as (a & b & Hab).
      apply (f_equal (@length N)) in Hab. rewrite !length_app in Hab.
      apply (f_equal (@length N)) in Hp. rewrite length_app in Hp.
      change (length [List.last pat 0%N]) with 1%nat in Hp. lia.
    + change (false || includes pat s = true) with (includes pat s = true) in E.
      destruct (IH E) as (pre & post & Hs & Hf & Hr).
      exists (c :: pre), post.
      split; [change ((c :: pre) ++ pat ++ post) with (c :: pre ++ pat ++ post);
              f_equal; exact Hs|].
      split; [|rewrite Hr; reflexivity].
      change (includes pat ((c :: pre) ++ removelast pat))
        with (starts_with pat (c :: pre ++ removelast pat)
              || includes pat (pre ++ removelast pat)).
      rewrite Hf, orb_false_r.
      destruct (starts_with pat (c :: pre ++ removelast pat)) eqn:Ep; [|reflexivity].
      destruct (starts_with_split _ _ Ep) as [rest Hrest].
      rewrite <- Es. symmetry.
      replace (c :: s) with ((c :: pre ++ removelast pat) ++ [List.last pat 0%N] ++ post).
      { rewrite Hrest, <- app_assoc. apply ToolsSpec.starts_with_app. }
      rewrite Hs.
      change ((c :: pre ++ removelast pat) ++ [List.last pat 0%N] ++ post)
        with (c :: (pre ++ removelast pat) ++ [List.last pat 0%N] ++ post).
      f_equal. rewrite <- app_assoc. f_equal.
      rewrite (app_assoc (removelast pat)), <- Hp. reflexivity.
Qed.

(** *** The autoload entry *)

Lemma line_has_no_line_feed : ~ In LF autoloadLine.
Proof.
  intros Hin. apply (proj1 (List.Forall_forall (fun c => c <> LF) autoloadLine)) in Hin;
    [congruence|].
  vm_compute. repeat constructor; discriminate.
Qed.

Lemma name_has_no_line_feed : ~ In LF AUTOLOAD_NAME.
Proof.
  intros Hin. apply line_has_no_line_feed. unfold autoloadLine.
  apply in_or_app. left. exact Hin.
Qed.

Lemma line_not_included (s : text) :
  includes AUTOLOAD_NAME s = false -> includes autoloadLine s = false.
Proof.
  intros E. destruct (includes autoloadLine s) eqn:El; [|reflexivity].
  unfold autoloadLine in El. apply includes_prefix in El. congruence.
Qed.

Lemma match_autoload_start (b : text) :
  match_autoload (LF :: autoloadLine ++ b) = Some (drop_line_feed b).
Proof.
  unfold match_autoload. rewrite N.eqb_refl.
  rewrite ToolsSpec.starts_with_app, drop_length_app.
  destruct b as [|c b]; reflexivity.
Qed.

Lemma match_autoload_none (c : N) (a b : text) :
  includes autoloadLine (c :: a) = false ->
  match_autoload (c :: a ++ LF :: b) = None.
Proof.
  intros E.
  change (includes autoloadLine (c :: a))
    with (starts_with autoloadLine (c :: a) || includes autoloadLine a) in E.
  apply orb_false_iff in E as [E1 E2].
  assert (E3 : starts_with autoloadLine a = false).
  { destruct (starts_with autoloadLine a) eqn:Es; [|reflexivity].
    apply ToolsSpec.includes_start in Es. congruence. }
  unfold match_autoload.
  change (c :: a ++ LF :: b) with ((c :: a) ++ LF :: b).
  rewrite (starts_with_foreign autoloadLine (c :: a) b LF line_has_no_line_feed), E1.
  change ((c :: a) ++ LF :: b) with (c :: a ++ LF :: b). cbv beta iota.
  rewrite (starts_with_foreign autoloadLine a b LF line_has_no_line_feed), E3.
  destruct (c =? LF)%N; reflexivity.
Qed.

(** The removal acts on the first entry, with the line feeds around it. *)
Lemma remove_autoload_at (a b : text) :
  includes autoloadLine a = false ->
  remove_autoload (a ++ LF :: autoloadLine ++ b) = a ++ LF :: drop_line_feed b.
Proof.
  induction a as [|c a IH]; intros E.
  - change ([] ++ LF :: autoloadLine ++ b) with (LF :: autoloadLine ++ b).
    change (remove_autoload (LF :: autoloadLine ++ b))
      with (match match_autoload (LF :: autoloadLine ++ b) with
            | Some rest => LF :: rest
            | None => LF :: remove_autoload (autoloadLine ++ b)
            end).
    rewrite match_autoload_start. reflexivity.
  - change ((c :: a) ++ LF :: autoloadLine ++ b) with (c :: a ++ LF :: autoloadLine ++ b).
    change (remove_autoload (c :: a ++ LF :: autoloadLine ++ b))
      with (match match_autoload (c :: a ++ LF :: autoloadLine ++ b) with
            | Some rest => LF :: rest
            | None => c :: remove_autoload (a ++ LF :: autoloadLine ++ b)
            end).
    rewrite (match_autoload_none c a _ E).
    rewrite IH; [reflexivity|].
    change (includes autoloadLine (c :: a))
      with (starts_with autoloadLine (c :: a) || includes autoloadLine a) in E.
    apply orb_false_iff in E as [_ E]. exact E.
Qed.

Lemma name_in_entry (a b : text) : includes AUTOLOAD_NAME (a ++ autoloadLine ++ b) = true.
Proof.
  unfold autoloadLine. rewrite <- app_assoc. apply ToolsSpec.includes_app.
Qed.

(** The entry goes below the first header, or into a new section. *)
Lemma injected_clean (projectPath source content : text) (p : project) :
  project_godot p = Some content ->
  includes AUTOLOAD_NAME content = false ->
  exists content',
    injectInteractionServer projectPath (Some source) p
    = (set_project_godot (Some content') (set_server_script (Some source) p),
       [CopiedScript projectPath; InjectedAutoload], None)
    /\ ((includes (lit "[autoload]") content = false
         /\ content' = content ++ [LF] ++ lit "[autoload]" ++ [LF; LF] ++ autoloadLine ++ [LF])
        \/ (includes (lit "[autoload]") content = true
            /\ exists pre post,
                 content = pre ++ lit "[autoload]" ++ post
                 /\ includes (lit "[autoload]") (pre ++ lit "[autoload") = false
                 /\ content' = pre ++ lit "[autoload]" ++ [LF; LF] ++ autoloadLine ++ post)).
Proof.
  intros Hc Hn. unfold injectInteractionServer.
  cbn [set_server_script project_godot]. rewrite Hc, Hn.
  destruct (includes (lit "[autoload]") content) eqn:Hh.
  - destruct (replace_first_split (lit "[autoload]")
                (lit "[autoload]" ++ [LF; LF] ++ autoloadLine) content)
      as (pre & post & Hs & Hf & Hr); [discriminate|exact Hh|].
    exists (pre ++ lit "[autoload]" ++ [LF; LF] ++ autoloadLine ++ post).
    split; [rewrite Hr, <- !app_assoc; reflexivity|].
    right. split; [reflexivity|]. exists pre, post. auto.
  - eexists. split; [reflexivity|]. left. auto.
Qed.

Lemma injected_has_name (projectPath source content : text) (p : project) :
  project_godot p = Some content ->
  exists content',
    project_godot (injectInteractionServer projectPath (Some source) p).1.1 = Some content'
    /\ includes AUTOLOAD_NAME content' = true
    /\ server_script (injectInteractionServer projectPath (Some source) p).1.1 = Some source.
Proof.
  intros Hc. destruct (includes AUTOLOAD_NAME content) eqn:Hn.
  - exists content. unfold injectInteractionServer.
    cbn [set_server_script project_godot]. rewrite Hc, Hn. cbn [fst snd].
    repeat split; auto.
  - destruct (injected_clean projectPath source content p Hc Hn) as (content' & -> & Hform).
    exists content'. cbn [fst snd]. split; [reflexivity|]. split; [|reflexivity].
    destruct Hform as [[_ ->]|(_ & pre & post & _ & _ & ->)].
    + replace (content ++ [LF] ++ lit "[autoload]" ++ [LF; LF] ++ autoloadLine ++ [LF])
        with ((content ++ [LF] ++ lit "[autoload]" ++ [LF; LF]) ++ autoloadLine ++ [LF])
        by (rewrite <- !app_assoc; reflexivity).
      apply name_in_entry.
    + replace (pre ++ lit "[autoload]" ++ [LF; LF] ++ autoloadLine ++ post)
        with ((pre ++ lit "[autoload]" ++ [LF; LF]) ++ autoloadLine ++ post)
        by (rewrite <- !app_assoc; reflexivity).
      apply name_in_entry.
Qed.

(** X20. [injectInteractionServer] copies the script and leaves
    [project.godot] with one autoload entry for it. A file that mentions
    the autoload's name anywhere is not written at all; otherwise the entry
    goes two line feeds below the first [[autoload]] of the file, or, when
    the file has none, into a new section at the end; nothing else of the
    file changes. Injecting again changes nothing. *)
Theorem injection_enters_one_entry (projectPath source content : text) (p : project) :
  project_godot p = Some content ->
  let r := injectInteractionServer projectPath (Some source) p in
  r.2 = None
  /\ server_script r.1.1 = Some source
  /\ server_uid r.1.1 = server_uid p
  /\ (injectInteractionServer projectPath (Some source) r.1.1).1.1 = r.1.1
  /\ exists content',
       project_godot r.1.1 = Some content'
       /\ includes AUTOLOAD_NAME content' = true
       /\ (includes AUTOLOAD_NAME content = true -> content' = content)
       /\ (includes AUTOLOAD_NAME content = false ->
           includes (lit "[autoload]") content = false ->
           content' = content ++ [LF] ++ lit "[autoload]" ++ [LF; LF] ++ autoloadLine ++ [LF])
       /\ (includes AUTOLOAD_NAME content = false ->
           includes (lit "[autoload]") content = true ->
           exists pre post,
             content = pre ++ lit "[autoload]" ++ post
             /\ includes (lit "[autoload]") (pre ++ lit "[autoload") = false
             /\ content' = pre ++ lit "[autoload]" ++ [LF; LF] ++ autoloadLine ++ post).
Proof.
  intros Hc r.
  assert (Again : forall q c',
            project_godot q = Some c' -> server_script q = Some source ->
            includes AUTOLOAD_NAME c' = true ->
            (injectInteractionServer projectPath (Some source) q).1.1 = q).
  { intros [g sc u] c' Hg Hs Hi. simpl in Hg, Hs. subst g sc.
    unfold injectInteractionServer. cbn [set_server_script project_godot server_script server_uid].
    rewrite Hi. reflexivity. }
  destruct (includes AUTOLOAD_NAME content) eqn:Hn.
  - assert (Er : r = (set_server_script (Some source) p,
                      [CopiedScript projectPath; AutoloadAlreadyPresent], None)).
    { subst r. unfold injectInteractionServer.
      cbn [set_server_script project_godot]. rewrite Hc, Hn. reflexivity. }
    clearbody r. subst r. cbn [fst snd].
    refine (conj eq_refl (conj eq_refl (conj eq_refl (conj _ _)))).
    + apply (Again _ content); auto.
    + exists content. split; [exact Hc|]. repeat split; auto; discriminate.
  - destruct (includes (lit "[autoload]") content) eqn:Hh.
    + destruct (replace_first_split (lit "[autoload]")
                  (lit "[autoload]" ++ [LF; LF] ++ autoloadLine) content)
        as (pre & post & Hs & Hf & Hr); [discriminate|exact Hh|].
      assert (Er : r = (set_project_godot
                          (Some (pre ++ lit "[autoload]" ++ [LF; LF] ++ autoloadLine ++ post))
                          (set_server_script (Some source) p),
                        [CopiedScript projectPath; InjectedAutoload], None)).
      { subst r. unfold injectInteractionServer.
        cbn [set_server_script project_godot]. rewrite Hc, Hn, Hh, Hr, <- !app_assoc.
        reflexivity. }
      clearbody r. subst r. cbn [fst snd].
      assert (Hi : includes AUTOLOAD_NAME
                     (pre ++ lit "[autoload]" ++ [LF; LF] ++ autoloadLine ++ post) = true).
      { replace (pre ++ lit "[autoload]" ++ [LF; LF] ++ autoloadLine ++ post)
          with ((pre ++ lit "[autoload]" ++ [LF; LF]) ++ autoloadLine ++ post)
          by (rewrite <- !app_assoc; reflexivity).
        apply name_in_entry. }
      refine (conj eq_refl (conj eq_refl (conj eq_refl (conj _ _)))).
      * eapply Again; [reflexivity|reflexivity|exact Hi].
      * eexists. split; [reflexivity|]. split; [exact Hi|].
        split; [discriminate|]. split; [discriminate|].
        intros _ _. exists pre, post. split; [exact Hs|]. split; [exact Hf|]. reflexivity.
    + assert (Er : r = (set_project_godot
                          (Some (content ++ [LF] ++ lit "[autoload]" ++ [LF; LF]
                                 ++ autoloadLine ++ [LF]))
                          (set_server_script (Some source) p),
                        [CopiedScript projectPath; InjectedAutoload], None)).
      { subst r. unfold injectInteractionServer.
        cbn [set_server_script project_godot]. rewrite Hc, Hn, Hh. reflexivity. }
      clearbody r. subst r. cbn [fst snd].
      assert (Hi : includes AUTOLOAD_NAME
                     (content ++ [LF] ++ lit "[autoload]" ++ [LF; LF] ++ autoloadLine ++ [LF])
                   = true).
      { replace (content ++ [LF] ++ lit "[autoload]" ++ [LF; LF] ++ autoloadLine ++ [LF])
          with ((content ++ [LF] ++ lit "[autoload]" ++ [LF; LF]) ++ autoloadLine ++ [LF])
          by (rewrite <- !app_assoc; reflexivity).
        apply name_in_entry. }
      refine (conj eq_refl (conj eq_refl (conj eq_refl (conj _ _)))).
      * eapply Again; [reflexivity|reflexivity|exact Hi].
      * eexists. split; [reflexivity|]. split; [exact Hi|].
        split; [discriminate|]. split; [reflexivity|]. discriminate.
Qed.

(** What removal leaves of a file that did not mention the name before
    the entry went in. *)
Lemma removal_after_injection (content content' : text) :
  includes AUTOLOAD_NAME content = false ->
  (includes (lit "[autoload]") content = false
   /\ content' = content ++ [LF] ++ lit "[autoload]" ++ [LF; LF] ++ autoloadLine ++ [LF])
  \/ (exists pre post, content = pre ++ lit "[autoload]" ++ post
      /\ content' = pre ++ lit "[autoload]" ++ [LF; LF] ++ autoloadLine ++ post) ->
  includes AUTOLOAD_NAME (remove_autoload content') = false
  /\ (length content < length (remove_autoload content'))%nat
  /\ (forall pre post, content' = pre ++ lit "[autoload]" ++ [LF; LF] ++ autoloadLine ++ post ->
      includes AUTOLOAD_NAME (pre ++ lit "[autoload]") = false ->
      remove_autoload content'
      = pre ++ lit "[autoload]" ++ [LF; LF] ++ drop_line_feed post).
Proof.
  intros Hn Hc.
  assert (At : forall pre post,
            content' = pre ++ lit "[autoload]" ++ [LF; LF] ++ autoloadLine ++ post ->
            includes AUTOLOAD_NAME (pre ++ lit "[autoload]") = false ->
            remove_autoload content'
            = pre ++ lit "[autoload]" ++ [LF; LF] ++ drop_line_feed post).
  { intros pre post -> Hp.
    replace (pre ++ lit "[autoload]" ++ [LF; LF] ++ autoloadLine ++ post)
      with ((pre ++ lit "[autoload]" ++ [LF]) ++ LF :: autoloadLine ++ post)
      by (rewrite <- !app_assoc; reflexivity).
    rewrite remove_autoload_at; [rewrite <- !app_assoc; reflexivity|].
    apply line_not_included.
    replace (pre ++ lit "[autoload]" ++ [LF]) with ((pre ++ lit "[autoload]") ++ LF :: [])
      by (rewrite <- !app_assoc; reflexivity).
    rewrite (includes_foreign _ _ _ _ name_has_no_line_feed), Hp. reflexivity. }
  assert (Cut : forall a b, includes AUTOLOAD_NAME (a ++ b) = false ->
                            includes AUTOLOAD_NAME a = false
                            /\ includes AUTOLOAD_NAME b = false).
  { intros a b E. split.
    - destruct (includes AUTOLOAD_NAME a) eqn:Ea; [|reflexivity].
      rewrite <- E. symmetry.
      apply (includes_within AUTOLOAD_NAME [] a b Ea).
    - destruct (includes AUTOLOAD_NAME b) eqn:Eb; [|reflexivity].
      rewrite <- E. symmetry.
      pose proof (includes_within AUTOLOAD_NAME a b [] Eb) as Hw.
      rewrite app_nil_r in Hw. exact Hw. }
  split; [|split; [|exact At]].
  - destruct Hc as [[Hh ->]|(pre & post & -> & ->)].
    + rewrite (At (content ++ [LF]) [LF]).
      * simpl drop_line_feed.
        replace ((content ++ [LF]) ++ lit "[autoload]" ++ [LF; LF] ++ [])
          with (content ++ LF :: lit "[autoload]" ++ [LF; LF])
          by (rewrite <- !app_assoc; reflexivity).
        rewrite (includes_foreign _ _ _ _ name_has_no_line_feed), Hn. reflexivity.
      * rewrite <- !app_assoc. reflexivity.
      * rewrite <- app_assoc.
        change ([LF] ++ lit "[autoload]") with (LF :: lit "[autoload]").
        rewrite (includes_foreign _ _ _ _ name_has_no_line_feed), Hn. reflexivity.
    + replace (pre ++ lit "[autoload]" ++ post) with ((pre ++ lit "[autoload]") ++ post) in Hn
        by (rewrite <- app_assoc; reflexivity).
      destruct (Cut _ _ Hn) as [Hp Hpost].
      rewrite (At pre post eq_refl Hp).
      replace (pre ++ lit "[autoload]" ++ [LF; LF] ++ drop_line_feed post)
        with ((pre ++ lit "[autoload]") ++ LF :: [] ++ LF :: drop_line_feed post)
        by (rewrite <- !app_assoc; reflexivity).
      rewrite !(includes_foreign _ _ _ _ name_has_no_line_feed), Hp.
      assert (Hd : includes AUTOLOAD_NAME (drop_line_feed post) = false).
      { destruct post as [|c post]; [reflexivity|]. simpl.
        destruct (c =? LF)%N; [|exact Hpost].
        apply (Cut [c] post Hpost). }
      rewrite Hd. reflexivity.
  - assert (Hd : forall post, (length post <= S (length (drop_line_feed post)))%nat).
    { intros [|c post]; simpl; [lia|]. destruct (c =? LF)%N; simpl; lia. }
    destruct Hc as [[Hh ->]|(pre & post & -> & ->)].
    + rewrite (At (content ++ [LF]) [LF]).
      * rewrite !length_app. simpl. lia.
      * rewrite <- !app_assoc. reflexivity.
      * rewrite <- app_assoc.
        change ([LF] ++ lit "[autoload]") with (LF :: lit "[autoload]").
        rewrite (includes_foreign _ _ _ _ name_has_no_line_feed), Hn. reflexivity.
    + replace (pre ++ lit "[autoload]" ++ post) with ((pre ++ lit "[autoload]") ++ post) in Hn
        by (rewrite <- app_assoc; reflexivity).
      destruct (Cut _ _ Hn) as [Hp Hpost].
      rewrite (At pre post eq_refl Hp).
      specialize (Hd post). rewrite !length_app. simpl. lia.
Qed.

(** *** The events that leave the project alone *)

Section Connection.
Context `{Runtime}.

Lemma projectPath_resolver (c : call_id) (v : any) (s : GodotServer) :
  projectPath (gameConnection (resolver c v s)) = projectPath (gameConnection s).
Proof. reflexivity. Qed.

Lemma projectPath_deliver (line : text) (s : GodotServer) :
  projectPath (gameConnection (deliver line s)) = projectPath (gameConnection s).
Proof.
  unfold deliver. destruct (pendingResolve (gameConnection s)); [|reflexivity].
  destruct (Z.of_nat (length line) >? 0); [|reflexivity].
  destruct (JSON_parse line); reflexivity.
Qed.

Lemma projectPath_process_lines (fuel : nat) :
  forall s, projectPath (gameConnection (Controller.process_lines fuel s))
            = projectPath (gameConnection s).
Proof.
  induction fuel as [|fuel IH]; intros s; simpl.
  - destruct (Text.index_of LF (responseBuffer (gameConnection s)) >=? 0); reflexivity.
  - destruct (Text.index_of LF (responseBuffer (gameConnection s)) >=? 0); [|reflexivity].
    rewrite IH, projectPath_deliver. reflexivity.
Qed.

Lemma projectPath_step (e : Controller.event) (s : GodotServer) :
  projectPath (gameConnection (Controller.step e s)) = projectPath (gameConnection s).
Proof.
  destruct e; cbn [Controller.step].
  - unfold sendGameCommand.
    destruct (connected (gameConnection s)), (socket (gameConnection s)); reflexivity.
  - unfold on_data. rewrite projectPath_process_lines. reflexivity.
  - unfold on_close. cbn.
    destruct (pendingResolve (gameConnection s)); reflexivity.
  - unfold timer_fired. destruct (timers s !! c) as [[command timeoutMs]|]; reflexivity.
  - reflexivity.
  - unfold disconnectFromGame.
    destruct (socket (gameConnection s)); cbn;
      destruct (pendingResolve (gameConnection s)); reflexivity.
Qed.

End Connection.

Section Server.
Context `{ObjectPrototype} `{Host} `{Runtime}.

Lemma error_response_is_error (text : text) (solutions : list Text.text) (s : GodotMcp) :
  isError (createErrorResponse text solutions s).1 = true.
Proof. unfold createErrorResponse. destruct solutions; reflexivity. Qed.

Lemma passing_step (e : event) (s : GodotMcp) :
  passing e = true -> unchanged s (step e s).
Proof.
  destruct e; try discriminate; intros _; unfold unchanged; cbn [step].
  - unfold on_stdout. destruct (streams s !! process) as [[output errors]|]; repeat split.
  - unfold on_stderr. destruct (streams s !! process) as [[output errors]|]; repeat split.
  - cbn. rewrite projectPath_step. repeat split.
Qed.

Lemma passing_run (es : list event) :
  forall s, Forall (fun e => passing e = true) es -> unchanged s (run es s).
Proof.
  induction es as [|e es IH]; intros s Hes.
  - repeat split.
  - inversion Hes as [|? ? He Hes']; subst.
    destruct (passing_step e s He) as (E1 & E2 & E3 & E4 & E5 & E6).
    destruct (IH (step e s) Hes') as (F1 & F2 & F3 & F4 & F5 & F6).
    unfold unchanged. change (run (e :: es) s) with (run es (step e s)).
    rewrite F1, F2, F3, F4, F5, F6. repeat split; assumption.
Qed.

Lemma removal_result (p : project) :
  project_godot (removeInteractionServer p).1 = remove_autoload <$> project_godot p
  /\ server_script (removeInteractionServer p).1 = None
  /\ server_uid (removeInteractionServer p).1 = None.
Proof. destruct p as [[g|] [sc|] [u|]]; repeat split. Qed.

Lemma kill_existing_keeps (s : GodotMcp) :
  interactionScript (kill_existing s) = interactionScript s
  /\ spawned (kill_existing s) = spawned s
  /\ godotPath (kill_existing s) = godotPath s
  /\ activeProcess (kill_existing s) = activeProcess s
  /\ (forall d c, project_godot (disk s d) = Some c ->
        exists c', project_godot (disk (kill_existing s) d) = Some c').
Proof.
  unfold kill_existing. destruct (activeProcess s) as [existing|] eqn:Ea.
  2:{ repeat split; auto. intros d c Hc. exists c. exact Hc. }
  unfold remove_from_current_project.
  set (s0 := set_connection _ _).
  destruct (projectPath (gameConnection (connection s0))) as [[|c0 path]|].
  1,3: repeat split; auto; intros d c Hc; exists c; exact Hc.
  destruct (removeInteractionServer (disk s0 (directory (c0 :: path)))) as [p lines] eqn:Er.
  repeat split; auto.
  intros d c Hc. cbn. destruct (decide (d = directory (c0 :: path))) as [->|_].
  - destruct (removal_result (disk s0 (directory (c0 :: path)))) as [Hg _].
    rewrite Er in Hg. cbn [fst] in Hg.
    change (disk s0 (directory (c0 :: path))) with (disk s (directory (c0 :: path))) in Hg.
    rewrite Hc in Hg. eexists. exact Hg.
  - exists c. exact Hc.
Qed.

(** What a launch that raises no error has done. *)
Lemma launched (args : any) (s s1 : GodotMcp) (r : tool_result) :
  handleRunProject args s = (Replied r, s1) -> isError r = false ->
  exists path source,
    property (normalizeParameters args) (lit "projectPath") = Some (Str path)
    /\ path <> []
    /\ interactionScript s = Some source
    /\ disk s1 = (fun d => if decide (d = directory path)
                           then (injectInteractionServer path (Some source)
                                   (disk (kill_existing s) (directory path))).1.1
                           else disk (kill_existing s) d)
    /\ (injectInteractionServer path (Some source)
          (disk (kill_existing s) (directory path))).2 = None
    /\ activeProcess s1 = Some (length (spawned s))
    /\ projectPath (gameConnection (connection s1)) = Some path
    /\ killed s1 = killed (kill_existing s)
    /\ interactionScript s1 = interactionScript s
    /\ exists c, project_godot (disk s (directory path)) = Some c.
Proof.
  unfold handleRunProject. intros Hrun Herr.
  destruct (property (normalizeParameters args) (lit "projectPath")) as [pp|] eqn:Hpp;
    [|discriminate].
  destruct (truthy pp) eqn:Ht; cbn [negb] in Hrun.
  2:{ destruct (createErrorResponse _ _ s) as [r' s'] eqn:Ec. injection Hrun as <- <-.
      pose proof (error_response_is_error (lit "Project path is required")
                    [lit "Provide a valid path to a Godot project directory"] s) as He.
      rewrite Ec in He. simpl in He. congruence. }
  destruct (validatePath pp) as [[|]|] eqn:Hv; [| |discriminate].
  2:{ match type of Hrun with
      | (let (_, _) := createErrorResponse ?m ?l s in _) = _ =>
          pose proof (error_response_is_error m l s) as He;
          destruct (createErrorResponse m l s) as [r' s'] eqn:Ec
      end.
      injection Hrun as <- <-. simpl in He. congruence. }
  assert (Hfail : forall e s',
            (let (r0, s2) :=
               createErrorResponse (lit "Failed to run Godot project: " ++ message e)
                 [lit "Ensure Godot is installed correctly";
                  lit "Check if the GODOT_PATH environment variable is set correctly";
                  lit "Verify the project path is accessible"] s' in
             (Replied r0, s2)) = (Replied r, s1) -> False).
  { intros e s' Hf.
    match type of Hf with
    | (let (_, _) := createErrorResponse ?m ?l s' in _) = _ =>
        pose proof (error_response_is_error m l s') as He;
        destruct (createErrorResponse m l s') as [r' s''] eqn:Ec
    end.
    injection Hf as <- <-. simpl in He. congruence. }
  destruct pp as [| | |path| |]; try (exfalso; exact (Hfail _ _ Hrun)).
  assert (Hne : path <> []) by (destruct path; [discriminate|discriminate]).
  destruct (run_project path (normalizeParameters args) s) as [[e|r'] s'] eqn:Erun;
    [exfalso; exact (Hfail _ _ Hrun)|].
  injection Hrun as <- <-.
  unfold run_project in Erun.
  destruct (project_godot (disk s (directory path))) as [c|] eqn:Hc.
  2:{ match type of Erun with
      | (let (_, _) := createErrorResponse ?m ?l s in _) = _ =>
          pose proof (error_response_is_error m l s) as He;
          destruct (createErrorResponse m l s) as [r0 s0] eqn:Ec
      end.
      injection Erun as <- <-. simpl in He. congruence. }
  destruct (kill_existing_keeps s) as (K1 & K2 & K3 & K4 & K5).
  destruct (interactionScript s) as [source|] eqn:Hsrc.
  2:{ rewrite K1 in Erun. cbn in Erun. discriminate. }
  exists path, source. rewrite K1 in Erun.
  destruct (injectInteractionServer path (Some source)
              (disk (kill_existing s) (directory path))) as [[p lines] thrown] eqn:Einj.
  destruct thrown as [e|]; [discriminate|].
  match type of Erun with
  | context [if truthy ?scene then _ else _] =>
      destruct (truthy scene);
        [destruct (validatePath scene) as [[|]|]; [| |discriminate]|]
  end;
    cbn in Erun;
    rewrite K3 in Erun;
    match type of Erun with
    | context [spawn_throws ?g ?a] => destruct (spawn_throws g a); [discriminate|]
    end;
    injection Erun as <- <-; cbn; rewrite K2;
    repeat split; auto; exists c; exact Hc.
Qed.

Lemma projectPath_disconnect (c : GodotServer) :
  projectPath (gameConnection (disconnectFromGame c)) = projectPath (gameConnection c).
Proof. exact (projectPath_step Disconnect c). Qed.

Lemma connected_disconnect (c : GodotServer) :
  connected (gameConnection (disconnectFromGame c)) = false.
Proof.
  unfold disconnectFromGame.
  destruct (socket (gameConnection c)); cbn;
    destruct (pendingResolve (gameConnection c)); reflexivity.
Qed.

Lemma stop_result (s : GodotMcp) (process : process_id) (path : text) :
  activeProcess s = Some process ->
  projectPath (gameConnection (connection s)) = Some path -> path <> [] ->
  let s2 := (handleStopProject s).2 in
  activeProcess s2 = None
  /\ killed s2 = killed s ++ [process]
  /\ projectPath (gameConnection (connection s2)) = None
  /\ connected (gameConnection (connection s2)) = false
  /\ disk s2 = removed_at path s.
Proof.
  intros Ha Hp Hne s2. subst s2. unfold handleStopProject. rewrite Ha.
  cbn [log kill set_connection set_activeProcess connection activeProcess streams].
  destruct (default ([], []) (streams s !! process)) as [output errors].
  rewrite projectPath_disconnect, Hp.
  destruct path as [|c0 path]; [congruence|].
  unfold remove_from_current_project.
  cbn [log kill set_connection set_activeProcess connection activeProcess disk].
  rewrite projectPath_disconnect, Hp.
  destruct (removeInteractionServer (disk s (directory (c0 :: path)))) as [p lines] eqn:Er.
  cbn [snd]. unfold removed_at. rewrite Er.
  cbn. rewrite connected_disconnect. repeat split.
Qed.

Lemma exit_result (s : GodotMcp) (process : process_id) (code : option Z) (path : text) :
  projectPath (gameConnection (connection s)) = Some path -> path <> [] ->
  let s2 := on_exit process code s in
  activeProcess s2
  = match activeProcess s with
    | Some active => if decide (active = process) then None else Some active
    | None => None
    end
  /\ projectPath (gameConnection (connection s2)) = None
  /\ connected (gameConnection (connection s2)) = false
  /\ disk s2 = removed_at path s.
Proof.
  intros Hp Hne s2. subst s2. unfold on_exit.
  cbn [log set_connection connection activeProcess].
  rewrite projectPath_disconnect, Hp.
  destruct path as [|c0 path]; [congruence|].
  unfold remove_from_current_project.
  cbn [log set_connection connection activeProcess disk].
  rewrite projectPath_disconnect, Hp.
  destruct (removeInteractionServer (disk s (directory (c0 :: path)))) as [p lines] eqn:Er.
  unfold removed_at. rewrite Er.
  cbn. destruct (activeProcess s) as [active|] eqn:Ea;
    [destruct (decide (active = process))|];
    cbn; rewrite connected_disconnect; repeat split; exact Ea.
Qed.

Lemma kill_existing_idle (s : GodotMcp) : activeProcess s = None -> kill_existing s = s.
Proof. intros E. unfold kill_existing. rewrite E. reflexivity. Qed.

(** X21. A project started with [run_project] and stopped with
    [stop_project] does not get its [project.godot] back as it was. For a
    file that did not mention the autoload's name, whatever the game prints
    and whatever happens on the connection in between: the script and its
    [.uid] file are gone, the name is gone from the file and no other
    directory is touched, but the file is longer than it was: a file
    without an [[autoload]] section ends with an empty one, and a file with
    the section has two line feeds after its first [[autoload]], in place
    of the one, if any, that followed it. The process started is killed and
    the project path forgotten. *)
Theorem run_then_stop_leaves_a_trace (args : any) (s s1 : GodotMcp) (r : tool_result)
  (path content : text) (es : list event) :
  activeProcess s = None ->
  handleRunProject args s = (Replied r, s1) -> isError r = false ->
  property (normalizeParameters args) (lit "projectPath") = Some (Str path) ->
  project_godot (disk s (directory path)) = Some content ->
  includes AUTOLOAD_NAME content = false ->
  Forall (fun e => passing e = true) es ->
  let s2 := (handleStopProject (run es s1)).2 in
  let d := directory path in
  activeProcess s2 = None
  /\ killed s2 = killed s ++ [length (spawned s)]
  /\ projectPath (gameConnection (connection s2)) = None
  /\ (forall d', d' <> d -> disk s2 d' = disk s d')
  /\ server_script (disk s2 d) = None
  /\ server_uid (disk s2 d) = None
  /\ exists content2,
       project_godot (disk s2 d) = Some content2
       /\ includes AUTOLOAD_NAME content2 = false
       /\ (length content < length content2)%nat
       /\ (includes (lit "[autoload]") content = false ->
           content2 = content ++ [LF] ++ lit "[autoload]" ++ [LF; LF])
       /\ (includes (lit "[autoload]") content = true ->
           exists pre post,
             content = pre ++ lit "[autoload]" ++ post
             /\ includes (lit "[autoload]") (pre ++ lit "[autoload") = false
             /\ content2 = pre ++ lit "[autoload]" ++ [LF; LF] ++ drop_line_feed post).
Proof.
  intros Ha Hrun Herr Hpp Hc Hn Hes s2 d.
  destruct (launched args s s1 r Hrun Herr)
    as (path' & source & Hpp' & Hne & Hsrc & Hdisk & _ & Hact & Hpath & Hk & _ & _).
  rewrite Hpp in Hpp'. injection Hpp' as <-.
  rewrite (kill_existing_idle s Ha) in Hdisk, Hk.
  destruct (passing_run es s1 Hes) as (E1 & E2 & E3 & E4 & _ & _).
  rewrite Hact in E2. rewrite Hpath in E3.
  destruct (stop_result (run es s1) _ path E2 E3 Hne) as (S1 & S2 & S3 & _ & S5).
  fold s2 in S1, S2, S3, S5.
  destruct (injected_clean path source content (disk s d) Hc Hn) as (content' & Einj & Hform).
  assert (Hd : disk s2 d
               = (removeInteractionServer
                    (set_project_godot (Some content')
                       (set_server_script (Some source) (disk s d)))).1).
  { rewrite S5. unfold removed_at. fold d. destruct (decide (d = d)); [|congruence].
    rewrite E1, Hdisk. fold d. destruct (decide (d = d)); [|congruence].
    rewrite Einj. reflexivity. }
  split; [exact S1|]. split; [rewrite S2, E4, Hk; reflexivity|]. split; [exact S3|].
  split.
  { intros d' Hd'. rewrite S5. unfold removed_at. fold d.
    destruct (decide (d' = d)); [congruence|]. rewrite E1, Hdisk. fold d.
    destruct (decide (d' = d)); [congruence|]. reflexivity. }
  destruct (removal_result (set_project_godot (Some content')
                              (set_server_script (Some source) (disk s d))))
    as (R1 & R2 & R3).
  rewrite Hd. split; [exact R2|]. split; [exact R3|].
  exists (remove_autoload content'). split; [exact R1|].
  assert (Hform' :
    (includes (lit "[autoload]") content = false
     /\ content' = content ++ [LF] ++ lit "[autoload]" ++ [LF; LF] ++ autoloadLine ++ [LF])
    \/ (exists pre post, content = pre ++ lit "[autoload]" ++ post
        /\ content' = pre ++ lit "[autoload]" ++ [LF; LF] ++ autoloadLine ++ post)).
  { destruct Hform as [Hl|(_ & pre & post & H1' & _ & H3')]; [left; exact Hl|].
    right. exists pre, post. auto. }
  destruct (removal_after_injection content content' Hn Hform') as (Q1 & Q2 & Q3).
  split; [exact Q1|]. split; [exact Q2|].
  assert (Hcut : forall a b, a ++ b = content -> includes AUTOLOAD_NAME a = false).
  { intros a b <-. destruct (includes AUTOLOAD_NAME a) eqn:Ea; [|reflexivity].
    rewrite <- Hn. symmetry. apply (includes_within AUTOLOAD_NAME [] a b Ea). }
  split.
  - intros Hh. destruct Hform as [[_ ->]|[Hh' _]]; [|congruence].
    rewrite (Q3 (content ++ [LF]) [LF]).
    + rewrite <- !app_assoc. reflexivity.
    + rewrite <- !app_assoc. reflexivity.
    + rewrite <- app_assoc. change ([LF] ++ lit "[autoload]") with (LF :: lit "[autoload]").
      rewrite (includes_foreign _ _ _ _ name_has_no_line_feed), Hn. reflexivity.
  - intros Hh. destruct Hform as [[Hh' _]|(_ & pre & post & H1' & H2' & H3')]; [congruence|].
    exists pre, post. split; [exact H1'|]. split; [exact H2'|].
    apply (Q3 pre post H3').
    apply (Hcut (pre ++ lit "[autoload]") post). rewrite <- app_assoc. symmetry. exact H1'.
Qed.

(** X22. Starting a project while a game is running takes the agent out of
    the project just started. [run_project] kills the old process, injects
    the script and the autoload entry and makes the new process the active
    one; when the old process then exits, whatever happened in between, its
    exit handler removes the script and the first autoload entry from the
    new project, closes the connection and forgets the project path, while
    the new process stays the active one. *)
Theorem restart_undoes_the_injection (args : any) (s s1 : GodotMcp) (r : tool_result)
  (path : text) (old : process_id) (code : option Z) (es : list event) :
  activeProcess s = Some old -> (old < length (spawned s))%nat ->
  handleRunProject args s = (Replied r, s1) -> isError r = false ->
  property (normalizeParameters args) (lit "projectPath") = Some (Str path) ->
  Forall (fun e => passing e = true) es ->
  let s2 := on_exit old code (run es s1) in
  let d := directory path in
  killed s1 = killed s ++ [old]
  /\ activeProcess s1 = Some (length (spawned s))
  /\ activeProcess s2 = Some (length (spawned s))
  /\ (exists source, interactionScript s = Some source
                     /\ server_script (disk s1 d) = Some source)
  /\ (exists injected,
        project_godot (disk s1 d) = Some injected
        /\ includes AUTOLOAD_NAME injected = true
        /\ project_godot (disk s2 d) = Some (remove_autoload injected))
  /\ server_script (disk s2 d) = None
  /\ projectPath (gameConnection (connection s2)) = None
  /\ connected (gameConnection (connection s2)) = false.
Proof.
  intros Ha Hold Hrun Herr Hpp Hes s2 d.
  destruct (launched args s s1 r Hrun Herr)
    as (path' & source & Hpp' & Hne & Hsrc & Hdisk & Hthrown & Hact & Hpath & Hk & _ & c & Hc).
  rewrite Hpp in Hpp'. injection Hpp' as <-. fold d in Hdisk, Hthrown, Hc.
  destruct (kill_existing_keeps s) as (_ & _ & _ & _ & K5).
  destruct (K5 d c Hc) as [c0 Hc0].
  destruct (passing_run es s1 Hes) as (E1 & E2 & E3 & _ & _ & _).
  rewrite Hact in E2. rewrite Hpath in E3.
  destruct (exit_result (run es s1) old code path E3 Hne) as (X1 & X2 & X3 & X4).
  fold s2 in X1, X2, X3, X4. rewrite E2 in X1.
  assert (Hd1 : disk s1 d = (injectInteractionServer path (Some source)
                               (disk (kill_existing s) d)).1.1).
  { rewrite Hdisk. destruct (decide (d = d)); [reflexivity|congruence]. }
  assert (Hd2 : disk s2 d = (removeInteractionServer (disk s1 d)).1).
  { rewrite X4. unfold removed_at. fold d. destruct (decide (d = d)); [|congruence].
    rewrite E1. reflexivity. }
  destruct (removal_result (disk s1 d)) as (R1 & R2 & _).
  assert (Hinj : exists injected,
            project_godot (disk s1 d) = Some injected
            /\ includes AUTOLOAD_NAME injected = true
            /\ server_script (disk s1 d) = Some source).
  { rewrite Hd1.
    destruct (injected_has_name path source c0 (disk (kill_existing s) d) Hc0)
      as (injected & I1 & I2 & I3).
    exists injected. auto. }
  destruct Hinj as (injected & I1 & I2 & I3).
  split.
  { rewrite Hk. unfold kill_existing. rewrite Ha.
    unfold remove_from_current_project.
    match goal with
    | |- context [projectPath ?g] => destruct (projectPath g) as [[|c1 p1]|]
    end; try reflexivity.
    match goal with
    | |- context [removeInteractionServer ?p] => destruct (removeInteractionServer p)
    end. reflexivity. }
  split; [exact Hact|].
  split. { rewrite X1. case_decide; [lia|reflexivity]. }
  split; [exists source; auto|].
  split. { exists injected. rewrite Hd2, R1, I1. auto. }
  split; [rewrite Hd2; exact R2|]. auto.
Qed.




End Server.

End LifecycleSpec.

(** ** The search for projects *)

Module ProjectsSpec.
Import Controller Tools Projects.

Section Search.
Context `{Paths}.

Lemma tree_nested_ind (P : tree -> Prop) :
  (forall project_file, P (Dir project_file None)) ->
  (forall project_file entries,
     Forall (fun entry => match entry.2 with
                          | Some subdir => P subdir
                          | None => True
                          end) entries ->
     P (Dir project_file (Some entries))) ->
  forall t, P t.
Proof.
  intros Hnone Hsome. fix IH 1. intros [project_file [entries|]]; [|apply Hnone].
  apply Hsome. induction entries as [|[name [subdir|]] entries IHentries].
  - constructor.
  - constructor; [exact (IH subdir)|exact IHentries].
  - constructor; [exact I|exact IHentries].
Qed.

(** X24. What [findGodotProjects] lists. Without [recursive]: the
    directory itself when it holds a [project.godot], and every immediate
    subdirectory that holds one, hidden or not. With [recursive]: the
    directory itself when it holds one, and below it every subdirectory
    holding one that is reached through listable directories holding none
    and through no name starting with a dot; so nothing inside a project
    found below the directory is listed, and no hidden directory is. *)
Theorem project_search_lists (directory : text) (t : tree) (project : text * text) :
  (In project (findGodotProjects directory false t).1
   <-> (project_file t = true /\ project = (directory, basename directory))
       \/ (exists entries name subdir,
             listing t = Some entries /\ In (name, Some subdir) entries
             /\ project_file subdir = true /\ project = (join directory name, name)))
  /\ (In project (findGodotProjects directory true t).1
      <-> (project_file t = true /\ project = (directory, basename directory))
          \/ below directory t project).
Proof.
  split.
  - destruct t as [pf [entries|]]; cbn [findGodotProjects negb fst project_file listing].
    + rewrite in_app_iff, in_flat_map. split.
      * intros [Hin|([name [[[|] sub]|]] & Hin & Hp)].
        -- left. destruct pf; [destruct Hin as [<-|[]]; auto|destruct Hin].
        -- right. destruct Hp as [<-|[]]. exists entries, name, (Dir true sub). auto.
        -- destruct Hp.
        -- destruct Hp.
      * intros [[-> ->]|(entries' & name & [[|] sub] & [= <-] & Hin & Hp & ->)].
        -- left. left. reflexivity.
        -- right. exists (name, Some (Dir true sub)). split; [exact Hin|left; reflexivity].
        -- discriminate.
    + split.
      * intros Hin. left. destruct pf; [destruct Hin as [<-|[]]; auto|destruct Hin].
      * intros [[-> ->]|(entries' & ? & ? & [=] & _)]. left. reflexivity.
  - revert directory. induction t as [pf|pf entries IH] using tree_nested_ind; intros directory.
    + cbn [findGodotProjects negb fst project_file listing]. split.
      * intros Hin. left. destruct pf; [destruct Hin as [<-|[]]; auto|destruct Hin].
      * intros [[-> ->]|Hb]; [left; reflexivity|].
        inversion Hb; subst; discriminate.
    + cbn [findGodotProjects negb project_file listing].
      match goal with
      | |- context [let (found, errors) := ?search entries in _] =>
          set (loop := search)
      end.
      assert (Hloop : forall rest, (forall e, In e rest -> In e entries) ->
                Forall (fun entry => match entry.2 with
                          | Some subdir =>
                              forall directory,
                                In project (findGodotProjects directory true subdir).1
                                <-> (project_file subdir = true
                                     /\ project = (directory, basename directory))
                                    \/ below directory subdir project
                          | None => True
                          end) rest ->
                (In project (loop rest).1
                 <-> exists name subdir,
                       In (name, Some subdir) rest
                       /\ starts_with (lit ".") name = false
                       /\ ((project_file subdir = true
                            /\ project = (join directory name, name))
                           \/ (project_file subdir = false
                               /\ below (join directory name) subdir project)))).
      { induction rest as [|[name [subdir|]] rest IHrest]; intros Hsub Hall.
        - cbn. split; [intros []|intros (? & ? & [] & _)].
        - inversion Hall as [|? ? Hhere Hrest]; subst. cbn [snd] in Hhere.
          specialize (IHrest (fun e He => Hsub e (or_intror He)) Hrest).
          change (loop ((name, Some subdir) :: rest))
            with (let found :=
                    if starts_with (lit ".") name then ([], [])
                    else match subdir with
                         | Dir true _ => ([(join directory name, name)], [])
                         | Dir false _ => findGodotProjects (join directory name) true subdir
                         end in
                  let (more, errors) := loop rest in
                  (found.1 ++ more, found.2 ++ errors)).
          cbv zeta. destruct (loop rest) as [more errors] eqn:El. cbn [fst] in IHrest |- *.
          rewrite in_app_iff, IHrest. split.
          + intros [Hin|(name' & sub' & Hin & Hrest')].
            * destruct (starts_with (lit ".") name) eqn:Hdot; [destruct Hin|].
              exists name, subdir. split; [left; reflexivity|]. split; [exact Hdot|].
              destruct subdir as [[|] l].
              -- left. destruct Hin as [<-|[]]. auto.
              -- right. split; [reflexivity|].
                 apply (Hhere (join directory name)) in Hin as [[Hp _]|Hb];
                   [discriminate|exact Hb].
            * exists name', sub'. split; [right; exact Hin|exact Hrest'].
          + intros (name' & sub' & [[= <- <-]|Hin] & Hdot & Hcase).
            * left. rewrite Hdot. destruct subdir as [[|] l].
              -- destruct Hcase as [[_ ->]|[Hp _]]; [left; reflexivity|discriminate].
              -- destruct Hcase as [[Hp _]|[_ Hb]]; [discriminate|].
                 apply (Hhere (join directory name)). right. exact Hb.
            * right. exists name', sub'. auto.
        - inversion Hall as [|? ? _ Hrest]; subst.
          specialize (IHrest (fun e He => Hsub e (or_intror He)) Hrest).
          change (loop ((name, None) :: rest)) with (loop rest).
          rewrite IHrest. split.
          + intros (name' & sub' & Hin & Hrest'). exists name', sub'. split; [right|]; auto.
          + intros (name' & sub' & [[=]|Hin] & Hrest'). exists name', sub'. auto. }
      specialize (Hloop entries (fun e He => He) IH).
      destruct (loop entries) as [found errors]. cbn [fst] in Hloop |- *.
      rewrite in_app_iff, Hloop. split.
      * intros [Hin|(name & subdir & Hin & Hdot & [[Hp ->]|[Hp Hb]])].
        -- left. destruct pf; [destruct Hin as [<-|[]]; auto|destruct Hin].
        -- right. eapply below_project; eauto.
        -- right. eapply below_deeper; eauto.
      * intros [[-> ->]|Hb]; [left; left; reflexivity|]. right.
        inversion Hb as [? ? entries' name subdir Hl Hin Hdot Hp
                        |? ? entries' name subdir ? Hl Hin Hdot Hp Hb']; subst;
          cbn in Hl; injection Hl as <-; exists name, subdir; auto.
Qed.

End Search.

End ProjectsSpec.

(** * The models on concrete inputs *)

Module Scenarios.
Import Godot Fragment Inputs.

(** ** Witnesses *)

(** C1 on an agent whose [wait] is suspended: [get_performance] gets the
    busy error. *)
Lemma busy_rejection_applies :
  Agent._busy busy_agent = true
  /\ Agent._client busy_agent = Some {| Agent.sent := [] |}
  /\ Agent._handle_command (json_lit "{'command':'get_performance'}") busy_agent
     = Agent.set_client
         (Some {| Agent.sent :=
                    [encode (json_lit "{'error':'Server busy processing another command. Try again.'}"
                             ++ [LF])] |})
         busy_agent.
Proof.
  split; [reflexivity|]. split; [reflexivity|].
  exact (proj1 (AgentSpec.busy_rejection busy_agent {| Agent.sent := [] |}
                  (json_lit "{'command':'get_performance'}") eq_refl eq_refl)).
Defined.

(** C8 on an idle agent and the line [oops]. *)
Lemma malformed_applies :
  Agent._busy idle_agent = false
  /\ Agent.JSON_parse (lit "oops") = Agent.ParseError (lit "Parse error")
  /\ Agent._handle_command (lit "oops") idle_agent
     = Agent.set_client
         (Some {| Agent.sent :=
                    [encode (json_lit "{'error':'Invalid JSON: Parse error'}" ++ [LF])] |})
         idle_agent.
Proof.
  split; [reflexivity|]. split; [reflexivity|].
  exact (proj1 (AgentSpec.malformed_message_answered idle_agent {| Agent.sent := [] |}
                  eq_refl eq_refl)
           (lit "oops") (lit "Parse error") eq_refl).
Defined.


(** C4 on an object whose keys come as [w], [z], [y], [x]. *)
Lemma precedence_applies :
  _json_to_variant
    (dict_lit [("w", VInt 4); ("z", VInt 3); ("y", VInt 2); ("x", VInt 1)]) (lit "")
  = Some (VQuaternion (Quaternion.mk (float_of_Z 1) (float_of_Z 2) (float_of_Z 3)
                         (float_of_Z 4))).
Proof.
  exact (proj1 (proj2 (proj2 CodecSpec.auto_detection_precedence))
           [(VString (lit "w"), VInt 4); (VString (lit "z"), VInt 3);
            (VString (lit "y"), VInt 2); (VString (lit "x"), VInt 1)]
           eq_refl eq_refl eq_refl eq_refl eq_refl eq_refl).
Defined.

(** C6 on a controller with call 0 outstanding. *)
Lemma close_applies :
  Controller.pendingResolve (Controller.gameConnection awaiting) = Some 0%nat
  /\ Controller.settlements 0%nat (Controller.on_close awaiting)
     = [Controller.Resolved
          (Controller.Obj [(lit "error", Controller.Str (lit "Connection closed"))])].
Proof.
  split; [reflexivity|].
  exact (proj1 (ControllerSpec.close_resolves_exactly_once awaiting 0%nat eq_refl eq_refl (le_n 1))).
Defined.

(** C2, amended, on a controller with call 0 outstanding. *)
Lemma timeout_applies :
  Controller.timers awaiting !! 0%nat = Some (lit "wait", 1000)
  /\ Controller.settlements 0%nat (Controller.timer_fired 0%nat awaiting)
     = [Controller.Rejected (Controller.TimedOut (lit "wait") 1000)].
Proof.
  split; [vm_compute; reflexivity|].
  refine (proj1 (ControllerSpec.timeout_rejects_and_frees_slot awaiting 0%nat (lit "wait") 1000
                   _ eq_refl (le_n 1))).
  vm_compute; reflexivity.
Defined.

(** C10, amended, on a controller with call 0 outstanding and the line
    [oops]. *)
Lemma unparseable_applies :
  Controller.JSON_parse (lit "oops") = None
  /\ Controller.settled (Controller.deliver (lit "oops") awaiting) = Controller.settled awaiting.
Proof.
  split; [reflexivity|].
  exact (proj1 (ControllerSpec.unparseable_line_discarded awaiting 0%nat (lit "oops")
                  eq_refl eq_refl)).
Defined.


(** ** Counterexamples and failing inputs *)

(** C2, as stated, fails. The controller sends [wait] for 600 frames with a
    timeout of one second, and the timer fires; the caller then sends
    [get_performance]; the agent, still waiting, reaches its 600th frame
    and answers the [wait]. The bytes it writes are delivered to the call
    of [get_performance]. *)
Lemma late_response_reaches_next_call :
  let request := concat (map (fun w => encode w.2) (Controller.written awaiting)) in
  let agent := Nat.iter 600 Agent.emit_signal (Agent._process (delivers request) idle_agent) in
  let late := match Agent._client agent with
              | Some c => concat (Agent.sent c)
              | None => []
              end in
  let s := Controller.run [Controller.TimerFired 0%nat; get_performance; Controller.Data late]
             awaiting in
  Utf8.decode request = json_lit "{'command':'wait','params':{'frames':600}}" ++ [LF]
  /\ Utf8.decode late = json_lit "{'success':true,'waited_frames':600}" ++ [LF]
  /\ Controller.settlements 0%nat s
     = [Controller.Rejected (Controller.TimedOut (lit "wait") 1000)]
  /\ Controller.settlements 1%nat s
     = [Controller.Resolved
          (Controller.Obj [(lit "success", Controller.Bool true);
                           (lit "waited_frames", Controller.Number (float_of_Z 600))])].
Proof. vm_compute. repeat split. Qed.

(** C10, as stated, fails. After a line that does not parse the call is
    completed by the next line that does, with no timeout and no close. *)
Lemma next_line_completes_call :
  let s := Controller.run [Controller.Connect 7%nat; get_performance;
                           Controller.Data (encode (lit "oops" ++ [LF]));
                           Controller.Data (encode (json_lit "{'success':true}" ++ [LF]))]
             Controller.initial in
  Controller.JSON_parse (lit "oops") = None
  /\ Controller.diagnostics s
     = [Controller.ConnectedOnAttempt 1; Controller.FailedToParse (lit "oops")]
  /\ Controller.settlements 0%nat s
     = [Controller.Resolved (Controller.Obj [(lit "success", Controller.Bool true)])].
Proof. vm_compute. repeat split. Qed.

(** C5 fails on the code. The line [{"name":"é"}] delivered in one chunk is
    parsed as it was sent; delivered in two chunks that split the two bytes
    of [é], each half is decoded on its own and the message that reaches
    the caller has two U+FFFD in place of the character. *)
Lemma split_character_corrupts_message :
  let chunk1 := take 10 named_line in
  let chunk2 := drop 10 named_line in
  chunk1 ++ chunk2 = named_line
  /\ Controller.settlements 0%nat (Controller.on_data named_line awaiting)
     = [Controller.Resolved (Controller.Obj [(lit "name", Controller.Str [233%N])])]
  /\ Controller.settlements 0%nat (Controller.on_data chunk2 (Controller.on_data chunk1 awaiting))
     = [Controller.Resolved
          (Controller.Obj [(lit "name", Controller.Str [65533%N; 65533%N])])].
Proof. vm_compute. repeat split. Qed.

(** C7 fails on the code. A close event that arrives while half a frame is
    buffered leaves the half frame in the buffer; [disconnectFromGame]
    empties it. *)
Lemma close_keeps_partial_frame :
  let s := Controller.step (Controller.Data (encode (json_lit "{'succ"))) awaiting in
  let s' := Controller.step Controller.Close s in
  Controller.connected (Controller.gameConnection s') = false
  /\ Controller.pendingResolve (Controller.gameConnection s') = None
  /\ Controller.settlements 0%nat s'
     = [Controller.Resolved (Controller.error_object "Connection closed")]
  /\ Controller.responseBuffer (Controller.gameConnection s') = json_lit "{'succ"
  /\ Controller.responseBuffer (Controller.gameConnection (Controller.disconnectFromGame s)) = [].
Proof. vm_compute. repeat split. Qed.

(** ** The scenario of two commands sent back to back

    The second command arrives in the same chunk as the first, while the
    first is suspended: it gets the busy error at once, and the first is
    answered two frames later. *)
Example back_to_back_commands :
  let chunk := encode (json_lit "{'command':'wait','params':{'frames':2}}" ++ [LF]
                       ++ json_lit "{'command':'get_performance'}" ++ [LF]) in
  let s1 := Agent._process (delivers chunk) idle_agent in
  let s3 := Agent.emit_signal (Agent.emit_signal s1) in
  (Agent._busy s1 = true
   /\ Agent._client s1 = Some {| Agent.sent := [Agent.framed Agent.busy_response] |})
  /\ (Agent._busy s3 = false
      /\ Agent._client s3
         = Some {| Agent.sent :=
                     [Agent.framed Agent.busy_response;
                      encode (json_lit "{'success':true,'waited_frames':2}" ++ [LF])] |}).
Proof. vm_compute. repeat split. Qed.

End Scenarios.

(** * The tools, the scene and the game process on concrete inputs *)

Module Cases.
Import Godot Fragment Inputs Samples.

(** X1 on a scene path. *)
Lemma accepted_path_applies :
  Tools.validatePath (Controller.Str (lit "scenes/main.tscn")) = Some true
  /\ Forall (fun component => Text.eqb component ".." = false)
       (Tools.components (lit "scenes/main.tscn")).
Proof.
  split; [reflexivity|].
  exact (proj2 (ToolsSpec.accepted_path_stays_below (lit "scenes/main.tscn") eq_refl)).
Defined.

(** X2 on the version strings of two releases, and on one without a number
    in front. *)
Lemma version_applies :
  Tools.isGodot44OrLater (lit "4.4.1.stable.official") = true
  /\ Tools.isGodot44OrLater (lit "4.10-beta") = true
  /\ Tools.isGodot44OrLater (lit "v4.4") = false.
Proof.
  split; [|split].
  - exact (proj1 ToolsSpec.version_compared_as_numbers 4%nat 4%nat
             (lit ".1.stable.official") eq_refl).
  - exact (proj1 ToolsSpec.version_compared_as_numbers 4%nat 10%nat (lit "-beta") eq_refl).
  - exact (proj2 ToolsSpec.version_compared_as_numbers 118%N (lit "4.4") eq_refl).
Defined.

(** X3 on a key of the table and on a key that is not in it. *)
Lemma renamings_apply :
  Tools.snakeKey (Tools.normalizedKey (lit "project_path")) = lit "project_path"
  /\ Tools.snakeKey (Tools.normalizedKey (lit "frames")) = lit "frames"
  /\ Tools.normalizedKey (lit "scene_path") = lit "scenePath".
Proof.
  split; [|split].
  - exact (proj1 ToolsSpec.renamings_are_inverse (lit "project_path") eq_refl).
  - exact (proj1 ToolsSpec.renamings_are_inverse (lit "frames") eq_refl).
  - refine (proj1 (proj2 ToolsSpec.renamings_are_inverse "scene_path" "scenePath" _)).
    right. left. reflexivity.
Defined.

(** X5 on a request with a nested object. *)
Lemma snake_case_request_applies :
  Tools.convertCamelToSnakeCase
    (Tools.normalizeParameters
       (Controller.Obj [(lit "project_path", Controller.Str (lit "/game"));
                        (lit "options",
                         Controller.Obj [(lit "node_name", Controller.Bool true)])]))
  = Controller.Obj [(lit "project_path", Controller.Str (lit "/game"));
                    (lit "options", Controller.Obj [(lit "node_name", Controller.Bool true)])].
Proof.
  exact (ToolsSpec.snake_case_request_survives
           [(lit "project_path", Controller.Str (lit "/game"));
            (lit "options", Controller.Obj [(lit "node_name", Controller.Bool true)])]
           eq_refl).
Defined.

(** X7 on a letter, on the name of a key in small letters, and on a word
    that names no key. *)
Lemma key_names_apply :
  Scene._string_to_keycode (lit "a") = 65
  /\ Scene._string_to_keycode (lit "enter") = Scene.KEY_ENTER
  /\ Scene._string_to_keycode (lit "anykey") = Scene.KEY_NONE.
Proof.
  split; [|split].
  - exact (proj1 SceneSpec.key_names_ignore_case 97%N eq_refl).
  - refine (proj1 (proj2 SceneSpec.key_names_ignore_case) "ENTER" Scene.KEY_ENTER
              (lit "enter") _ _ eq_refl).
    + unfold Scene.key_map. repeat first [left; reflexivity | right].
    + repeat constructor.
  - refine (proj2 (proj2 SceneSpec.key_names_ignore_case) (lit "anykey") eq_refl _).
    discriminate.
Defined.

(** X11 on the property list of the player: [position] is declared a
    [Vector2]. *)
Lemma declared_type_applies :
  Scene.for_property player_properties (lit "position")
    (_variant_to_json (VVector2 (Vector2.mk (float_of_Z 3) (float_of_Z 4))))
  = Some (VVector2 (Vector2.mk (float_of_Z 3) (float_of_Z 4))).
Proof.
  refine (proj2 (SceneSpec.declared_type_decodes
                   [[(VString (lit "name"), VString (lit "visible"));
                     (VString (lit "type"), VInt 1)]] []
                   [(VString (lit "name"), VString (lit "position"));
                    (VString (lit "type"), VInt 5)]
                   (lit "position") (lit "Vector2") 5 _ eq_refl eq_refl eq_refl)
            (VVector2 (Vector2.mk (float_of_Z 3) (float_of_Z 4))) eq_refl I).
  constructor; [|constructor]. exists (lit "visible"). split; reflexivity.
Defined.

(** X12 on the player: its position is set from the object the codec
    makes of a [Vector2]. *)
Lemma set_property_applies :
  Scene._cmd_set_property
    [(VString (lit "node_path"), VString (lit "/root/Main/Player"));
     (VString (lit "property"), VString (lit "position"));
     (VString (lit "value"),
      _variant_to_json (VVector2 (Vector2.mk (float_of_Z 3) (float_of_Z 4))))] 0%nat
  = Agent.Respond 0%nat
      (dict_lit [("success", VBool true);
                 ("node_path", VString (lit "/root/Main/Player"));
                 ("property", VString (lit "position"));
                 ("value", _variant_to_json VNil)]).
Proof.
  refine (SceneSpec.set_property_writes_decoded_value
            [(VString (lit "node_path"), VString (lit "/root/Main/Player"));
             (VString (lit "property"), VString (lit "position"));
             (VString (lit "value"),
              _variant_to_json (VVector2 (Vector2.mk (float_of_Z 3) (float_of_Z 4))))]
            0%nat (lit "/root/Main/Player") (lit "position") (lit "Vector2") true
            (VVector2 (Vector2.mk (float_of_Z 3) (float_of_Z 4)))
            [[(VString (lit "name"), VString (lit "visible"));
              (VString (lit "type"), VInt 1)]] []
            [(VString (lit "name"), VString (lit "position"));
             (VString (lit "type"), VInt 5)] 5
            eq_refl eq_refl eq_refl eq_refl _ _ eq_refl eq_refl _
            eq_refl eq_refl eq_refl eq_refl I).
  - discriminate.
  - discriminate.
  - constructor; [|constructor]. exists (lit "visible"). split; reflexivity.
Defined.

(** X13 on an idle agent asked to wait two frames: it is busy after one
    frame and has answered after two. *)
Lemma wait_applies :
  Agent._busy
    (Nat.iter 1 Agent.emit_signal
       (Agent._handle_command (json_lit "{'command':'wait','params':{'frames':2}}")
          idle_agent)) = true
  /\ Nat.iter 2 Agent.emit_signal
       (Agent._handle_command (json_lit "{'command':'wait','params':{'frames':2}}")
          idle_agent)
     = Agent.set_client (Some {| Agent.sent := [Agent.framed (Flow.waited 2)] |}) idle_agent.
Proof.
  pose proof (AgentFlow.wait_answers_after_its_frames idle_agent {| Agent.sent := [] |}
                (json_lit "{'command':'wait','params':{'frames':2}}")
                [(VString (lit "command"), VString (lit "wait"));
                 (VString (lit "params"),
                  VDictionary [(VString (lit "frames"), VFloat (float_of_Z 2))])]
                [(VString (lit "frames"), VFloat (float_of_Z 2))] 2
                eq_refl eq_refl eq_refl eq_refl eq_refl eq_refl eq_refl) as [Hbusy Hdone].
  split.
  - exact (proj1 (Hbusy 1%nat (le_n 2))).
  - exact (Hdone 2%nat (le_n 2)).
Defined.

(** X14 on an agent whose [wait] has one frame to go when a new client
    takes the place of the one that asked. *)
Lemma outlived_client_applies :
  Agent._process reconnects busy_agent
  = Agent.set_buffer [] (Agent.set_client (Some {| Agent.sent := [] |}) busy_agent)
  /\ Flow.sent_to_client (Agent.emit_signal (Agent._process reconnects busy_agent))
     = [Agent.framed (dict_lit [("success", VBool true); ("waited_frames", VInt 1)])].
Proof.
  pose proof (AgentFlow.command_outlives_its_client busy_agent
                (Agent.await_frames 0
                   (dict_lit [("success", VBool true); ("waited_frames", VInt 1)]))
                reconnects {| Agent.sent := [] |}
                (dict_lit [("success", VBool true); ("waited_frames", VInt 1)]) 0%nat
                eq_refl eq_refl eq_refl eq_refl eq_refl eq_refl) as (Hprocess & _ & Hsignal).
  split; [exact Hprocess|]. rewrite Hsignal. reflexivity.
Defined.

(** X15 on a busy agent: a frame that brings a command leaves it busy. *)
Lemma busy_flag_applies :
  Agent._busy
    (Agent._process (delivers (encode (json_lit "{'command':'get_performance'}" ++ [LF])))
       busy_agent) = true.
Proof.
  exact (proj1 (proj1 AgentFlow.busy_flag_outlasts_frames
                  (delivers (encode (json_lit "{'command':'get_performance'}" ++ [LF])))
                  busy_agent eq_refl)).
Defined.

(** X17 on a controller that waits for the answer to call 0 when a second
    command is sent: the answer that arrives goes to call 1, and call 0
    ends when its timer fires. *)
Lemma overwritten_call_applies :
  let second :=
    (Controller.sendGameCommand (lit "get_performance") (Controller.Obj []) 10000
       awaiting).2 in
  Controller.settlements 0%nat
    (Controller.run [Controller.Data (encode (json_lit "{'fps':60}" ++ [LF]))] second) = []
  /\ Controller.settlements 0%nat
       (Controller.run ([Controller.Data (encode (json_lit "{'fps':60}" ++ [LF]))]
                        ++ [Controller.TimerFired 0%nat]) second)
     = [Controller.Rejected (Controller.TimedOut (lit "wait") 1000)].
Proof.
  refine (proj2 (ControllerFlow.overwritten_call_ends_by_timeout awaiting 0%nat (lit "wait")
                   1000 7%nat (lit "get_performance") (Controller.Obj []) 10000
                   _ _ _ (le_n 1) _ _)
            [Controller.Data (encode (json_lit "{'fps':60}" ++ [LF]))] _);
    try (vm_compute; reflexivity).
  constructor; [discriminate|constructor].
Defined.

(** X18 when the third attempt connects. *)
Lemma third_attempt_applies :
  Flow.slept (Controller.connectToGame (lit "/game") third_time Controller.initial).2 = 3000
  /\ Controller.attempts_made
       (Controller.connectToGame (lit "/game") third_time Controller.initial).2 = 3%nat
  /\ Controller.connected
       (Controller.gameConnection
          (Controller.connectToGame (lit "/game") third_time Controller.initial).1) = true.
Proof.
  assert (Hfail : Controller.turns_fail third_time 2).
  { intros [|[|i]] Hi; [split; reflexivity|split; reflexivity|lia]. }
  assert (Hk : (2 < 10)%nat) by lia.
  pose proof (ControllerFlow.connection_made_at_first_success (lit "/game") third_time
                Controller.initial 2 7%nat Hk Hfail eq_refl eq_refl)
    as (_ & Hslept & Hmade & Hconn & _).
  split; [exact Hslept|]. split; [exact Hmade|]. rewrite Hconn. reflexivity.
Defined.

(** X19 on a response that arrives in two chunks. *)
Lemma chunked_frame_applies :
  fold_left (fun s t => Controller.on_text t s)
    [json_lit "{'success'"; json_lit ":true}" ++ [LF]] awaiting
  = Controller.on_text (json_lit "{'success':true}" ++ [LF]) awaiting.
Proof.
  exact (proj1 (proj2 ControllerFlow.frames_survive_chunking)
           [json_lit "{'success'"; json_lit ":true}" ++ [LF]] awaiting (fun H => H)).
Defined.

(** X20 on a project file with one section. *)
Lemma injection_applies :
  let injected :=
    (Lifecycle.injectInteractionServer (lit "/game") (Some (lit "extends Node"))
       game_project).1.1 in
  Lifecycle.server_script injected = Some (lit "extends Node")
  /\ (Lifecycle.injectInteractionServer (lit "/game") (Some (lit "extends Node"))
        injected).1.1 = injected.
Proof.
  pose proof (LifecycleSpec.injection_enters_one_entry (lit "/game") (lit "extends Node")
                (lit "[application]" ++ [LF]) game_project eq_refl)
    as (_ & Hscript & _ & Hagain & _).
  split; [exact Hscript|exact Hagain].
Defined.

(** X21 on the game project: started, connected, and stopped. *)
Lemma run_then_stop_applies :
  let stopped :=
    (Lifecycle.handleStopProject
       (Lifecycle.run [Lifecycle.Game (Controller.Connect 7%nat)] running_server)).2 in
  Lifecycle.activeProcess stopped = None
  /\ Lifecycle.killed stopped = [0%nat]
  /\ Lifecycle.server_script (Lifecycle.disk stopped (Lifecycle.directory (lit "/game"))) = None
  /\ Lifecycle.project_godot (Lifecycle.disk stopped (Lifecycle.directory (lit "/game")))
     = Some (lit "[application]" ++ [LF; LF] ++ lit "[autoload]" ++ [LF; LF]).
Proof.
  assert (Hes : Forall (fun e => Lifecycle.passing e = true)
                  [Lifecycle.Game (Controller.Connect 7%nat)])
    by (constructor; [reflexivity|constructor]).
  assert (Hreply : (Lifecycle.handleRunProject run_game fresh_server).1
                   = Lifecycle.Replied
                       {| Lifecycle.content :=
                            [lit "Godot project started in debug mode. Use get_debug_output to see output. Game interaction server connecting on port 9090..."];
                          Lifecycle.isError := false |})
    by (vm_compute; reflexivity).
  pose proof (eq_trans (surjective_pairing (Lifecycle.handleRunProject run_game fresh_server))
                (f_equal2 pair Hreply (eq_refl running_server))) as Hrun.
  assert (Hpath : Lifecycle.property (Tools.normalizeParameters run_game) (lit "projectPath")
                  = Some (Controller.Str (lit "/game")))
    by (vm_compute; reflexivity).
  assert (Hclean : Tools.includes Lifecycle.AUTOLOAD_NAME (lit "[application]" ++ [LF]) = false)
    by (vm_compute; reflexivity).
  assert (Hsection : Tools.includes (lit "[autoload]") (lit "[application]" ++ [LF]) = false)
    by (vm_compute; reflexivity).
  pose proof (LifecycleSpec.run_then_stop_leaves_a_trace run_game fresh_server running_server
                _ (lit "/game") (lit "[application]" ++ [LF])
                [Lifecycle.Game (Controller.Connect 7%nat)]
                eq_refl Hrun eq_refl Hpath eq_refl Hclean Hes)
    as (Hactive & Hkilled & _ & _ & Hscript & _ & content2 & Hfile & _ & _ & Hnew & _).
  split; [exact Hactive|]. split; [exact Hkilled|]. split; [exact Hscript|].
  exact (eq_trans Hfile (f_equal Some (Hnew Hsection))).
Defined.

(** X22 on the game project, started again while it runs; the new game
    connects before the old process exits. *)
Lemma restart_applies :
  let restarted := (Lifecycle.handleRunProject run_game running_server).2 in
  let exited :=
    Lifecycle.on_exit 0%nat (Some 0)
      (Lifecycle.run [Lifecycle.Game (Controller.Connect 7%nat)] restarted) in
  Lifecycle.server_script (Lifecycle.disk restarted (Lifecycle.directory (lit "/game"))) = Some (lit "extends Node")
  /\ Lifecycle.activeProcess exited = Some 1%nat
  /\ Lifecycle.server_script (Lifecycle.disk exited (Lifecycle.directory (lit "/game"))) = None
  /\ Controller.projectPath (Controller.gameConnection (Lifecycle.connection exited)) = None.
Proof.
  assert (Hes : Forall (fun e => Lifecycle.passing e = true)
                  [Lifecycle.Game (Controller.Connect 7%nat)])
    by (constructor; [reflexivity|constructor]).
  assert (Hactive0 : Lifecycle.activeProcess running_server = Some 0%nat)
    by (vm_compute; reflexivity).
  assert (Hspawned : (0 < length (Lifecycle.spawned running_server))%nat)
    by (vm_compute; lia).
  assert (Hreply : (Lifecycle.handleRunProject run_game running_server).1
                   = Lifecycle.Replied
                       {| Lifecycle.content :=
                            [lit "Godot project started in debug mode. Use get_debug_output to see output. Game interaction server connecting on port 9090..."];
                          Lifecycle.isError := false |})
    by (vm_compute; reflexivity).
  pose proof (eq_trans (surjective_pairing (Lifecycle.handleRunProject run_game running_server))
                (f_equal2 pair Hreply
                   (eq_refl (Lifecycle.handleRunProject run_game running_server).2))) as Hrun.
  assert (Hpath : Lifecycle.property (Tools.normalizeParameters run_game) (lit "projectPath")
                  = Some (Controller.Str (lit "/game")))
    by (vm_compute; reflexivity).
  assert (Hsource : Lifecycle.interactionScript running_server = Some (lit "extends Node"))
    by (vm_compute; reflexivity).
  pose proof (LifecycleSpec.restart_undoes_the_injection run_game running_server
                _ _ (lit "/game") 0%nat (Some 0) [Lifecycle.Game (Controller.Connect 7%nat)]
                Hactive0 Hspawned Hrun eq_refl Hpath Hes)
    as (_ & _ & Hactive & (source & Hsource' & Hscript) & _ & Hgone & Hexit & _).
  split; [|split; [|split; [exact Hgone|exact Hexit]]].
  - exact (eq_trans Hscript (eq_trans (eq_sym Hsource') Hsource)).
  - refine (eq_trans Hactive _). vm_compute. reflexivity.
Defined.


End Cases.
